(** * shogun-kunai: Yumi (signed channel), Yari (encrypted overlay), Kunai (file transfer)

    A shallow embedding of [src/src/yumi.ts], [src/src/kunai.ts] and of the
    Yari overlay, together with the properties of the specification that
    concern them.

    Conventions of the embedding.

    - JavaScript values that travel as JSON are values of [JS.json]; a missing
      property ([undefined]) is [None].  JSON numbers are integers ([Z]):
      time stamps, sizes and chunk indices are.
    - Plain objects and [Map]s used as dictionaries are [gmap]s of their own
      properties.  Where the key of a read comes from a caller or from the
      wire (the address of [send] and [rpc], the call and the nonce of an RPC
      packet, the index of a chunk, the sender of a file), the read goes
      through [property_of], which also finds what a plain object inherits
      from [Object.prototype].
      The keys the code computes itself (addresses, which are base58check
      strings of 25 characters and more, hexadecimal hashes and nonces, loop
      indices) are no such names and are looked up in the [gmap]; no write
      under the key [__proto__] is modelled.
    - Library code that is not part of the repository (tweetnacl, bs58,
      [Buffer], [JSON], Gun SEA) is taken from a [Platform]; the theorems hold
      for every platform.
    - [Date.now()] and [nacl.randomBytes] are read from an explicit [Env];
      one handler invocation reads one clock value.
    - A handler returns the new state and the list of things it did, in
      order: events emitted, callbacks invoked.  The listeners of events and
      the registered API functions are taken to return normally; for the
      listeners of [rpc-response] and the pending callbacks, whose failure
      decides whether [onMessage] deletes a callback, the [Env] says whether
      they raise.
    - A wire field whose JSON type differs from the one its TypeScript
      interface declares ([SignedPacket], [EncryptedPacket], [MessagePacket])
      makes the packet malformed: the model raises inside [onMessage]'s [try]
      block, which drops the packet. *)

From Stdlib Require Import ZArith String Ascii List Bool Lia.
From Stdlib.Strings Require Import Byte.
From stdpp Require Import gmap strings list fin_maps pretty list_numbers.

Set Warnings "-register-all".
Open Scope Z_scope.

(* ===================================================================== *)
(** * JavaScript values and the primitives the sources rely on            *)
(* ===================================================================== *)

Module JS.

(** The values [JSON.parse] produces. *)
Inductive json : Type :=
  | JNull
  | JBool (b : bool)
  | JNum (n : Z)
  | JStr (s : string)
  | JArr (items : list json)
  | JObj (fields : list (string * json)).

(** [if (v)] for a JSON value. *)
Definition truthy (v : json) : bool :=
  match v with
  | JNull => false
  | JBool b => b
  | JNum n => negb (n =? 0)
  | JStr s => negb (String.eqb s "")
  | JArr _ | JObj _ => true
  end.

(** [if (v)] where [v] may be [undefined]. *)
Definition truthy_opt (v : option json) : bool :=
  match v with Some v => truthy v | None => false end.

(** [if (s)] for a string that may be [undefined]. *)
Definition truthy_str (s : option string) : bool :=
  match s with Some s => negb (String.eqb s "") | None => false end.

(** [if (n)] for a number that may be [undefined]. *)
Definition truthy_num (n : option Z) : bool :=
  match n with Some n => negb (n =? 0) | None => false end.

(** [obj.k] on the fields of an object; on a repeated key [JSON.parse]
    keeps the last occurrence. *)
Definition get (k : string) (fields : list (string * json)) : option json :=
  foldl (fun acc kv => if String.eqb (fst kv) k then Some (snd kv) else acc)
        None fields.

(** [k in obj]. *)
Definition has (k : string) (fields : list (string * json)) : bool :=
  match get k fields with Some _ => true | None => false end.

Definition join (sep : string) (l : list string) : string :=
  match l with
  | [] => ""
  | x :: l => foldl (fun acc y => acc +:+ sep +:+ y) x l
  end.

(** [String(v)], the coercion of a value used as a property key. *)
Fixpoint ToString (v : json) : string :=
  match v with
  | JNull => "null"
  | JBool true => "true"
  | JBool false => "false"
  | JNum n => pretty n
  | JStr s => s
  | JArr items =>
      join "," (map (fun x => match x with JNull => "" | _ => ToString x end) items)
  | JObj _ => "[object Object]"
  end.

(** [s.slice(b, e)] ([String.prototype.slice]) for integer arguments. *)
Definition slice (s : string) (b e : Z) : string :=
  let len := Z.of_nat (String.length s) in
  let from := if b <? 0 then Z.max (len + b) 0 else Z.min b len in
  let to := if e <? 0 then Z.max (len + e) 0 else Z.min e len in
  String.substring (Z.to_nat from) (Z.to_nat (Z.max (to - from) 0)) s.

(** [Math.ceil(a / b)] for integers, [b] not zero. *)
Definition ceil_div (a b : Z) : Z := - ((- a) / b).

Definition hex_digit (d : N) : ascii :=
  ascii_of_N (if (d <? 10)%N then 48 + d else 87 + d).

(** [toHex] of [utils.ts]: two lower-case hexadecimal digits per byte. *)
Definition toHex (arr : list byte) : string :=
  foldr (fun b acc =>
           let n := Byte.to_N b in
           String (hex_digit (n / 16)) (String (hex_digit (n mod 16)) acc))
        "" arr.

(** [JSON.stringify] turns a [Uint8Array] into the object of its indices. *)
Definition json_of_Uint8Array (arr : list byte) : json :=
  JObj (imap (fun i b => (pretty (Z.of_nat i), JNum (Z.of_N (Byte.to_N b)))) arr).

(** The names of the properties a plain object inherits from
    [Object.prototype].  Their values are truthy: functions, and under
    [__proto__] the prototype itself. *)
Definition Object_prototype : list string :=
  ["constructor"; "hasOwnProperty"; "isPrototypeOf"; "propertyIsEnumerable";
   "toLocaleString"; "toString"; "valueOf"; "__defineGetter__"; "__defineSetter__";
   "__lookupGetter__"; "__lookupSetter__"; "__proto__"].

Definition inherited (k : string) : bool := existsb (String.eqb k) Object_prototype.

(** What [obj[k]] finds in a plain object used as a dictionary. *)
Inductive property (A : Type) : Type :=
  | Own (a : A)          (* a property of the object itself *)
  | Inherited            (* none of its own: the one of [Object.prototype] *)
  | Missing.             (* [undefined] *)
Arguments Own {A} a.
Arguments Inherited {A}.
Arguments Missing {A}.

(** The string is empty or starts with a minus sign or a digit, as the
    decimal form of an integer does. *)
Definition starts_numeric (s : string) : bool :=
  match s with
  | String c _ =>
      Ascii.eqb c "-"
      || (48 <=? Z.of_N (N_of_ascii c)) && (Z.of_N (N_of_ascii c) <=? 57)
  | EmptyString => true
  end.

Definition property_of {A : Type} (obj : gmap string A) (k : string) : property A :=
  match obj !! k with
  | Some a => Own a
  | None => if inherited k then Inherited else Missing
  end.

End JS.

Export JS.

(** Time and randomness read by one handler invocation, and what the
    application's code does when the handler calls it. *)
Record Env := {
  now : Z;                      (* Date.now() *)
  nonce8 : list byte;           (* nacl.randomBytes(8) of makePacket *)
  callnonce8 : list byte;       (* nacl.randomBytes(8) of rpc *)
  nonce24 : list byte;          (* nacl.randomBytes(nacl.box.nonceLength) *)
  transferCode : string;        (* the draw of generateTransferCode *)
  msgId : string;               (* `${Date.now()}-${address}-${random}` of Yari.send *)
  listener_raises : bool;       (* a listener of 'rpc-response' raises *)
  callback_raises : bool        (* the pending callback raises when it is called *)
}.

(** Gun SEA key pair ([SEAKeyPair] of [types.ts]). *)
Record SEAKeyPair := {
  sea_pub : string; sea_priv : string; sea_epub : string; sea_epriv : string
}.

(** The library functions the sources call. [None] is a raised exception,
    except for [nacl_box_open], where it also stands for the [null] of a
    failed decryption: [onMessage] does nothing in either case. *)
Class Platform := {
  nacl_hash : list byte -> list byte;
  nacl_sign_detached : list byte -> list byte -> list byte;
  nacl_sign_detached_verify : list byte -> list byte -> list byte -> option bool;
  nacl_box : list byte -> list byte -> list byte -> list byte -> option (list byte);
  nacl_box_open : list byte -> list byte -> list byte -> list byte -> option (list byte);
  bs58_encode : list byte -> string;
  bs58_decode : string -> option (list byte);
  bs58checkEncode : list byte -> string;
  ripemd160Hash : list byte -> list byte;
  toBuffer : string -> list byte;
  toString : list byte -> string;
  fromHex : string -> list byte;
  toBase64 : list byte -> string;
  fromBase64 : string -> list byte;
  base64_decode : string -> option (list byte);
  JSON_parse : string -> option json;
  JSON_stringify : json -> string;
  js_add_gt : json -> Z -> Z -> bool;
    (* [x + timeout > t] for an [x] that is a string, an array or an object *)
  SEA_secret : option json -> option SEAKeyPair -> option string;
  SEA_encrypt : option json -> string -> option json
}.

(** What a call gives back to its caller: a value or a raised [Error]. *)
Inductive Error :=
  | NotSeenNoPublicKey (address : string)
      (* new Error(address + " not seen - no public key.") *)
  | NotSeenNoEncryptionKey (address : string)
      (* new Error(bugout.address(pk) + " not seen - no encryption key.") *)
  | PeerNotFound (address : string)
      (* new Error('Peer not found: ' + address), Yari *)
  | FileDataRequired
      (* new Error('File data is required for GunDB transfer'), Kunai *)
  | LibraryError
      (* raised inside tweetnacl, bs58 or SEA *)
  | TypeError.
      (* raised by the engine: [x.slice] where [x] has no such function *)

Inductive outcome (A : Type) :=
  | Ok (a : A)
  | Throw (e : Error).
Arguments Ok {A} a.
Arguments Throw {A} e.

(** The text of the errors the sources construct themselves. *)
Definition message_of (e : Error) : string :=
  match e with
  | NotSeenNoPublicKey a => a +:+ " not seen - no public key."
  | NotSeenNoEncryptionKey a => a +:+ " not seen - no encryption key."
  | PeerNotFound a => "Peer not found: " +:+ a
  | FileDataRequired => "File data is required for GunDB transfer"
  | LibraryError | TypeError => ""
  end.

(** The specification's [UnknownPeer]: the peer's keys are not in the
    channel's peer table. *)
Definition UnknownPeer (e : Error) : bool :=
  match e with
  | NotSeenNoPublicKey _ | NotSeenNoEncryptionKey _ => true
  | _ => false
  end.

(* ===================================================================== *)
(** * Yumi: the signed channel ([src/src/yumi.ts])                         *)
(* ===================================================================== *)

Module Yumi.
Section WithPlatform.
Context {P : Platform}.

Definition PEERTIMEOUT : Z := 5 * 60 * 1000.
(** [hexToBytes(ADDRESSPREFIX)], with [ADDRESSPREFIX = "55"]. *)
Definition ADDRESSPREFIX : list byte := [x55].

(** [PeerInfo] of [types.ts]; [ek] is whatever the wire carried. *)
Record PeerInfo := { peer_pk : string; peer_ek : option json; peer_last : Z }.

(** The record [sendRaw] puts under [messages/<hash>]. *)
Record MessageData := { md_m : string; md_t : Z; md_k : string }.

(** The record [_announcePresence] puts under [presence/<address>]. *)
Record PresenceData := { pr_pk : string; pr_ek : string; pr_t : Z }.

(** A function the application passed as an RPC callback, by identity. *)
Definition Callback := nat.

Record Yumi := {
  identifier : string;
  timeout : Z;
  keyPair_publicKey : list byte;
  keyPair_secretKey : list byte;
  keyPairEncrypt_secretKey : list byte;
  pk : string;
  ek : string;
  peers : gmap string PeerInfo;
  seen : gmap string Z;
  lastpeercount : Z;
  api : gset string;
  callbacks : gmap string (option Callback);
  serveraddress : option string;
  messages : gmap string MessageData;      (* gun: bugout-<id>/messages *)
  presence : gmap string PresenceData      (* gun: bugout-<id>/presence *)
}.

Definition set_peers (f : gmap string PeerInfo -> gmap string PeerInfo) (b : Yumi) : Yumi :=
  {| identifier := identifier b; timeout := timeout b;
     keyPair_publicKey := keyPair_publicKey b; keyPair_secretKey := keyPair_secretKey b;
     keyPairEncrypt_secretKey := keyPairEncrypt_secretKey b; pk := pk b; ek := ek b;
     peers := f (peers b); seen := seen b; lastpeercount := lastpeercount b;
     api := api b; callbacks := callbacks b; serveraddress := serveraddress b;
     messages := messages b; presence := presence b |}.

Definition set_seen (f : gmap string Z -> gmap string Z) (b : Yumi) : Yumi :=
  {| identifier := identifier b; timeout := timeout b;
     keyPair_publicKey := keyPair_publicKey b; keyPair_secretKey := keyPair_secretKey b;
     keyPairEncrypt_secretKey := keyPairEncrypt_secretKey b; pk := pk b; ek := ek b;
     peers := peers b; seen := f (seen b); lastpeercount := lastpeercount b;
     api := api b; callbacks := callbacks b; serveraddress := serveraddress b;
     messages := messages b; presence := presence b |}.

Definition set_lastpeercount (n : Z) (b : Yumi) : Yumi :=
  {| identifier := identifier b; timeout := timeout b;
     keyPair_publicKey := keyPair_publicKey b; keyPair_secretKey := keyPair_secretKey b;
     keyPairEncrypt_secretKey := keyPairEncrypt_secretKey b; pk := pk b; ek := ek b;
     peers := peers b; seen := seen b; lastpeercount := n;
     api := api b; callbacks := callbacks b; serveraddress := serveraddress b;
     messages := messages b; presence := presence b |}.

Definition set_api (f : gset string -> gset string) (b : Yumi) : Yumi :=
  {| identifier := identifier b; timeout := timeout b;
     keyPair_publicKey := keyPair_publicKey b; keyPair_secretKey := keyPair_secretKey b;
     keyPairEncrypt_secretKey := keyPairEncrypt_secretKey b; pk := pk b; ek := ek b;
     peers := peers b; seen := seen b; lastpeercount := lastpeercount b;
     api := f (api b); callbacks := callbacks b; serveraddress := serveraddress b;
     messages := messages b; presence := presence b |}.

Definition set_callbacks
    (f : gmap string (option Callback) -> gmap string (option Callback)) (b : Yumi) : Yumi :=
  {| identifier := identifier b; timeout := timeout b;
     keyPair_publicKey := keyPair_publicKey b; keyPair_secretKey := keyPair_secretKey b;
     keyPairEncrypt_secretKey := keyPairEncrypt_secretKey b; pk := pk b; ek := ek b;
     peers := peers b; seen := seen b; lastpeercount := lastpeercount b;
     api := api b; callbacks := f (callbacks b); serveraddress := serveraddress b;
     messages := messages b; presence := presence b |}.

Definition set_serveraddress (a : option string) (b : Yumi) : Yumi :=
  {| identifier := identifier b; timeout := timeout b;
     keyPair_publicKey := keyPair_publicKey b; keyPair_secretKey := keyPair_secretKey b;
     keyPairEncrypt_secretKey := keyPairEncrypt_secretKey b; pk := pk b; ek := ek b;
     peers := peers b; seen := seen b; lastpeercount := lastpeercount b;
     api := api b; callbacks := callbacks b; serveraddress := a;
     messages := messages b; presence := presence b |}.

Definition set_messages
    (f : gmap string MessageData -> gmap string MessageData) (b : Yumi) : Yumi :=
  {| identifier := identifier b; timeout := timeout b;
     keyPair_publicKey := keyPair_publicKey b; keyPair_secretKey := keyPair_secretKey b;
     keyPairEncrypt_secretKey := keyPairEncrypt_secretKey b; pk := pk b; ek := ek b;
     peers := peers b; seen := seen b; lastpeercount := lastpeercount b;
     api := api b; callbacks := callbacks b; serveraddress := serveraddress b;
     messages := f (messages b); presence := presence b |}.

Definition set_presence
    (f : gmap string PresenceData -> gmap string PresenceData) (b : Yumi) : Yumi :=
  {| identifier := identifier b; timeout := timeout b;
     keyPair_publicKey := keyPair_publicKey b; keyPair_secretKey := keyPair_secretKey b;
     keyPairEncrypt_secretKey := keyPairEncrypt_secretKey b; pk := pk b; ek := ek b;
     peers := peers b; seen := seen b; lastpeercount := lastpeercount b;
     api := api b; callbacks := callbacks b; serveraddress := serveraddress b;
     messages := messages b; presence := f (presence b) |}.

(** What a handler does besides changing the state: [bugout.emit(...)],
    a call of a registered API function, a call of a pending callback. *)
Inductive Event :=
  | EvReady
  | EvSeen (address : string)
  | EvServer (address : string)
  | EvConnections (count : Z)
  | EvMessage (address : string) (message : json) (packet : json)
  | EvRpc (address : string) (call : option json) (args : json) (nonce : option json)
  | EvRpcResponse (address : string) (nonce : option json) (result : json)
  | EvPing (address : string)
  | EvLeft (address : string)
  | EvTimeout (address : string)
  | ApiCall (call : string) (address : string) (args : json)
            (pk : string) (nonce : option json)
      (* bugout.api[call](bugout.address(pk), args, reply) *)
  | CallbackCall (nonce : option json) (cb : Callback) (result : json)
      (* bugout.callbacks[nonce](responsestringstruct) *)
  | PrototypeCall (name : string).
      (* bugout.api[call](...) or bugout.callbacks[nonce](...) where the
         property is the inherited one: a function of [Object.prototype] is
         called, or, for [__proto__], which is none, a TypeError is raised;
         either way nothing of the channel changes *)

(** [String(v)] where [v] may be [undefined]. *)
Definition ToString_opt (v : option json) : string :=
  match v with Some v => ToString v | None => "undefined" end.

Definition encodeaddress (material : list byte) : string :=
  bs58checkEncode (ADDRESSPREFIX ++ ripemd160Hash (nacl_hash material)).

(** [address(pk?)]: a non-empty string longer than 40 characters is
    base58-decoded when it can be, the empty string and [undefined] stand
    for the own public key, any other string is hashed as it is. *)
Definition address (bugout : Yumi) (pk : option string) : string :=
  match pk with
  | Some s =>
      if negb (String.eqb s "") && (40 <? Z.of_nat (String.length s)) then
        match bs58_decode s with
        | Some bytes => encodeaddress bytes
        | None => encodeaddress (toBuffer s)
        end
      else if String.eqb s "" then encodeaddress (keyPair_publicKey bugout)
      else encodeaddress (toBuffer s)
  | None => encodeaddress (keyPair_publicKey bugout)
  end.

Definition _updateConnections (bugout : Yumi) : Yumi * list Event :=
  let peerCount := Z.of_nat (size (peers bugout)) in
  if negb (peerCount =? lastpeercount bugout)
  then (set_lastpeercount peerCount bugout, [EvConnections peerCount])
  else (bugout, []).

(** The hash [sendRaw] and [onMessage] compute for a packet:
    [toHex(nacl.hash(message).slice(16))]. *)
Definition packet_hash (message : list byte) : string :=
  toHex (drop 16 (nacl_hash message)).

(** [makePacket]: the payload [{t, i, pk, ek, n, ...params}], signed. A
    parameter whose value is [undefined] is left out by [JSON.stringify]. *)
Definition makePacket (bugout : Yumi) (env : Env)
    (params : list (string * option json)) : string :=
  let p := JObj ([("t", JNum (now env)); ("i", JStr (identifier bugout));
                  ("pk", JStr (pk bugout)); ("ek", JStr (ek bugout));
                  ("n", JStr (toHex (nonce8 env)))]
                 ++ omap (fun kv => match snd kv with
                                    | Some v => Some (fst kv, v)
                                    | None => None
                                    end) params) in
  let pe := JSON_stringify p in
  let peBytes := toBuffer pe in
  let signature := nacl_sign_detached peBytes (keyPair_secretKey bugout) in
  JSON_stringify (JObj [("s", JStr (toHex signature)); ("p", JStr pe)]).

(** [encryptPacket]; [pk] is [undefined] when the caller read it from an
    inherited property. *)
Definition encryptPacket (bugout : Yumi) (env : Env) (pk : option string) (packet : string)
    : outcome string :=
  let address := address bugout pk in
  match peers bugout !! address with
  | Some peer =>
      let nonce := nonce24 env in
      match peer_ek peer with
      | Some (JStr peerEk) =>
          match bs58_decode peerEk with
          | Some ekBytes =>
              match nacl_box (toBuffer packet) nonce ekBytes
                             (keyPairEncrypt_secretKey bugout) with
              | Some encrypted =>
                  Ok (JSON_stringify
                        (JObj [("n", JStr (toHex nonce)); ("ek", JStr (ek bugout));
                               ("e", JStr (toHex encrypted))]))
              | None => Throw LibraryError
              end
          | None => Throw LibraryError
          end
      | _ => Throw LibraryError      (* bs58.decode of a non-string *)
      end
  | None => Throw (NotSeenNoEncryptionKey address)
  end.

Definition sendRaw (bugout : Yumi) (env : Env) (message : string) : Yumi :=
  let messageBuffer := toBuffer message in
  let messageData := {| md_m := toBase64 messageBuffer; md_t := now env;
                        md_k := packet_hash messageBuffer |} in
  let hash := md_k messageData in
  let bugout := set_messages (insert hash messageData) bugout in
  set_seen (insert hash (now env)) bugout.

Definition makeEncryptSendPacket (bugout : Yumi) (env : Env) (pk : option string)
    (params : list (string * option json)) : Yumi * outcome unit :=
  let packet := makePacket bugout env params in
  match encryptPacket bugout env pk packet with
  | Ok encrypted => (sendRaw bugout env encrypted, Ok tt)
  | Throw e => (bugout, Throw e)
  end.

Definition sawPeer (bugout : Yumi) (env : Env) (pk : string) (ek : option json)
    (_identifier : string) : Yumi * list Event :=
  let t := now env in
  let addr := address bugout (Some pk) in
  let fresh :=
    let bugout :=
      set_peers (insert addr {| peer_ek := ek; peer_pk := pk; peer_last := t |}) bugout in
    let server :=
      if String.eqb (address bugout (Some pk)) (identifier bugout)
      then (set_serveraddress (Some addr) bugout, [EvServer (address bugout (Some pk))])
      else (bugout, []) in
    let conn := _updateConnections (fst server) in
    (fst conn, [EvSeen (address bugout (Some pk))] ++ snd server ++ snd conn) in
  (* ignore ourself *)
  if negb (String.eqb addr (address bugout None)) then
    match peers bugout !! addr with
    | None => fresh
    | Some peer =>
        if peer_last peer + timeout bugout <? t then fresh
        else
          (set_peers (insert addr {| peer_pk := peer_pk peer; peer_ek := ek;
                                     peer_last := t |}) bugout, [])
    end
  else (bugout, []).

(** [rpcCall]: a registered function is called with a reply callback (see
    [rpcReply]); without one the error reply is sent at once.  A call name
    that [Object.prototype] knows finds the inherited property: no reply is
    sent then. *)
Definition rpcCall (bugout : Yumi) (env : Env) (pk : string) (call : option json)
    (args : json) (nonce : option json) : Yumi * list Event * outcome unit :=
  if decide (ToString_opt call ∈ api bugout) then
    (bugout, [ApiCall (ToString_opt call) (address bugout (Some pk)) args pk nonce], Ok tt)
  else if inherited (ToString_opt call) then
    (bugout, [PrototypeCall (ToString_opt call)], Ok tt)
  else
    let r := makeEncryptSendPacket bugout env (Some pk)
               [("y", Some (JStr "rr")); ("rn", nonce);
                ("rr", Some (JStr (JSON_stringify
                                     (JObj [("error", JStr "No such API call.")]))))] in
    (fst r, [], snd r).

(** The reply callback [rpcCall] hands to a registered function:
    [(result) => { packet["rr"] = JSON.stringify(result); makeEncryptSendPacket(...) }]. *)
Definition rpcReply (bugout : Yumi) (env : Env) (pk : string) (nonce : option json)
    (result : option json) : Yumi * outcome unit :=
  makeEncryptSendPacket bugout env (Some pk)
    [("y", Some (JStr "rr")); ("rn", nonce);
     ("rr", option_map (fun r => JStr (JSON_stringify r)) result)].

(** [v === s] for a string literal [s]. *)
Definition is_str (v : option json) (s : string) : bool :=
  match v with Some (JStr s') => String.eqb s' s | _ => false end.

(** [x || "null"], then used as the argument of [JSON.parse]. *)
Definition or_null (x : option json) : string :=
  if truthy_opt x then ToString_opt x else "null".

(** [packet.t + bugout.timeout > t]. *)
Definition checktime (packet_t : option json) (timeout t : Z) : bool :=
  match packet_t with
  | Some (JNum n) => n + timeout >? t
  | None => false                                  (* NaN > t *)
  | Some JNull => 0 + timeout >? t
  | Some (JBool b) => (if b then 1 else 0) + timeout >? t
  | Some x => js_add_gt x timeout t
  end.

(** The branches of [onMessage] on [packet.y], for an authenticated packet. *)
Definition dispatch (bugout : Yumi) (identifier : string) (env : Env)
    (packet : list (string * json)) (pk : string) : Yumi * list Event :=
  let y := get "y" packet in
  if is_str y "m" then
    let messagestring := get "v" packet in
    match JSON_parse (ToString_opt messagestring) with
    | Some messagejson =>
        if truthy messagejson
        then (bugout, [EvMessage (address bugout (Some pk)) messagejson (JObj packet)])
        else (bugout, [])
    | None => (bugout, [])
    end
  else if is_str y "r" then
    let call := get "c" packet in
    let argsstring := or_null (get "a" packet) in
    let args := match JSON_parse argsstring with Some a => a | None => JNull end in
    let nonce := get "rn" packet in
    let r := rpcCall bugout env pk call args nonce in
    (fst (fst r), [EvRpc (address bugout (Some pk)) call args nonce] ++ snd (fst r))
  else if is_str y "rr" then
    let nonce := get "rn" packet in
    match property_of (callbacks bugout) (ToString_opt nonce) with
    | Own None | Missing => (bugout, [])     (* dropped response with no callback *)
    | found =>
        let responsestring := or_null (get "rr" packet) in
        match JSON_parse responsestring with
        | Some responsestringstruct =>
            if truthy responsestringstruct then
              let emitted :=
                EvRpcResponse (address bugout (Some pk)) nonce responsestringstruct in
              if listener_raises env then (bugout, [emitted])
              else
                match found with
                | Own (Some cb) =>
                    let called := CallbackCall nonce cb responsestringstruct in
                    if callback_raises env then (bugout, [emitted; called])
                    else
                      (* delete bugout.callbacks[nonce] *)
                      (set_callbacks (delete (ToString_opt nonce)) bugout,
                       [emitted; called])
                | _ =>
                    (* the delete of a property that is not its own does nothing *)
                    (bugout, [emitted; PrototypeCall (ToString_opt nonce)])
                end
            else (bugout, [])
        | None => (bugout, [])
        end
    end
  else if is_str y "p" then
    (bugout, [EvPing (address bugout (Some pk))])
  else if is_str y "x" then
    let addr := address bugout (Some pk) in
    (set_peers (delete addr) bugout, [EvLeft addr])
  else (bugout, []).

(** The three checks of [onMessage] on a parsed payload:
    [Some (checksig, checkid, checktime)], or [None] when a library call
    raises. *)
Definition checks (bugout : Yumi) (identifier : string) (env : Env)
    (s p pk : string) (packet : list (string * json)) : option (bool * bool * bool) :=
  let id := get "i" packet in
  let sigBytes := fromHex s in
  match bs58_decode pk with
  | Some pkBytes =>
      let peBytes := toBuffer p in
      match nacl_sign_detached_verify peBytes sigBytes pkBytes with
      | Some checksig =>
          let checkid := is_str id identifier in
          let checktime := checktime (get "t" packet) (timeout bugout) (now env) in
          Some (checksig, checkid, checktime)
      | None => None
      end
  | None => None
  end.

(** [onMessage] from [if (unpacked && 'p' in unpacked)] on. *)
Definition processSigned (bugout : Yumi) (identifier : string) (env : Env)
    (signedPkt : list (string * json)) : Yumi * list Event :=
  match get "p" signedPkt, get "s" signedPkt with
  | Some (JStr p), Some (JStr s) =>
      match JSON_parse p with
      | Some (JObj packet) =>
          match get "pk" packet with
          | Some (JStr pk) =>
              match checks bugout identifier env s p pk packet with
              | Some (checksig, checkid, checktime) =>
                  if checksig && checkid && checktime then
                    (* message is authenticated *)
                    let ek := get "ek" packet in
                    let saw := sawPeer bugout env pk ek identifier in
                    let d := dispatch (fst saw) identifier env packet pk in
                    (fst d, snd saw ++ snd d)
                  else (bugout, [])   (* dropping bad packet *)
              | None => (bugout, [])
              end
          | _ => (bugout, [])         (* bs58.decode raises *)
          end
      | _ => (bugout, [])             (* JSON.parse raises, or no property to read *)
      end
  | _, _ => (bugout, [])
  end.

(** The decryption step of [onMessage]: [None] when an exception is
    raised, [Some JNull] when there is no data. *)
Definition decrypt (bugout : Yumi) (unpacked : json) : option json :=
  match unpacked with
  | JObj encryptedPkt =>
      if has "e" encryptedPkt && has "n" encryptedPkt && has "ek" encryptedPkt then
        match get "ek" encryptedPkt, get "n" encryptedPkt, get "e" encryptedPkt with
        | Some (JStr ek), Some (JStr n), Some (JStr e) =>
            match bs58_decode ek with
            | Some ekBytes =>
                let nonceBytes := fromHex n in
                let encryptedBytes := fromHex e in
                match nacl_box_open encryptedBytes nonceBytes ekBytes
                                    (keyPairEncrypt_secretKey bugout) with
                | Some decrypted => JSON_parse (toString decrypted)
                | None => Some JNull
                end
            | None => None
            end
        | _, _, _ => None
        end
      else Some unpacked
  | JArr _ => Some unpacked
  | _ => if truthy unpacked then None (* 'e' in a primitive *) else Some unpacked
  end.

Definition onMessage (bugout : Yumi) (identifier : string) (env : Env)
    (message : list byte) : Yumi * list Event :=
  (* hash to reference incoming message *)
  let hash := packet_hash message in
  let t := now env in
  if truthy_num (seen bugout !! hash) then (bugout, [])   (* already seen *)
  else
    let bugout := set_seen (insert hash t) bugout in
    (* try *)
    match JSON_parse (toString message) with
    | Some unpacked =>
        match decrypt bugout unpacked with
        | Some (JObj signedPkt) =>
            if has "p" signedPkt
            then processSigned bugout identifier env signedPkt
            else (bugout, [])         (* skipping packet with no payload *)
        | _ => (bugout, [])
        end
    | None => (bugout, [])            (* catch *)
    end.

(** [_setupMessageListener]: the callback of [messages.map().on], with the
    [onMessage] it schedules. *)
Definition messageListener (bugout : Yumi) (env : Env) (data : option MessageData)
    : Yumi * list Event :=
  match data with
  | Some data =>
      if negb (String.eqb (md_m data) "") && negb (md_t data =? 0) then
        let message := fromBase64 (md_m data) in
        onMessage bugout (identifier bugout) env message
      else (bugout, [])
  | None => (bugout, [])
  end.

(** [_setupPresence]: the callback of [presence.map().on]. *)
Definition presenceListener (bugout : Yumi) (env : Env) (data : option PresenceData)
    : Yumi * list Event :=
  match data with
  | Some data =>
      if negb (String.eqb (pr_pk data) "") && negb (String.eqb (pr_ek data) "")
         && negb (pr_t data =? 0) then
        let addr := address bugout (Some (pr_pk data)) in
        (* Don't track ourselves *)
        if negb (String.eqb addr (address bugout None)) then
          let t := now env in
          let wasNew := match peers bugout !! addr with None => true | Some _ => false end in
          let bugout :=
            set_peers (insert addr {| peer_pk := pr_pk data;
                                      peer_ek := Some (JStr (pr_ek data));
                                      peer_last := t |}) bugout in
          if wasNew then
            let conn := _updateConnections bugout in
            (fst conn, [EvSeen addr] ++ snd conn)
          else (bugout, [])
        else (bugout, [])
      else (bugout, [])
  | None => (bugout, [])
  end.

Definition _announcePresence (bugout : Yumi) (env : Env) : Yumi :=
  let presenceData := {| pr_pk := pk bugout; pr_ek := ek bugout; pr_t := now env |} in
  set_presence (insert (address bugout None) presenceData) bugout.

Definition ping (bugout : Yumi) (env : Env) : Yumi :=
  let packet := makePacket bugout env [("y", Some (JStr "p"))] in
  sendRaw bugout env packet.

(** One run of the interval callback [heartbeat] installs. *)
Definition heartbeat (bugout : Yumi) (env : Env) : Yumi * list Event :=
  let bugout := _announcePresence bugout env in
  let bugout := ping bugout env in
  let t := now env in
  let expired :=
    List.filter (fun p => peer_last (snd p) + timeout bugout <? t)
                (map_to_list (peers bugout)) in
  let bugout := set_peers (fun m => foldr (fun p m => delete (fst p) m) m expired) bugout in
  let conn := _updateConnections bugout in
  (fst conn,
   flat_map (fun p => [EvTimeout (fst p); EvLeft (fst p)]) expired ++ snd conn).

Definition destroy (bugout : Yumi) (env : Env) : Yumi :=
  let packet := makePacket bugout env [("y", Some (JStr "x"))] in
  sendRaw bugout env packet.

(** [this.peers[address]] read as a condition and, where it holds, the
    [pk] read from it: a function of [Object.prototype] has none. *)
Definition peer_pk_of (bugout : Yumi) (address : string) : option (option string) :=
  match property_of (peers bugout) address with
  | Own peer => Some (Some (peer_pk peer))
  | Inherited => Some None
  | Missing => None
  end.

(** [send(address?, message?)]. *)
Definition send (bugout : Yumi) (env : Env) (address message : option json)
    : Yumi * outcome unit :=
  let overloaded := negb (truthy_opt message) in
  let message := if overloaded then address else message in
  let address := if overloaded then Some JNull else address in
  let packet :=
    makePacket bugout env
      [("y", Some (JStr "m")); ("v", option_map (fun m => JStr (JSON_stringify m)) message)] in
  if truthy_opt address then
    match peer_pk_of bugout (ToString_opt address) with
    | Some pk =>
        match encryptPacket bugout env pk packet with
        | Ok encryptedPacket => (sendRaw bugout env encryptedPacket, Ok tt)
        | Throw e => (bugout, Throw e)
        end
    | None => (bugout, Throw (NotSeenNoPublicKey (ToString_opt address)))
    end
  else (sendRaw bugout env packet, Ok tt).

Definition register (bugout : Yumi) (call : string) : Yumi :=
  set_api (fun a => {[call]} ∪ a) bugout.

(** The third argument of [rpc]: a value, or, in the three-argument form
    [rpc(call, args, callback)], the callback itself. *)
Inductive RpcArgs :=
  | ArgsValue (args : option json)
  | ArgsFunction (callback : Callback).

(** [rpc(address, call, args?, callback?)]. *)
Definition rpc (bugout : Yumi) (env : Env) (address : string) (call : option json)
    (args : RpcArgs) (callback : option Callback) : Yumi * outcome unit :=
  (* Handle overloaded signatures *)
  let overloaded :=
    match args with
    | ArgsFunction _ => truthy_str (serveraddress bugout)
    | ArgsValue _ => false
    end in
  let callback :=
    match args with
    | ArgsFunction f => if overloaded then Some f else callback
    | ArgsValue _ => callback
    end in
  let args' :=
    match args with
    | ArgsFunction _ => if overloaded then call else None  (* a function has no JSON form *)
    | ArgsValue v => v
    end in
  let call := if overloaded then Some (JStr address) else call in
  let address :=
    if overloaded then match serveraddress bugout with Some a => a | None => address end
    else address in
  match peer_pk_of bugout address with
  | Some pk =>
      let callnonce := callnonce8 env in
      let bugout := set_callbacks (insert (toHex callnonce) callback) bugout in
      makeEncryptSendPacket bugout env pk
        [("y", Some (JStr "r")); ("c", call);
         ("a", option_map (fun a => JStr (JSON_stringify a)) args');
         ("rn", Some (json_of_Uint8Array callnonce))]
  | None => (bugout, Throw (NotSeenNoPublicKey address))
  end.

(** The state the constructor leaves, for the keys it derived or drew. *)
Definition new (identifier : option string) (opts_timeout : option Z)
    (publicKey secretKey boxPublicKey boxSecretKey : list byte) : Yumi :=
  let this :=
    {| identifier := ""; timeout := if truthy_num opts_timeout
                                    then default 0 opts_timeout else PEERTIMEOUT;
       keyPair_publicKey := publicKey; keyPair_secretKey := secretKey;
       keyPairEncrypt_secretKey := boxSecretKey;
       pk := bs58_encode publicKey; ek := bs58_encode boxPublicKey;
       peers := ∅; seen := ∅; lastpeercount := 0; api := ∅; callbacks := ∅;
       serveraddress := None; messages := ∅; presence := ∅ |} in
  {| identifier := if truthy_str identifier then default "" identifier
                   else address this None;
     timeout := timeout this;
     keyPair_publicKey := publicKey; keyPair_secretKey := secretKey;
     keyPairEncrypt_secretKey := boxSecretKey;
     pk := pk this; ek := ek this;
     peers := ∅; seen := ∅; lastpeercount := 0; api := ∅; callbacks := ∅;
     serveraddress := None; messages := ∅; presence := ∅ |}.

(** Everything that can happen to a channel after its construction. *)
Inductive Op :=
  | OpMessage (data : option MessageData)        (* messages.map().on *)
  | OpPresence (data : option PresenceData)      (* presence.map().on *)
  | OpReady                                      (* the start-up timer *)
  | OpHeartbeat                                  (* the heartbeat interval *)
  | OpPing
  | OpSend (address message : option json)
  | OpRpc (address : string) (call : option json) (args : RpcArgs)
          (callback : option Callback)
  | OpRegister (call : string)
  | OpRpcReply (pk : string) (nonce : option json) (result : option json)
  | OpDestroy.

Definition step (bugout : Yumi) (env : Env) (op : Op) : Yumi * list Event :=
  match op with
  | OpMessage data => messageListener bugout env data
  | OpPresence data => presenceListener bugout env data
  | OpReady => (_announcePresence bugout env, [EvReady])
  | OpHeartbeat => heartbeat bugout env
  | OpPing => (ping bugout env, [])
  | OpSend address message => (fst (send bugout env address message), [])
  | OpRpc address call args callback => (fst (rpc bugout env address call args callback), [])
  | OpRegister call => (register bugout call, [])
  | OpRpcReply pk nonce result => (fst (rpcReply bugout env pk nonce result), [])
  | OpDestroy => (destroy bugout env, [])
  end.

(** A run: each operation with the clock and random draws it reads, the
    state it starts from and what it emitted. *)
Fixpoint run (bugout : Yumi) (trace : list (Env * Op))
    : Yumi * list (Yumi * Env * Op * list Event) :=
  match trace with
  | [] => (bugout, [])
  | (env, op) :: trace =>
      let r := step bugout env op in
      let rest := run (fst r) trace in
      (fst rest, (bugout, env, op, snd r) :: snd rest)
  end.

(** ** Notions the properties are stated with *)

(** The operation is the receipt of a complete record whose bytes have the
    hash [h]. *)
Definition receives (h : string) (op : Op) : bool :=
  match op with
  | OpMessage (Some data) =>
      negb (String.eqb (md_m data) "") && negb (md_t data =? 0)
      && String.eqb (packet_hash (fromBase64 (md_m data))) h
  | _ => false
  end.

(** The step of a run is a receipt for hash [h] that gets past the seen
    set: [onMessage] goes on to parse the packet. *)
Definition processed (h : string) (entry : Yumi * Env * Op * list Event) : bool :=
  receives h (snd (fst entry))
  && negb (truthy_num (seen (fst (fst (fst entry))) !! h)).

(** The seen set of [b'] holds what the one of [b] holds, or the clock of
    [env]. *)
Definition seen_ext (env : Env) (b b' : Yumi) : Prop :=
  forall k, seen b' !! k = seen b !! k \/ seen b' !! k = Some (now env).

(** The payload [onMessage] checks for a message: the object
    [JSON.parse(signedPkt.p)], after the decryption of a box envelope. *)
Definition payload_of (bugout : Yumi) (message : list byte)
    : option (list (string * json)) :=
  match JSON_parse (toString message) with
  | Some unpacked =>
      match decrypt bugout unpacked with
      | Some (JObj signedPkt) =>
          match get "p" signedPkt with
          | Some (JStr p) =>
              match JSON_parse p with
              | Some (JObj packet) => Some packet
              | _ => None
              end
          | _ => None
          end
      | _ => None
      end
  | None => None
  end.

(** Every entry of the peer table stands under the address of its
    signing key. *)
Definition peers_keyed (bugout : Yumi) : Prop :=
  forall a peer, peers bugout !! a = Some peer ->
                 address bugout (Some (peer_pk peer)) = a.

(** The events [rpc-response] of a list of events whose nonce, as a
    property key, is [k]. *)
Definition responses (k : string) (events : list Event) : list Event :=
  List.filter (fun e => match e with
                        | EvRpcResponse _ nonce _ => String.eqb (ToString_opt nonce) k
                        | _ => false
                        end) events.

(** The calls, in a list of events, of the callback pending under the
    property key [k]. *)
Definition invocations (k : string) (events : list Event) : list Event :=
  List.filter (fun e => match e with
                        | CallbackCall nonce _ _ => String.eqb (ToString_opt nonce) k
                        | _ => false
                        end) events.



(** The state [onMessage] leaves when it drops a packet after the seen
    set: only the seen set has grown, by the hash of the packet. *)
Definition dropped (bugout : Yumi) (env : Env) (message : list byte) : Yumi :=
  if truthy_num (seen bugout !! packet_hash message) then bugout
  else set_seen (insert (packet_hash message) (now env)) bugout.

(** The states a channel can be in: those a run leads to from the state
    the constructor leaves. *)
Definition reachable (bugout : Yumi) : Prop :=
  exists identifier opts_timeout publicKey secretKey boxPublicKey boxSecretKey trace,
    bugout = fst (run (new identifier opts_timeout publicKey secretKey
                           boxPublicKey boxSecretKey) trace).

(** From [b] to [b'] the signing key is kept, and every peer entry of [b']
    was there in [b] with the same signing key or stands under the address
    of its signing key. *)
Definition peers_step (b b' : Yumi) : Prop :=
  keyPair_publicKey b' = keyPair_publicKey b
  /\ forall a peer, peers b' !! a = Some peer ->
        (exists peer0, peers b !! a = Some peer0 /\ peer_pk peer0 = peer_pk peer)
        \/ address b (Some (peer_pk peer)) = a.

(** What a step does to the pending callbacks: nothing, and no callback is
    called; or one pending callback is called, and its entry deleted if it
    returns. *)
Definition cb_effect (env : Env) (b b' : Yumi) (evs : list Event) : Prop :=
  (callbacks b' = callbacks b /\ forall k, invocations k evs = [])
  \/ (exists nonce cb r,
        callbacks b !! ToString_opt nonce = Some (Some cb)
        /\ callbacks b' = (if callback_raises env then callbacks b
                           else delete (ToString_opt nonce) (callbacks b))
        /\ forall k, invocations k evs
                     = if String.eqb (ToString_opt nonce) k
                       then [CallbackCall nonce cb r] else []).

(** All the events of a run, in order. *)
Definition events_of (steps : list (Yumi * Env * Op * list Event)) : list Event :=
  flat_map snd steps.

(** The signed packet [onMessage] reads from a message: the parsed
    object, after the decryption of a box envelope. *)
Definition signed_of (bugout : Yumi) (message : list byte)
    : option (list (string * json)) :=
  match JSON_parse (toString message) with
  | Some unpacked =>
      match decrypt bugout unpacked with
      | Some (JObj signedPkt) => Some signedPkt
      | _ => None
      end
  | None => None
  end.

(** The payload and the signing key of a message that passes the three
    checks of [onMessage]: [checksig && checkid && checktime]. *)
Definition authentic (bugout : Yumi) (identifier : string) (env : Env)
    (message : list byte) : option (list (string * json) * string) :=
  match signed_of bugout message with
  | Some signedPkt =>
      match get "p" signedPkt, get "s" signedPkt with
      | Some (JStr p), Some (JStr s) =>
          match JSON_parse p with
          | Some (JObj packet) =>
              match get "pk" packet with
              | Some (JStr pk) =>
                  match checks bugout identifier env s p pk packet with
                  | Some (true, true, true) => Some (packet, pk)
                  | _ => None
                  end
              | _ => None
              end
          | _ => None
          end
      | _, _ => None
      end
  | None => None
  end.

(** The payload [makePacket] signs: [{t, i, pk, ek, n, ...params}]. *)
Definition payload (bugout : Yumi) (env : Env) (params : list (string * option json))
    : list (string * json) :=
  [("t", JNum (now env)); ("i", JStr (identifier bugout));
   ("pk", JStr (pk bugout)); ("ek", JStr (ek bugout));
   ("n", JStr (toHex (nonce8 env)))]
  ++ omap (fun kv => match snd kv with
                     | Some v => Some (fst kv, v)
                     | None => None
                     end) params.

(** The libraries carry the packet [makePacket] builds from [params]
    faithfully to a reader: the text survives [toBuffer] and [toString],
    the two layers of JSON parse to what was serialised, the public key
    decodes, and the signature, through [toHex] and [fromHex], verifies
    under it. *)
Definition carried (bugout : Yumi) (env : Env) (params : list (string * option json))
    : Prop :=
  let p := payload bugout env params in
  let pe := JSON_stringify (JObj p) in
  let signature := nacl_sign_detached (toBuffer pe) (keyPair_secretKey bugout) in
  let signedPacket := [("s", JStr (toHex signature)); ("p", JStr pe)] in
  toString (toBuffer (JSON_stringify (JObj signedPacket))) = JSON_stringify (JObj signedPacket)
  /\ JSON_parse (JSON_stringify (JObj signedPacket)) = Some (JObj signedPacket)
  /\ JSON_parse pe = Some (JObj p)
  /\ bs58_decode (pk bugout) = Some (keyPair_publicKey bugout)
  /\ nacl_sign_detached_verify (toBuffer pe) (fromHex (toHex signature))
                               (keyPair_publicKey bugout) = Some true.

(** The counts the events [connections] of a list of events carry, in
    order. *)
Definition connection_counts (events : list Event) : list Z :=
  omap (fun e => match e with EvConnections n => Some n | _ => None end) events.

(** The events [message] of a list of events. *)
Definition messages_of (events : list Event) : list Event :=
  List.filter (fun e => match e with EvMessage _ _ _ => true | _ => false end) events.

(** The libraries carry the box envelope [encryptPacket] builds around
    [packet] for the key [peerEk] faithfully to [receiver]: the key
    decodes, [nacl.box] succeeds, the envelope survives [toBuffer],
    [toString] and JSON, and [nacl.box.open] with the receiver's secret
    key gives the packet back. *)
Definition sealed (sender receiver : Yumi) (env : Env) (packet peerEk : string) : Prop :=
  exists ekBytes encrypted senderEk,
    bs58_decode peerEk = Some ekBytes
    /\ nacl_box (toBuffer packet) (nonce24 env) ekBytes
                (keyPairEncrypt_secretKey sender) = Some encrypted
    /\ let envelope := [("n", JStr (toHex (nonce24 env))); ("ek", JStr (ek sender));
                        ("e", JStr (toHex encrypted))] in
       toString (toBuffer (JSON_stringify (JObj envelope))) = JSON_stringify (JObj envelope)
       /\ JSON_parse (JSON_stringify (JObj envelope)) = Some (JObj envelope)
       /\ bs58_decode (ek sender) = Some senderEk
       /\ nacl_box_open (fromHex (toHex encrypted)) (fromHex (toHex (nonce24 env))) senderEk
                        (keyPairEncrypt_secretKey receiver) = Some (toBuffer packet).

(** From [b] to [b'] the signing key is kept, and the channel's own
    address stays out of the peer table if it was. *)
Definition self_free (b b' : Yumi) : Prop :=
  keyPair_publicKey b' = keyPair_publicKey b
  /\ (peers b !! address b None = None -> peers b' !! address b None = None).

(** Starting from [x], no element of the list repeats the one before
    it. *)
Fixpoint changing (x : Z) (l : list Z) : Prop :=
  match l with
  | [] => True
  | y :: l => x <> y /\ changing y l
  end.

(** What a step does to the count last announced: nothing, and no event
    [connections]; or one event with another count, which it records. *)
Definition conn_step (b b' : Yumi) (evs : list Event) : Prop :=
  (connection_counts evs = [] /\ lastpeercount b' = lastpeercount b)
  \/ (exists n, connection_counts evs = [n] /\ n <> lastpeercount b
                /\ lastpeercount b' = n).

(** Every key of the table of callbacks is the hexadecimal form of some
    bytes. *)
Definition hex_keyed (b : Yumi) : Prop :=
  forall k v, callbacks b !! k = Some v -> exists bytes, k = toHex bytes.

End WithPlatform.
End Yumi.

(* ===================================================================== *)
(** * Yari: the encrypted overlay ([yari.ts])                              *)
(* ===================================================================== *)

Module Yari.
Section WithPlatform.
Context {P : Platform}.

(** [YariPeerInfo] of [types.ts], as the ['peer'] handler stores it. *)
Record YariPeerInfo := { pub : json; epub : json }.

Record Yari := {
  yumi : Yumi.Yumi;
  peers : gmap string YariPeerInfo;
  sea : option SEAKeyPair
}.

Definition set_yumi (b : Yumi.Yumi) (y : Yari) : Yari :=
  {| yumi := b; peers := peers y; sea := sea y |}.
Definition set_peers (f : gmap string YariPeerInfo -> gmap string YariPeerInfo)
    (y : Yari) : Yari :=
  {| yumi := yumi y; peers := f (peers y); sea := sea y |}.

(** What the overlay does that can be observed from outside. *)
Inductive Action :=
  | ChannelSend (address message : option json) (r : outcome unit)
      (* this.yumi.send(encrypted[0], encrypted[1]) *)
  | WarnInvalidFormat (encrypted : json)
      (* console.warn('Invalid encrypted format:', encrypted) *)
  | LogEncryptionError (peer : string)
      (* console.error('Encryption error for peer', ...) *)
  | EmitNewPeer
  | Reply (result : json).

(** The listener the constructor installs on ['encoded']. *)
Definition on_encoded (y : Yari) (env : Env) (encrypted : json) : Yari * list Action :=
  match encrypted with
  | JArr items =>
      if Z.of_nat (length items) =? 2 then
        (* Direct message: [address, encrypted_data] *)
        let r := Yumi.send (yumi y) env (items !! 0%nat) (items !! 1%nat) in
        (set_yumi (fst r) y, [ChannelSend (items !! 0%nat) (items !! 1%nat) (snd r)])
      else (y, [WarnInvalidFormat encrypted])
  | _ => (y, [WarnInvalidFormat encrypted])
  end.

(** The handler the constructor registers under ['peer']. *)
Definition on_peer (y : Yari) (address : string) (sea : json) : Yari * list Action :=
  match sea with
  | JObj fields =>
      if truthy_opt (get "pub" fields) && truthy_opt (get "epub" fields) then
        (set_peers (insert address {| pub := default JNull (get "pub" fields);
                                      epub := default JNull (get "epub" fields) |}) y,
         [EmitNewPeer; Reply (JObj [("success", JBool true)])])
      else (y, [Reply (JObj [("success", JBool false); ("error", JStr "Invalid keys")])])
  | _ => (y, [Reply (JObj [("success", JBool false); ("error", JStr "Invalid keys")])])
  end.

(** [v.slice] is a function: strings and arrays. *)
Definition has_slice (v : json) : bool :=
  match v with JStr _ | JArr _ => true | _ => false end.

(** One iteration of the broadcast loop of [send]: encrypt for [peer] and
    emit ['encoded'] with [[peer, enc, msgId]]; an exception is logged. *)
Definition broadcast_one (y : Yari) (env : Env) (msg : option json)
    (peer : string * YariPeerInfo) : Yari * list Action :=
  match SEA_secret (Some (epub (snd peer))) (sea y) with
  | Some secret =>
      match SEA_encrypt msg secret with
      | Some enc =>
          let r := on_encoded y env (JArr [JStr (fst peer); enc; JStr (msgId env)]) in
          if existsb (fun a => match a with
                               | ChannelSend _ _ (Throw _) => true
                               | _ => false
                               end) (snd r)
          then (fst r, snd r ++ [LogEncryptionError (fst peer)])
          else r
      | None => (y, [LogEncryptionError (fst peer)])
      end
  | None => (y, [LogEncryptionError (fst peer)])
  end.

(** [send] once at least one peer is registered. *)
Definition send_ready (y : Yari) (env : Env) (address message : option json)
    : Yari * list Action * outcome unit :=
  if negb (truthy_opt message) then
    (* Broadcast message *)
    let msg := address in
    let r := foldl (fun acc peer =>
                      let r := broadcast_one (fst acc) env msg peer in
                      (fst r, snd acc ++ snd r))
                   (y, []) (map_to_list (peers y)) in
    (r, Ok tt)
  else
    (* Direct message *)
    match property_of (peers y) (Yumi.ToString_opt address) with
    | Missing => (y, [], Throw (PeerNotFound (Yumi.ToString_opt address)))
    | found =>
        if negb (match address with Some a => has_slice a | None => false end) then
          (y, [], Throw TypeError)            (* address.slice(0, 12) *)
        else
          (* this.peers[address].epub: an inherited function has none *)
          let epub := match found with Own peer => Some (epub peer) | _ => None end in
          match SEA_secret epub (sea y) with
          | Some secret =>
              match SEA_encrypt message secret with
              | Some enc =>
                  let r := on_encoded y env
                             (JArr [default JNull address; enc; JStr (msgId env)]) in
                  match List.find (fun a => match a with
                                            | ChannelSend _ _ (Throw _) => true
                                            | _ => false
                                            end) (snd r) with
                  | Some (ChannelSend _ _ (Throw e)) => (fst r, snd r, Throw e)
                  | _ => (fst r, snd r, Ok tt)
                  end
              | None => (y, [], Throw LibraryError)
              end
          | None => (y, [], Throw LibraryError)
          end
    end.

(** [send(address?, message?)]: with an empty peer table the call waits
    for the first ['newPeer'] ([None]); it goes on as [send_ready] does. *)
Definition send (y : Yari) (env : Env) (address message : option json)
    : option (Yari * list Action * outcome unit) :=
  if Z.of_nat (size (peers y)) =? 0 then None
  else Some (send_ready y env address message).

(** The calls of [yumi.send] among the actions. *)
Definition directed_sends (actions : list Action) : list Action :=
  List.filter (fun a => match a with ChannelSend _ _ _ => true | _ => false end) actions.

(** ** The listener of ['message'] *)

(** What the listener of ['message'] does. *)
Inductive Received :=
  | EmitDecrypted (address : string) (pubkeys : YariPeerInfo) (message : option json)
                  (messageId : json)
      (* emit('decrypted', address, pubkeys, message, messageId), on yumi and on events *)
  | DuplicateIgnored
  | DecryptionNull
  | Rejected.
      (* a TypeError inside the async listener: its promise is rejected *)

(** [processedMessages.has(v)]: a primitive is found by value, an object
    or an array by identity; one that [JSON.parse] has just built is in no
    set.  The set is kept as the list of its elements in insertion order. *)
Definition set_has (s : list json) (v : json) : bool :=
  match v with
  | JNull => existsb (fun x => match x with JNull => true | _ => false end) s
  | JBool b => existsb (fun x => match x with JBool b' => Bool.eqb b b' | _ => false end) s
  | JNum n => existsb (fun x => match x with JNum n' => n =? n' | _ => false end) s
  | JStr t => existsb (fun x => match x with JStr t' => String.eqb t t' | _ => false end) s
  | JArr _ | JObj _ => false
  end.

(** [decrypt(address, message)]; [SEA_decrypt] is [SEA.decrypt], [None]
    when it raises.  The result [None] is the [null] of the source. *)
Definition decrypt (SEA_decrypt : json -> string -> option (option json))
    (y : Yari) (address : string) (message : json)
    : option (string * YariPeerInfo * option json) :=
  match peers y !! address with
  | None => None                        (* Unknown peer for decryption *)
  | Some pubkeys =>
      match sea y with
      | None => None                    (* No SEA keypair available *)
      | Some _ =>
          match SEA_secret (Some (epub pubkeys)) (sea y) with
          | Some secret =>
              match SEA_decrypt message secret with
              | Some decrypted => Some (address, pubkeys, decrypted)
              | None => None
              end
          | None => None
          end
      end
  end.

(** The listener the constructor installs on the channel's ['message']:
    [async (address, message, msgId?) => ...], with the set of processed
    messages; [fresh] is the identifier it makes up when [msgId] is
    falsy. *)
Definition on_message (SEA_decrypt : json -> string -> option (option json))
    (y : Yari) (processedMessages : list json) (fresh : string)
    (address : string) (message msgId : option json) : list json * list Received :=
  let messageId := if truthy_opt msgId then default JNull msgId else JStr fresh in
  if set_has processedMessages messageId then
    (processedMessages, [if has_slice messageId then DuplicateIgnored else Rejected])
  else
    let processedMessages := processedMessages ++ [messageId] in
    if negb (has_slice messageId) then (processedMessages, [Rejected])
        (* messageId.slice(0, 12) *)
    else
      match message with
      | None => (processedMessages, [Rejected])      (* JSON.stringify(message).slice *)
      | Some message =>
          match decrypt SEA_decrypt y address message with
          | Some (address, pubkeys, decrypted) =>
              (processedMessages, [EmitDecrypted address pubkeys decrypted messageId])
          | None => (processedMessages, [DecryptionNull])
          end
      end.

End WithPlatform.
End Yari.

(* ===================================================================== *)
(** * Kunai: the file transfer engine ([src/src/kunai.ts])                 *)
(* ===================================================================== *)

Module Kunai.
Section WithPlatform.
Context {P : Platform}.

Definition CHUNK_SIZE : Z := 10000.
Definition CLEANUP_DELAY : Z := 5000.
Definition TRANSFER_TIMEOUT : Z := 1 * 10 * 1000.
Definition CACHE_RETENTION : Z := 5 * 60 * 1000.
(** The period of the interval [startCacheCleanup] installs. *)
Definition CACHE_CLEANUP_INTERVAL : Z := 60000.
Definition maxSweeps : Z := 5.

(** The record published under [files/<fileId>]. *)
Record Metadata := {
  md_name : string;
  md_type : string;
  md_size : Z;
  md_totalChunks : Z;
  md_timestamp : Z;
  md_sender : string
}.

(** An entry [sendFile] adds to the set [chunks/<fileId>]. *)
Record ChunkData := {
  ch_index : Z;
  ch_data : string;
  ch_timestamp : Z;
  ch_fileId : string
}.

(** A value of [chunkCache]. *)
Record CacheEntry := {
  ce_chunks : gmap Z string;
  ce_metadata : Metadata;
  ce_timestamp : Z
}.

Record Kunai := {
  yumi : Yumi.Yumi;
  chunkSize : Z;
  chunkCache : gmap string CacheEntry;
  files : gmap string Metadata;            (* gun: files *)
  chunks : gmap string (list ChunkData)    (* gun: chunks/<fileId> *)
}.

Definition set_yumi (b : Yumi.Yumi) (k : Kunai) : Kunai :=
  {| yumi := b; chunkSize := chunkSize k; chunkCache := chunkCache k;
     files := files k; chunks := chunks k |}.
Definition set_chunkCache
    (f : gmap string CacheEntry -> gmap string CacheEntry) (k : Kunai) : Kunai :=
  {| yumi := yumi k; chunkSize := chunkSize k; chunkCache := f (chunkCache k);
     files := files k; chunks := chunks k |}.
Definition set_files (f : gmap string Metadata -> gmap string Metadata) (k : Kunai) : Kunai :=
  {| yumi := yumi k; chunkSize := chunkSize k; chunkCache := chunkCache k;
     files := f (files k); chunks := chunks k |}.
Definition set_chunks
    (f : gmap string (list ChunkData) -> gmap string (list ChunkData)) (k : Kunai) : Kunai :=
  {| yumi := yumi k; chunkSize := chunkSize k; chunkCache := chunkCache k;
     files := files k; chunks := f (chunks k) |}.

(** What the engine emits and the calls it makes on the channel. *)
Inductive Action :=
  | EmitFileReceived (filename : string) (size : Z) (data : list byte) (fileId : string)
  | EmitTransferComplete (fileId : string)
  | PerformSweep                    (* performSweep(): a once() scan and a 2 s timer *)
  | PerformTimeoutSweep             (* performTimeoutSweep() *)
  | Rpc (address call : string) (args : json)   (* this.yumi.rpc(...) *)
  | LogDecodeError                  (* the catch of reassembleFile *)
  | LogCannotReassemble (missingChunks : list Z)
  | RejectRequest (stillMissing : list Z).

(** The constructor: [chunkSize = opts?.chunkSize || CHUNK_SIZE], the two
    retransmission handlers registered on the channel. *)
Definition new (b : Yumi.Yumi) (opts_chunkSize : option Z) : Kunai :=
  {| yumi := Yumi.register (Yumi.register b "request-chunks") "transfer-confirmed";
     chunkSize := if truthy_num opts_chunkSize then default 0 opts_chunkSize else CHUNK_SIZE;
     chunkCache := ∅; files := ∅; chunks := ∅ |}.

Definition address (k : Kunai) : string := Yumi.address (yumi k) None.

Definition arrayBufferToBase64 (buffer : list byte) : string := toBase64 buffer.

(** ** Send path *)

(** The file argument of [sendFile]. *)
Record File := { file_name : string; file_size : Z; file_type : option string }.

(** The clock during an upload: [Date.now()] when chunk [i] is written and
    when the cache entry is stored. *)
Record UploadClock := { at_chunk : Z -> Z; at_end : Z }.

(** One iteration of the upload loop ([batchSize] is 1, so the two nested
    loops of the source run the body once per index). *)
Definition upload_chunk (this : Kunai) (fileId base64Data : string) (clock : UploadClock)
    (acc : gmap Z string * list ChunkData) (i : Z) : gmap Z string * list ChunkData :=
  let chunk := slice base64Data (i * chunkSize this) ((i + 1) * chunkSize this) in
  (* Store in cache for retransmission *)
  let chunksMap := <[i := chunk]> (fst acc) in
  let chunkData := {| ch_index := i; ch_data := chunk;
                      ch_timestamp := at_chunk clock i; ch_fileId := fileId |} in
  (chunksMap, snd acc ++ [chunkData]).

Definition totalChunks_of (this : Kunai) (base64Data : string) : Z :=
  ceil_div (Z.of_nat (String.length base64Data)) (chunkSize this).

Definition upload (this : Kunai) (fileId base64Data : string) (clock : UploadClock)
    : gmap Z string * list ChunkData :=
  foldl (upload_chunk this fileId base64Data clock) (∅, [])
        (seqZ 0 (totalChunks_of this base64Data)).

Definition sendFile (this : Kunai) (env : Env) (clock : UploadClock) (file : File)
    (data : option (list byte)) : Kunai * list Action * outcome string :=
  match data with
  | None => (this, [], Throw FileDataRequired)
  | Some data =>
      let fileId := transferCode env in
      let base64Data := arrayBufferToBase64 data in
      let totalChunks := totalChunks_of this base64Data in
      (* 1. Save metadata first *)
      let metadata :=
        {| md_name := file_name file;
           md_type := if truthy_str (file_type file) then default "" (file_type file)
                      else "application/octet-stream";
           md_size := file_size file;
           md_totalChunks := totalChunks;
           md_timestamp := now env;
           md_sender := address this |} in
      let this := set_files (insert fileId metadata) this in
      (* 2./3. Cache and save all the chunks *)
      let up := upload this fileId base64Data clock in
      let this :=
        set_chunks (fun c => <[fileId := default [] (c !! fileId) ++ snd up]> c) this in
      (* 4. Store in cache for retransmission requests *)
      let this :=
        set_chunkCache (insert fileId {| ce_chunks := fst up; ce_metadata := metadata;
                                         ce_timestamp := at_end clock |}) this in
      (this, [EmitTransferComplete fileId], Ok fileId)
  end.

(** ** Retransmission handlers and the cache sweeper *)

Definition chunk_reply (cached : CacheEntry) (index : json) : option json :=
  match index with
  | JNum i =>
      match ce_chunks cached !! i with
      | Some chunkData =>
          if negb (String.eqb chunkData "")
          then Some (JObj [("index", index); ("data", JStr chunkData)])
          else None
      | None => None
      end
  | _ => None            (* Map.get of a key that is not a number *)
  end.

(** The handler registered under ['request-chunks']: the value passed to
    [callback], or [None] when the handler raises before it replies. *)
Definition request_chunks (this : Kunai) (address : string) (args : json) : option json :=
  match args with
  | JObj fields =>
      let fileId := get "fileId" fields in
      match get "missingChunks" fields with
      | None | Some JNull => None       (* missingChunks.length raises *)
      | Some missingChunks =>
          let cached := match fileId with
                        | Some (JStr f) => chunkCache this !! f
                        | _ => None     (* the keys of the cache are strings *)
                        end in
          match cached with
          | None => Some (JObj [("success", JBool false); ("error", JStr "File not in cache")])
          | Some cached =>
              (* Collect requested chunks *)
              match missingChunks with
              | JArr requested =>
                  let chunks := omap (chunk_reply cached) requested in
                  Some (JObj ([("success", JBool true)]
                              ++ match fileId with Some f => [("fileId", f)] | None => [] end
                              ++ [("chunks", JArr chunks)]))
              | JStr _ =>
                  (* the characters of a string are no keys of the chunk map *)
                  Some (JObj ([("success", JBool true)]
                              ++ match fileId with Some f => [("fileId", f)] | None => [] end
                              ++ [("chunks", JArr [])]))
              | _ => None               (* not iterable *)
              end
          end
      end
  | _ => None            (* destructuring null, or missingChunks is undefined *)
  end.

(** The handler registered under ['transfer-confirmed']. *)
Definition transfer_confirmed (this : Kunai) (address : string) (args : json)
    : Kunai * option json :=
  match args with
  | JNull => (this, None)
  | JObj fields =>
      let this := match get "fileId" fields with
                  | Some (JStr fileId) => set_chunkCache (delete fileId) this
                  | _ => this
                  end in
      (this, Some (JObj [("success", JBool true)]))
  | _ => (this, Some (JObj [("success", JBool true)]))
  end.

(** One run of the interval callback of [startCacheCleanup]. *)
Definition cacheCleanup (this : Kunai) (env : Env) : Kunai :=
  let now := now env in
  let toDelete :=
    map fst (List.filter (fun e => now - ce_timestamp (snd e) >? CACHE_RETENTION)
                         (map_to_list (chunkCache this))) in
  set_chunkCache (fun c => foldl (fun c fileId => delete fileId c) c toDelete) this.

Definition destroy (this : Kunai) (env : Env) : Kunai :=
  let this := set_chunkCache (fun _ => ∅) this in
  set_yumi (Yumi.destroy (yumi this) env) this.

(** ** Receive path *)

(** A chunk as a Gun listener hands it over; [chunk.index] and
    [chunk.data] may be missing. *)
Record GunChunk := { gc_index : option json; gc_data : option json }.

(** The variables the listener of [files] creates for one detected file.
    [receivedChunks] is a plain object: its keys are the strings of the
    indices. *)
Record Receiver := {
  metadata : Metadata;
  fileId : string;
  receivedChunks : gmap string json;
  collectedChunks : Z;
  isProcessing : bool;
  timeoutId : bool;                 (* the transfer timeout is armed *)
  chunkListener : bool;             (* the chunk listener is attached *)
  processedChunkIds : gset string;
  sweepAttempts : Z;                (* of the final sweep *)
  timeoutSweepAttempts : Z          (* of the timeout sweep *)
}.

(** The state the listener of [files] sets up for a file of another peer. *)
Definition detect (metadata : Metadata) (fileId : string) : Receiver :=
  {| metadata := metadata; fileId := fileId; receivedChunks := ∅;
     collectedChunks := 0; isProcessing := false; timeoutId := true;
     chunkListener := true; processedChunkIds := ∅;
     sweepAttempts := 0; timeoutSweepAttempts := 0 |}.

Definition update (r : Receiver)
    (received : gmap string json) (collected : Z) (processing : bool) : Receiver :=
  {| metadata := metadata r; fileId := fileId r; receivedChunks := received;
     collectedChunks := collected; isProcessing := processing;
     timeoutId := timeoutId r; chunkListener := chunkListener r;
     processedChunkIds := processedChunkIds r;
     sweepAttempts := sweepAttempts r; timeoutSweepAttempts := timeoutSweepAttempts r |}.

(** [receivedChunks[i]] read as a condition. *)
Definition has_chunk (received : gmap string json) (key : string) : bool :=
  truthy_opt (received !! key).

(** [if (!receivedChunks[chunk.index]) { receivedChunks[chunk.index] = chunk.data;
    collectedChunks++ }]; under the name of an inherited property the
    condition finds that property, and the chunk is not stored. *)
Definition store (r : Receiver) (index data : json) : Receiver :=
  let held := match property_of (receivedChunks r) (ToString index) with
              | Own chunk => truthy chunk
              | Inherited => true
              | Missing => false
              end in
  if negb held then
    update r (<[ToString index := data]> (receivedChunks r)) (collectedChunks r + 1)
           (isProcessing r)
  else r.

(** [chunk && typeof chunk.index !== 'undefined' && chunk.data] *)
Definition usable (chunk : option GunChunk) : option (json * json) :=
  match chunk with
  | Some {| gc_index := Some index; gc_data := Some data |} =>
      if truthy data then Some (index, data) else None
  | _ => None
  end.

(** The callback of the chunk subscription. *)
Definition onChunk (r : Receiver) (chunk : option GunChunk) (chunkId : string)
    : Receiver * list Action :=
  if negb (chunkListener r) then (r, [])
  else
    match usable chunk with
    | None => (r, [])
    | Some (index, data) =>
        if isProcessing r then (r, [])
        else if decide (chunkId ∈ processedChunkIds r) then (r, [])
        else
          let r := {| metadata := metadata r; fileId := fileId r;
                      receivedChunks := receivedChunks r;
                      collectedChunks := collectedChunks r;
                      isProcessing := isProcessing r; timeoutId := timeoutId r;
                      chunkListener := chunkListener r;
                      processedChunkIds := {[chunkId]} ∪ processedChunkIds r;
                      sweepAttempts := sweepAttempts r;
                      timeoutSweepAttempts := timeoutSweepAttempts r |} in
          let r := store r index data in
          (* If all chunks received, reassemble file *)
          if collectedChunks r >=? md_totalChunks (metadata r) then
            (* isProcessing = true; clearTimeout; chunkListener.off(); performSweep() *)
            ({| metadata := metadata r; fileId := fileId r;
                receivedChunks := receivedChunks r;
                collectedChunks := collectedChunks r;
                isProcessing := true; timeoutId := false; chunkListener := false;
                processedChunkIds := processedChunkIds r;
                sweepAttempts := 0 + 1;
                timeoutSweepAttempts := timeoutSweepAttempts r |},
             [PerformSweep])
          else (r, [])
    end.

(** The callback of the [once()] scan of a sweep. *)
Definition onSweepChunk (r : Receiver) (chunk : option GunChunk) : Receiver :=
  match usable chunk with
  | Some (index, data) => store r index data
  | None => r
  end.

(** The final loop over [0 .. totalChunks - 1]: the concatenation of the
    chunks found and the indices not found. *)
Definition assemble_step (received : gmap string json) (acc : string * list Z) (i : Z)
    : string * list Z :=
  match received !! pretty i with
  | Some c => if truthy c then (fst acc +:+ ToString c, snd acc)
              else (fst acc, snd acc ++ [i])
  | None => (fst acc, snd acc ++ [i])
  end.

Definition assemble (received : gmap string json) (totalChunks : Z) : string * list Z :=
  foldl (assemble_step received) ("", []) (seqZ 0 totalChunks).

(** The chunk stored under index [i], as the final loop appends it. *)
Definition stored (received : gmap string json) (i : Z) : string :=
  ToString (default JNull (received !! pretty i)).

(** [allChunksPresent] after the loop: no index was pushed to
    [missingChunks]. *)
Definition allChunksPresent (a : string * list Z) : bool :=
  match snd a with [] => true | _ => false end.

Definition reassembleFile (base64String : string) (metadata : Metadata) (fileId : string)
    : list Action :=
  match base64_decode base64String with
  | Some bytes => [EmitFileReceived (md_name metadata) (md_size metadata) bytes fileId]
  | None => [LogDecodeError]
  end.

Definition set_sweeps (r : Receiver) (final timeout : Z) : Receiver :=
  {| metadata := metadata r; fileId := fileId r; receivedChunks := receivedChunks r;
     collectedChunks := collectedChunks r; isProcessing := isProcessing r;
     timeoutId := timeoutId r; chunkListener := chunkListener r;
     processedChunkIds := processedChunkIds r;
     sweepAttempts := final; timeoutSweepAttempts := timeout |}.

(** The 2 s timer of [performSweep]. *)
Definition onSweepTimer (r : Receiver) : Receiver * list Action :=
  let missingAfter := md_totalChunks (metadata r) - collectedChunks r in
  if (missingAfter >? 0) && (sweepAttempts r <? maxSweeps) then
    (set_sweeps r (sweepAttempts r + 1) (timeoutSweepAttempts r), [PerformSweep])
  else
    (* Final reassembly attempt *)
    let a := assemble (receivedChunks r) (md_totalChunks (metadata r)) in
    if allChunksPresent a then (r, reassembleFile (fst a) (metadata r) (fileId r))
    else (update r (receivedChunks r) (collectedChunks r) false,
          [LogCannotReassemble (snd a)]).

(** The transfer timeout. *)
Definition onTimeout (r : Receiver) : Receiver * list Action :=
  if negb (timeoutId r) then (r, [])
  else if negb (isProcessing r) && (collectedChunks r >? 0) then
    ({| metadata := metadata r; fileId := fileId r; receivedChunks := receivedChunks r;
        collectedChunks := collectedChunks r; isProcessing := true;
        timeoutId := false; chunkListener := false;
        processedChunkIds := processedChunkIds r;
        sweepAttempts := sweepAttempts r; timeoutSweepAttempts := 0 + 1 |},
     [PerformTimeoutSweep])
  else (r, []).

Definition requestMissingChunks (senderAddress fileId : string) (missingChunks : list Z)
    : list Action :=
  [Rpc senderAddress "request-chunks"
       (JObj [("fileId", JStr fileId); ("missingChunks", JArr (map JNum missingChunks))])].

(** The 2 s timer of [performTimeoutSweep]; [this] is read for the peer
    table of the channel. *)
Definition onTimeoutSweepTimer (this : Kunai) (r : Receiver) : Receiver * list Action :=
  let missingAfter := md_totalChunks (metadata r) - collectedChunks r in
  if (missingAfter >? 0) && (timeoutSweepAttempts r <? maxSweeps) then
    (set_sweeps r (sweepAttempts r) (timeoutSweepAttempts r + 1), [PerformTimeoutSweep])
  else
    let a := assemble (receivedChunks r) (md_totalChunks (metadata r)) in
    let sender := md_sender (metadata r) in
    if allChunksPresent a then
      (r, reassembleFile (fst a) (metadata r) (fileId r)
          (* Notify sender of successful transfer *)
          ++ (if negb (String.eqb sender "")
              then [Rpc sender "transfer-confirmed" (JObj [("fileId", JStr (fileId r))])]
              else []))
    else
      (* Try to request missing chunks from sender via RPC *)
      if negb (String.eqb sender "") then
        match property_of (Yumi.peers (yumi this)) sender with
        | Own _ => (r, requestMissingChunks sender (fileId r) (snd a))
        | Inherited =>
            (* [rpc] finds the inherited property and no key: it raises, unless
               the channel lists itself, and the [catch] ends the attempt *)
            match Yumi.peers (yumi this) !! Yumi.address (yumi this) None with
            | Some _ => (r, requestMissingChunks sender (fileId r) (snd a))
            | None => (update r (receivedChunks r) (collectedChunks r) false,
                       requestMissingChunks sender (fileId r) (snd a))
            end
        | Missing => (update r (receivedChunks r) (collectedChunks r) false,
                      [LogCannotReassemble (snd a)])
        end
      else (update r (receivedChunks r) (collectedChunks r) false,
            [LogCannotReassemble (snd a)]).

(** [receivedChunks[chunk.index] = chunk.data] for the chunks of a
    response, in order; [None] when an element cannot be read. *)
Fixpoint add_missing (received : gmap string json) (chunks : list json)
    : option (gmap string json) :=
  match chunks with
  | [] => Some received
  | JNull :: _ => None
  | JObj chunk :: chunks =>
      let key := Yumi.ToString_opt (get "index" chunk) in
      add_missing (match get "data" chunk with
                   | Some data => <[key := data]> received
                   | None => delete key received
                   end) chunks
  | _ :: chunks => add_missing (delete "undefined" received) chunks
  end.

(** The callback [requestMissingChunks] passes to [rpc], with the [catch]
    of its caller. *)
Definition onChunksResponse (r : Receiver) (senderAddress : string) (response : json)
    : Receiver * list Action :=
  match response with
  | JNull => (r, [])                       (* response.success raises *)
  | JObj fields =>
      if negb (truthy_opt (get "success" fields)) then
        (update r (receivedChunks r) (collectedChunks r) false, [RejectRequest []])
      else
        let added :=
          match get "chunks" fields with
          | Some (JArr chunks) => add_missing (receivedChunks r) chunks
          | Some (JStr _) => Some (receivedChunks r)
          | _ => None
          end in
        match added with
        | None => (r, [])                  (* raised inside the callback *)
        | Some received =>
            let a := assemble received (md_totalChunks (metadata r)) in
            if allChunksPresent a then
              (update r received (collectedChunks r) (isProcessing r),
               reassembleFile (fst a) (metadata r) (fileId r)
               ++ [Rpc senderAddress "transfer-confirmed"
                       (JObj [("fileId", JStr (fileId r))])])
            else
              (update r received (collectedChunks r) false, [RejectRequest (snd a)])
        end
  | _ => (update r (receivedChunks r) (collectedChunks r) false, [RejectRequest []])
  end.

(** What can happen to the receiver of one file. *)
Inductive ReceiverOp :=
  | Chunk (chunk : option GunChunk) (chunkId : string)
  | SweepChunk (chunk : option GunChunk)
  | SweepTimer
  | Timeout
  | TimeoutSweepTimer (this : Kunai)
  | ChunksResponse (senderAddress : string) (response : json).

Definition receiver_step (r : Receiver) (op : ReceiverOp) : Receiver * list Action :=
  match op with
  | Chunk chunk chunkId => onChunk r chunk chunkId
  | SweepChunk chunk => (onSweepChunk r chunk, [])
  | SweepTimer => onSweepTimer r
  | Timeout => onTimeout r
  | TimeoutSweepTimer this => onTimeoutSweepTimer this r
  | ChunksResponse senderAddress response => onChunksResponse r senderAddress response
  end.

(** A run of a receiver: the final state and, for every step, the state
    it left and what it did. *)
Fixpoint receiver_run (r : Receiver) (ops : list ReceiverOp)
    : Receiver * list (Receiver * list Action) :=
  match ops with
  | [] => (r, [])
  | op :: ops =>
      let s := receiver_step r op in
      let rest := receiver_run (fst s) ops in
      (fst rest, s :: snd rest)
  end.

(** ** The sender as a state machine *)

Inductive Op :=
  | OpSendFile (clock : UploadClock) (file : File) (data : option (list byte))
  | OpCacheCleanup
  | OpRequestChunks (address : string) (args : json)
  | OpTransferConfirmed (address : string) (args : json).

Definition step (this : Kunai) (env : Env) (op : Op) : Kunai :=
  match op with
  | OpSendFile clock file data => fst (fst (sendFile this env clock file data))
  | OpCacheCleanup => cacheCleanup this env
  | OpRequestChunks address args => this
  | OpTransferConfirmed address args => fst (transfer_confirmed this address args)
  end.

Definition run (this : Kunai) (trace : list (Env * Op)) : Kunai :=
  foldl (fun this eo => step this (fst eo) (snd eo)) this trace.

(** ** Notions the properties are stated with *)

(** The states a sender can be in. *)
Definition reachable (this : Kunai) : Prop :=
  exists b opts_chunkSize trace, this = run (new b opts_chunkSize) trace.

(** No chunk in the cache is the empty string. *)
Definition cache_ok (this : Kunai) : Prop :=
  forall f e i c, chunkCache this !! f = Some e -> ce_chunks e !! i = Some c -> c <> "".

(** The arguments of a ['transfer-confirmed'] request name [fileId]. *)
Definition confirms (fileId : string) (args : json) : bool :=
  match args with
  | JObj fields =>
      match get "fileId" fields with
      | Some (JStr f) => String.eqb f fileId
      | _ => false
      end
  | _ => false
  end.

(** The operation happens within the retention time of a cache entry made
    at [created], and it is no confirmation of [fileId]: a sweep runs no
    later than [created + CACHE_RETENTION], and a [sendFile] that draws the
    same transfer code completes no earlier than [created]. *)
Definition within_retention (fileId : string) (created : Z) (eo : Env * Op) : bool :=
  match snd eo with
  | OpCacheCleanup => now (fst eo) - created <=? CACHE_RETENTION
  | OpTransferConfirmed _ args => negb (confirms fileId args)
  | OpSendFile clock _ data =>
      match data with
      | Some _ => negb (String.eqb (transferCode (fst eo)) fileId) || (created <=? at_end clock)
      | None => true
      end
  | OpRequestChunks _ _ => true
  end.

(** The operation is a [sendFile] that draws the transfer code [fileId]. *)
Definition redraws (fileId : string) (eo : Env * Op) : bool :=
  match snd eo with
  | OpSendFile _ _ (Some _) => String.eqb (transferCode (fst eo)) fileId
  | _ => false
  end.

(** ** The listener of [files] *)

(** [processedFiles] of [setupGunDBFileListeners], and the receivers its
    listener has set up, by [fileId]. *)
Record Listener := {
  processedFiles : gset string;
  receivers : gmap string Receiver
}.

Definition listening : Listener := {| processedFiles := ∅; receivers := ∅ |}.

(** The callback of [files.map().on]. *)
Definition onFile (this : Kunai) (l : Listener) (metadata : option Metadata)
    (fileId : string) : Listener :=
  match metadata with
  | None => l
  | Some metadata =>
      if String.eqb (md_sender metadata) (address this) then l   (* Skip own files *)
      else if decide (fileId ∈ processedFiles l) then l    (* Skip already processed files *)
      else {| processedFiles := {[fileId]} ∪ processedFiles l;
              receivers := <[fileId := detect metadata fileId]> (receivers l) |}
  end.

(** The listener after a series of announcements. *)
Definition onFiles (this : Kunai) (l : Listener)
    (announced : list (option Metadata * string)) : Listener :=
  foldl (fun l a => onFile this l (fst a) (snd a)) l announced.

(** The announcement is one of [fileId] by another peer. *)
Definition foreign (this : Kunai) (fileId : string) (a : option Metadata * string) : bool :=
  match fst a with
  | Some metadata =>
      negb (String.eqb (md_sender metadata) (address this)) && String.eqb (snd a) fileId
  | None => false
  end.

(** The processed files are those a receiver was set up for. *)
Definition tracked (l : Listener) : Prop :=
  forall f, f ∈ processedFiles l <-> is_Some (receivers l !! f).

(** ** Chunks, timers and responses as they reach a receiver *)

(** A chunk [sendFile] wrote, as the listener of [chunks/<fileId>]
    receives it. *)
Definition as_received (c : ChunkData) : option GunChunk :=
  Some {| gc_index := Some (JNum (ch_index c)); gc_data := Some (JStr (ch_data c)) |}.

(** The arrival of a written chunk under the key [snd x] of the set. *)
Definition deliver (x : ChunkData * string) : ReceiverOp :=
  Chunk (as_received (fst x)) (snd x).

(** What a receiver still waits for: the transfer timeout, the 2 s timers
    of the sweeps, and the response to a request for missing chunks.
    [setTimeout] runs its callback once, and a pending callback of [rpc] is
    called at most once. *)
Record Pending := {
  transferTimeout : bool;
  sweepTimers : nat;
  timeoutSweepTimers : nat;
  chunkResponses : nat
}.

(** After the listener of [files] has set a receiver up. *)
Definition armed : Pending :=
  {| transferTimeout := true; sweepTimers := 0; timeoutSweepTimers := 0;
     chunkResponses := 0 |}.

(** [op] can happen under [p]: a timer that fires, or a response that
    arrives, was pending and is pending no more; chunks can arrive at any
    time. *)
Definition fires (p : Pending) (op : ReceiverOp) : option Pending :=
  match op with
  | Chunk _ _ | SweepChunk _ => Some p
  | Timeout =>
      if transferTimeout p
      then Some {| transferTimeout := false; sweepTimers := sweepTimers p;
                   timeoutSweepTimers := timeoutSweepTimers p;
                   chunkResponses := chunkResponses p |}
      else None
  | SweepTimer =>
      match sweepTimers p with
      | S n => Some {| transferTimeout := transferTimeout p; sweepTimers := n;
                       timeoutSweepTimers := timeoutSweepTimers p;
                       chunkResponses := chunkResponses p |}
      | O => None
      end
  | TimeoutSweepTimer _ =>
      match timeoutSweepTimers p with
      | S n => Some {| transferTimeout := transferTimeout p; sweepTimers := sweepTimers p;
                       timeoutSweepTimers := n;
                       chunkResponses := chunkResponses p |}
      | O => None
      end
  | ChunksResponse _ _ =>
      match chunkResponses p with
      | S n => Some {| transferTimeout := transferTimeout p; sweepTimers := sweepTimers p;
                       timeoutSweepTimers := timeoutSweepTimers p;
                       chunkResponses := n |}
      | O => None
      end
  end.

(** What an action of the receiver leaves pending. *)
Definition arms (p : Pending) (a : Action) : Pending :=
  match a with
  | PerformSweep =>
      {| transferTimeout := transferTimeout p; sweepTimers := S (sweepTimers p);
         timeoutSweepTimers := timeoutSweepTimers p; chunkResponses := chunkResponses p |}
  | PerformTimeoutSweep =>
      {| transferTimeout := transferTimeout p; sweepTimers := sweepTimers p;
         timeoutSweepTimers := S (timeoutSweepTimers p);
         chunkResponses := chunkResponses p |}
  | Rpc _ call _ =>
      if String.eqb call "request-chunks"
      then {| transferTimeout := transferTimeout p; sweepTimers := sweepTimers p;
              timeoutSweepTimers := timeoutSweepTimers p;
              chunkResponses := S (chunkResponses p) |}
      else p
  | _ => p
  end.

(** The operations are a possible history of the receiver [r] with [p]
    pending. *)
Fixpoint scheduled (r : Receiver) (p : Pending) (ops : list ReceiverOp) : bool :=
  match ops with
  | [] => true
  | op :: ops =>
      match fires p op with
      | Some p =>
          let s := receiver_step r op in
          scheduled (fst s) (foldl arms p (snd s)) ops
      | None => false
      end
  end.

(** The events [file-received] among the actions. *)
Definition file_events (actions : list Action) : list Action :=
  List.filter (fun a => match a with EmitFileReceived _ _ _ _ => true | _ => false end)
              actions.

(** All the actions of a run, in order. *)
Definition actions_of (steps : list (Receiver * list Action)) : list Action :=
  flat_map snd steps.

(** The number of timers and responses pending. *)
Definition waiting (p : Pending) : nat :=
  (sweepTimers p + timeoutSweepTimers p + chunkResponses p)%nat.

(** The life of a receiver that has emitted [e] files: it collects
    chunks; or it waits for one timer or response; or it has ended. *)
Definition phase (r : Receiver) (p : Pending) (e : nat) : Prop :=
  (waiting p = 0%nat /\ e = 0%nat /\ isProcessing r = false
   /\ chunkListener r = true /\ timeoutId r = true)
  \/ (waiting p = 1%nat /\ e = 0%nat
      /\ chunkListener r = false /\ timeoutId r = false)
  \/ (waiting p = 0%nat /\ (e <= 1)%nat
      /\ chunkListener r = false /\ timeoutId r = false).

End WithPlatform.
End Kunai.

(* ===================================================================== *)
(** * Codecs of [utils.ts] and [yumi.ts] where [isNode] is false           *)
(* ===================================================================== *)

(** A string is the sequence of its code units, all below 256. *)

Module Utils.
Section WithPlatform.
Context {P : Platform}.

(** ** [fromHex] outside Node *)

(** The value of a hexadecimal digit. *)
Definition hex_digit_value (c : ascii) : option Z :=
  let n := Z.of_N (N_of_ascii c) in
  if (48 <=? n) && (n <=? 57) then Some (n - 48)
  else if (97 <=? n) && (n <=? 102) then Some (n - 87)
  else if (65 <=? n) && (n <=? 70) then Some (n - 55)
  else None.

(** White space that [parseInt] skips, among the code units below 256:
    TAB, LF, VT, FF, CR, SP and NBSP. *)
Definition is_white_space (c : ascii) : bool :=
  let n := Z.of_N (N_of_ascii c) in
  ((9 <=? n) && (n <=? 13)) || (n =? 32) || (n =? 160).

(** [parseInt(s, 16)] for a string of at most two code units; [None] is
    [NaN]. *)
Definition parseInt16 (s : string) : option Z :=
  match s with
  | EmptyString => None
  | String a EmptyString => hex_digit_value a
  | String a (String b _) =>
      if is_white_space a then
        (if is_white_space b then None else hex_digit_value b)  (* a sign alone is NaN *)
      else if Ascii.eqb a "-" then option_map Z.opp (hex_digit_value b)
      else if Ascii.eqb a "+" then hex_digit_value b
      else if Ascii.eqb a "0" && (Ascii.eqb b "x" || Ascii.eqb b "X") then None
      else
        match hex_digit_value a, hex_digit_value b with
        | Some h, Some l => Some (16 * h + l)
        | Some h, None => Some h
        | None, _ => None
        end
  end.

(** The byte a [Uint8Array] keeps of an assigned number. *)
Definition to_uint8 (v : option Z) : byte :=
  match v with
  | Some z => default x00 (Byte.of_N (Z.to_N (z mod 256)))
  | None => x00
  end.

(** The loop of [fromHex]: one byte for every pair of code units; the
    array has [hex.length / 2] elements, a last single code unit is
    written past its end and lost. *)
Fixpoint fromHex_pairs (s : string) : list byte :=
  match s with
  | String a (String b rest) =>
      to_uint8 (parseInt16 (String a (String b EmptyString))) :: fromHex_pairs rest
  | _ => []
  end.

(** [fromHex] of [utils.ts] where [isNode] is false. *)
Definition fromHex_browser (hex : string) : list byte := fromHex_pairs hex.

(** ** [bs58check] outside Node *)

(** [hexToBytes(SEEDPREFIX)], with [SEEDPREFIX = "490a"]. *)
Definition SEEDPREFIX : list byte := [x49; x0a].

(** [bs58checkEncode] where [isNode] is false: the payload, followed by
    the first four bytes of its double hash, in a buffer of
    [payload.length + 4] bytes. *)
Definition bs58checkEncode_browser (data : list byte) : string :=
  let payload := data in
  let checksum := take 4 (nacl_hash (nacl_hash payload)) in
  bs58_encode (payload ++ take 4 (checksum ++ [x00; x00; x00; x00])).

Inductive Decoded :=
  | Payload (payload : list byte)
  | InvalidChecksum          (* new Error("Invalid checksum") *)
  | DecodeError.             (* raised inside bs58 *)

(** [bs58checkDecode] where [isNode] is false. *)
Definition bs58checkDecode_browser (s : string) : Decoded :=
  match bs58_decode s with
  | None => DecodeError
  | Some buffer =>
      let payload := take (length buffer - 4) buffer in
      let checksum := drop (length buffer - 4) buffer in
      let hash := take 4 (nacl_hash (nacl_hash payload)) in
      if forallb (fun i => match checksum !! i, hash !! i with
                           | Some c, Some h => Byte.eqb c h
                           | None, None => true
                           | _, _ => false
                           end) [0; 1; 2; 3]%nat
      then Payload payload else InvalidChecksum
  end.

(** [encodeseed] where [isNode] is false. *)
Definition encodeseed_browser (material : list byte) : string :=
  bs58checkEncode_browser (SEEDPREFIX ++ material).

(** The seed bytes the constructor hands to [nacl.sign.keyPair.fromSeed]:
    [bs58checkDecode(this.seed).slice(2)]. *)
Definition seedBytes_browser (seed : string) : Decoded :=
  match bs58checkDecode_browser seed with
  | Payload seedDecoded => Payload (drop 2 seedDecoded)
  | e => e
  end.

End WithPlatform.
End Utils.

(* ===================================================================== *)
(** * A platform to run the model on                                      *)
(* ===================================================================== *)

(** SHA-512 (FIPS 180-4), which is what [nacl.hash] computes. *)
Module SHA512.

Definition mask : Z := Z.ones 64.
Definition add (a b : Z) : Z := Z.land (a + b) mask.
Definition rotr (n x : Z) : Z :=
  Z.lor (Z.shiftr x n) (Z.land (Z.shiftl x (64 - n)) mask).

Definition K : list Z :=
  [
     0x428a2f98d728ae22; 0x7137449123ef65cd; 0xb5c0fbcfec4d3b2f; 0xe9b5dba58189dbbc;
     0x3956c25bf348b538; 0x59f111f1b605d019; 0x923f82a4af194f9b; 0xab1c5ed5da6d8118;
     0xd807aa98a3030242; 0x12835b0145706fbe; 0x243185be4ee4b28c; 0x550c7dc3d5ffb4e2;
     0x72be5d74f27b896f; 0x80deb1fe3b1696b1; 0x9bdc06a725c71235; 0xc19bf174cf692694;
     0xe49b69c19ef14ad2; 0xefbe4786384f25e3; 0x0fc19dc68b8cd5b5; 0x240ca1cc77ac9c65;
     0x2de92c6f592b0275; 0x4a7484aa6ea6e483; 0x5cb0a9dcbd41fbd4; 0x76f988da831153b5;
     0x983e5152ee66dfab; 0xa831c66d2db43210; 0xb00327c898fb213f; 0xbf597fc7beef0ee4;
     0xc6e00bf33da88fc2; 0xd5a79147930aa725; 0x06ca6351e003826f; 0x142929670a0e6e70;
     0x27b70a8546d22ffc; 0x2e1b21385c26c926; 0x4d2c6dfc5ac42aed; 0x53380d139d95b3df;
     0x650a73548baf63de; 0x766a0abb3c77b2a8; 0x81c2c92e47edaee6; 0x92722c851482353b;
     0xa2bfe8a14cf10364; 0xa81a664bbc423001; 0xc24b8b70d0f89791; 0xc76c51a30654be30;
     0xd192e819d6ef5218; 0xd69906245565a910; 0xf40e35855771202a; 0x106aa07032bbd1b8;
     0x19a4c116b8d2d0c8; 0x1e376c085141ab53; 0x2748774cdf8eeb99; 0x34b0bcb5e19b48a8;
     0x391c0cb3c5c95a63; 0x4ed8aa4ae3418acb; 0x5b9cca4f7763e373; 0x682e6ff3d6b2b8a3;
     0x748f82ee5defb2fc; 0x78a5636f43172f60; 0x84c87814a1f0ab72; 0x8cc702081a6439ec;
     0x90befffa23631e28; 0xa4506cebde82bde9; 0xbef9a3f7b2c67915; 0xc67178f2e372532b;
     0xca273eceea26619c; 0xd186b8c721c0c207; 0xeada7dd6cde0eb1e; 0xf57d4f7fee6ed178;
     0x06f067aa72176fba; 0x0a637dc5a2c898a6; 0x113f9804bef90dae; 0x1b710b35131c471b;
     0x28db77f523047d84; 0x32caab7b40c72493; 0x3c9ebe0a15c9bebc; 0x431d67c49c100d4c;
     0x4cc5d4becb3e42b6; 0x597f299cfc657e2a; 0x5fcb6fab3ad6faec; 0x6c44198c4a475817
  ].

Definition state : Type := Z * Z * Z * Z * Z * Z * Z * Z.

Definition H0 : state :=
  (0x6a09e667f3bcc908, 0xbb67ae8584caa73b, 0x3c6ef372fe94f82b, 0xa54ff53a5f1d36f1,
   0x510e527fade682d1, 0x9b05688c2b3e6c1f, 0x1f83d9abfb41bd6b, 0x5be0cd19137e2179).

Definition Z_of_byte (b : byte) : Z := Z.of_N (Byte.to_N b).
Definition byte_of_Z (z : Z) : byte :=
  match Byte.of_N (Z.to_N (Z.land z 255)) with Some b => b | None => x00 end.

(** Big-endian bytes of a word. *)
Definition be64 (x : Z) : list byte :=
  [byte_of_Z (Z.shiftr x 56); byte_of_Z (Z.shiftr x 48); byte_of_Z (Z.shiftr x 40);
   byte_of_Z (Z.shiftr x 32); byte_of_Z (Z.shiftr x 24); byte_of_Z (Z.shiftr x 16);
   byte_of_Z (Z.shiftr x 8); byte_of_Z x].

Definition word_of_bytes (bs : list byte) : Z :=
  foldl (fun acc b => acc * 256 + Z_of_byte b) 0 bs.

Definition pad (m : list byte) : list byte :=
  let l := Z.of_nat (length m) in
  m ++ [x80] ++ replicate (Z.to_nat ((128 - (l + 17) mod 128) mod 128)) x00
    ++ be64 0 ++ be64 (8 * l).

(** [bs] cut into pieces of [n] bytes; [fuel] bounds the number of pieces. *)
Fixpoint pieces (fuel n : nat) (bs : list byte) : list (list byte) :=
  match fuel with
  | O => []
  | S fuel =>
      match bs with
      | [] => []
      | _ => take n bs :: pieces fuel n (drop n bs)
      end
  end.

Definition schedule (w16 : list Z) : list Z :=
  foldl (fun w i =>
           let w15 := nth (i - 15) w 0 in
           let w2 := nth (i - 2) w 0 in
           let s0 := Z.lxor (Z.lxor (rotr 1 w15) (rotr 8 w15)) (Z.shiftr w15 7) in
           let s1 := Z.lxor (Z.lxor (rotr 19 w2) (rotr 61 w2)) (Z.shiftr w2 6) in
           w ++ [add (add (nth (i - 16) w 0) s0) (add (nth (i - 7) w 0) s1)])
        w16 (seq 16 64).

Definition round (s : state) (kw : Z) : state :=
  let '(a, b, c, d, e, f, g, h) := s in
  let S1 := Z.lxor (Z.lxor (rotr 14 e) (rotr 18 e)) (rotr 41 e) in
  let ch := Z.lxor (Z.land e f) (Z.land (Z.lxor e mask) g) in
  let t1 := add (add (add h S1) ch) kw in
  let S0 := Z.lxor (Z.lxor (rotr 28 a) (rotr 34 a)) (rotr 39 a) in
  let maj := Z.lxor (Z.lxor (Z.land a b) (Z.land a c)) (Z.land b c) in
  let t2 := add S0 maj in
  (add t1 t2, a, b, c, add d t1, e, f, g).

Definition compress (s : state) (block : list byte) : state :=
  let w := schedule (map word_of_bytes (pieces 16 8 block)) in
  let '(a, b, c, d, e, f, g, h) := foldl round s (zip_with add K w) in
  let '(a0, b0, c0, d0, e0, f0, g0, h0) := s in
  (add a0 a, add b0 b, add c0 c, add d0 d, add e0 e, add f0 f, add g0 g, add h0 h).

Definition digest (s : state) : list byte :=
  let '(a, b, c, d, e, f, g, h) := s in
  be64 a ++ be64 b ++ be64 c ++ be64 d ++ be64 e ++ be64 f ++ be64 g ++ be64 h.

Definition sha512 (m : list byte) : list byte :=
  let padded := pad m in
  digest (foldl compress H0 (pieces (length padded) 128 padded)).

End SHA512.

(** Base64 as [Buffer] encodes and decodes it. *)
Module Base64.

Definition alphabet : list ascii :=
  list_ascii_of_string
    "ABCDEFGHIJKLMNOPQRSTUVWXYZabcdefghijklmnopqrstuvwxyz0123456789+/".

Definition char (n : Z) : ascii := nth (Z.to_nat n) alphabet "="%char.

Fixpoint encode_list (bs : list byte) : list ascii :=
  match bs with
  | b0 :: b1 :: b2 :: bs =>
      let n := SHA512.Z_of_byte b0 * 65536 + SHA512.Z_of_byte b1 * 256
               + SHA512.Z_of_byte b2 in
      char (n / 262144) :: char (n / 4096 mod 64) :: char (n / 64 mod 64)
        :: char (n mod 64) :: encode_list bs
  | [b0; b1] =>
      let n := SHA512.Z_of_byte b0 * 65536 + SHA512.Z_of_byte b1 * 256 in
      [char (n / 262144); char (n / 4096 mod 64); char (n / 64 mod 64); "="%char]
  | [b0] =>
      let n := SHA512.Z_of_byte b0 * 65536 in
      [char (n / 262144); char (n / 4096 mod 64); "="%char; "="%char]
  | [] => []
  end.

Definition encode (bs : list byte) : string := string_of_list_ascii (encode_list bs).

Fixpoint index_of (c : ascii) (l : list ascii) (i : Z) : option Z :=
  match l with
  | [] => None
  | x :: l => if Ascii.eqb x c then Some i else index_of c l (i + 1)
  end.

(** The sextets of the characters up to the first ["="]; characters
    outside the alphabet are skipped. *)
Fixpoint sextets (s : list ascii) : list Z :=
  match s with
  | [] => []
  | c :: s =>
      if Ascii.eqb c "="%char then []
      else match index_of c alphabet 0 with
           | Some i => i :: sextets s
           | None => sextets s
           end
  end.

Fixpoint decode_sextets (l : list Z) : list byte :=
  match l with
  | a :: b :: c :: d :: l =>
      let n := a * 262144 + b * 4096 + c * 64 + d in
      SHA512.byte_of_Z (n / 65536) :: SHA512.byte_of_Z (n / 256)
        :: SHA512.byte_of_Z n :: decode_sextets l
  | [a; b; c] =>
      let n := a * 262144 + b * 4096 + c * 64 in
      [SHA512.byte_of_Z (n / 65536); SHA512.byte_of_Z (n / 256)]
  | [a; b] =>
      let n := a * 262144 + b * 4096 in
      [SHA512.byte_of_Z (n / 65536)]
  | _ => []
  end.

Definition decode (s : string) : list byte :=
  decode_sextets (sextets (list_ascii_of_string s)).

End Base64.

(** [JSON.stringify] and [JSON.parse] on the values of [json]: integers,
    strings with the escapes of the quote and the backslash, arrays,
    objects. *)
Module Json.

Definition dquote : ascii := "034"%char.

Fixpoint escape (s : string) : string :=
  match s with
  | EmptyString => EmptyString
  | String c s =>
      if Ascii.eqb c dquote || Ascii.eqb c "\"%char
      then String "\"%char (String c (escape s))
      else String c (escape s)
  end.

Definition quote (s : string) : string :=
  String dquote (escape s +:+ String dquote EmptyString).

Fixpoint stringify (v : json) : string :=
  match v with
  | JNull => "null"
  | JBool true => "true"
  | JBool false => "false"
  | JNum n => pretty n
  | JStr s => quote s
  | JArr items => "[" +:+ JS.join "," (map stringify items) +:+ "]"
  | JObj fields =>
      "{" +:+ JS.join "," (map (fun kv => quote (fst kv) +:+ ":" +:+ stringify (snd kv))
                               fields) +:+ "}"
  end.

(** The characters of a string literal after its opening quote, and what
    follows the closing quote. *)
Fixpoint parse_string (s : list ascii) : option (string * list ascii) :=
  match s with
  | [] => None
  | c :: s =>
      if Ascii.eqb c dquote then Some (EmptyString, s)
      else if Ascii.eqb c "\"%char then
        match s with
        | e :: s =>
            if Ascii.eqb e dquote || Ascii.eqb e "\"%char then
              match parse_string s with
              | Some (str, rest) => Some (String e str, rest)
              | None => None
              end
            else None
        | [] => None
        end
      else
        match parse_string s with
        | Some (str, rest) => Some (String c str, rest)
        | None => None
        end
  end.

Fixpoint parse_digits (acc : Z) (s : list ascii) : Z * list ascii :=
  match s with
  | c :: s' =>
      match Ascii.is_nat c with
      | Some d => parse_digits (10 * acc + Z.of_nat d) s'
      | None => (acc, s)
      end
  | [] => (acc, s)
  end.

Definition is_digit (c : ascii) : bool :=
  match Ascii.is_nat c with Some _ => true | None => false end.

(** The elements of an array after its opening bracket; [n] bounds their
    number. *)
Fixpoint parse_items (value : list ascii -> option (json * list ascii)) (n : nat)
    (s : list ascii) : option (list json * list ascii) :=
  match n with
  | O => None
  | S n =>
      match value s with
      | Some (v, c :: rest) =>
          if Ascii.eqb c ","%char then
            match parse_items value n rest with
            | Some (vs, rest) => Some (v :: vs, rest)
            | None => None
            end
          else if Ascii.eqb c "]"%char then Some ([v], rest)
          else None
      | _ => None
      end
  end.

(** The members of an object after its opening brace. *)
Fixpoint parse_members (value : list ascii -> option (json * list ascii)) (n : nat)
    (s : list ascii) : option (list (string * json) * list ascii) :=
  match n with
  | O => None
  | S n =>
      match s with
      | q :: s =>
          if Ascii.eqb q dquote then
            match parse_string s with
            | Some (k, colon :: s) =>
                if Ascii.eqb colon ":"%char then
                  match value s with
                  | Some (v, c :: rest) =>
                      if Ascii.eqb c ","%char then
                        match parse_members value n rest with
                        | Some (kvs, rest) => Some ((k, v) :: kvs, rest)
                        | None => None
                        end
                      else if Ascii.eqb c "}"%char then Some ([(k, v)], rest)
                      else None
                  | _ => None
                  end
                else None
            | _ => None
            end
          else None
      | [] => None
      end
  end.

Fixpoint parse_value (fuel : nat) (s : list ascii) : option (json * list ascii) :=
  match fuel with
  | O => None
  | S fuel =>
      match s with
      | "n" :: "u" :: "l" :: "l" :: rest => Some (JNull, rest)
      | "t" :: "r" :: "u" :: "e" :: rest => Some (JBool true, rest)
      | "f" :: "a" :: "l" :: "s" :: "e" :: rest => Some (JBool false, rest)
      | "[" :: "]" :: rest => Some (JArr [], rest)
      | "{" :: "}" :: rest => Some (JObj [], rest)
      | c :: rest =>
          if Ascii.eqb c dquote then
            match parse_string rest with
            | Some (str, rest) => Some (JStr str, rest)
            | None => None
            end
          else if Ascii.eqb c "["%char then
            match parse_items (parse_value fuel) (length rest) rest with
            | Some (vs, rest) => Some (JArr vs, rest)
            | None => None
            end
          else if Ascii.eqb c "{"%char then
            match parse_members (parse_value fuel) (length rest) rest with
            | Some (kvs, rest) => Some (JObj kvs, rest)
            | None => None
            end
          else if Ascii.eqb c "-"%char then
            match rest with
            | d :: _ =>
                if is_digit d
                then let r := parse_digits 0 rest in Some (JNum (- fst r), snd r)
                else None
            | [] => None
            end
          else if is_digit c then
            let r := parse_digits 0 s in Some (JNum (fst r), snd r)
          else None
      | [] => None
      end%char
  end.

Definition parse (s : string) : option json :=
  let l := list_ascii_of_string s in
  match parse_value (S (length l)) l with
  | Some (v, []) => Some v
  | _ => None
  end.

End Json.

(** The platform of the examples: SHA-512, Base64 and JSON as above, the
    substitute the sources use for RIPEMD-160 in a browser (the first 20
    bytes of [nacl.hash]), hexadecimal text in the place of base58, and
    stand-ins for the signature and the two ciphers. *)
Module Demo.

Definition bytes (s : string) : list byte := String.list_byte_of_string s.
Definition text (bs : list byte) : string := String.string_of_list_byte bs.

Definition hex_value (c : ascii) : option Z :=
  Base64.index_of c (list_ascii_of_string "0123456789abcdef") 0.

(** [Buffer.from(hex, 'hex')]: pairs of digits up to the first that is
    none. *)
Fixpoint hex_decode_list (s : list ascii) : list byte :=
  match s with
  | h :: l :: s =>
      match hex_value h, hex_value l with
      | Some h, Some l => SHA512.byte_of_Z (16 * h + l) :: hex_decode_list s
      | _, _ => []
      end
  | _ => []
  end.

Definition hex_decode (s : string) : list byte := hex_decode_list (list_ascii_of_string s).

Definition decode_hex (s : string) : option (list byte) :=
  if forallb (fun c => match hex_value c with Some _ => true | None => false end)
             (list_ascii_of_string s) && Nat.even (String.length s)
  then Some (hex_decode s) else None.

Definition bytes_eqb (a b : list byte) : bool := String.eqb (toHex a) (toHex b).

(** A signature stand-in: the hash of key and message; the public key is
    the secret key. *)
Definition sign (msg secretKey : list byte) : list byte :=
  SHA512.sha512 (secretKey ++ msg).

#[global] Instance platform : Platform := {|
  nacl_hash := SHA512.sha512;
  nacl_sign_detached := sign;
  nacl_sign_detached_verify msg sig publicKey := Some (bytes_eqb sig (sign msg publicKey));
  nacl_box msg nonce theirPublicKey mySecretKey := Some (nonce ++ msg);
  nacl_box_open box nonce theirPublicKey mySecretKey :=
    if bytes_eqb (take (length nonce) box) nonce
    then Some (drop (length nonce) box) else None;
  bs58_encode := toHex;
  bs58_decode := decode_hex;
  bs58checkEncode := toHex;
  ripemd160Hash data := take 20 (SHA512.sha512 data);
  toBuffer := bytes;
  toString := text;
  fromHex := hex_decode;
  toBase64 := Base64.encode;
  fromBase64 := Base64.decode;
  base64_decode s := Some (Base64.decode s);
  JSON_parse := Json.parse;
  JSON_stringify := Json.stringify;
  js_add_gt _ _ _ := false;
  SEA_secret epub sea := match epub, sea with
                         | Some epub, Some keys => Some (ToString epub +:+ sea_epriv keys)
                         | _, _ => None
                         end;
  SEA_encrypt msg secret :=
    Some (JObj [("ct", match msg with Some m => JStr (Json.stringify m) | None => JNull end);
                ("s", JStr secret)])
|}.


(** ** The scenarios of the examples *)

Definition env_at (t : Z) (n : string) : Env :=
  {| now := t; nonce8 := bytes n; callnonce8 := bytes "abcdefgh";
     nonce24 := bytes "0123456789abcdefghijklmn";
     transferCode := "7-ninja-tokyo"; msgId := "1000-alice-x1y2z3a";
     listener_raises := false; callback_raises := false |}.

Definition key (c : string) : list byte :=
  bytes (c +:+ c +:+ c +:+ c +:+ c +:+ c +:+ c +:+ c).

(** Two channels on the identifier [room]; with the signature stand-in the
    public key is the secret key. *)
Definition alice : Yumi.Yumi :=
  Yumi.new (Some "room") None (key "AAAA") (key "AAAA") (key "aaaa") (key "aaaa").
Definition bob : Yumi.Yumi :=
  Yumi.new (Some "room") None (key "BBBB") (key "BBBB") (key "bbbb") (key "bbbb").

(** The record [sendRaw] stores for a packet, as a listener receives it. *)
Definition stored_record (env : Env) (packet : string) : Yumi.MessageData :=
  {| Yumi.md_m := toBase64 (toBuffer packet); Yumi.md_t := now env;
     Yumi.md_k := Yumi.packet_hash (toBuffer packet) |}.

(** Alice broadcasts [{hello: "world"}] at time 1000. *)
Definition hello : string :=
  Yumi.makePacket alice (env_at 1000 "nonce001")
    [("y", Some (JStr "m"));
     ("v", Some (JStr (JSON_stringify (JObj [("hello", JStr "world")]))))].

(** Bob receives the record of [hello] twice. *)
Definition duplicate_trace : list (Env * Yumi.Op) :=
  [(env_at 1100 "nonce002", Yumi.OpMessage (Some (stored_record (env_at 1000 "nonce001") hello)));
   (env_at 1200 "nonce003", Yumi.OpMessage (Some (stored_record (env_at 1000 "nonce001") hello)))].

(** Bob receives [hello] when it is [timeout + 1] ms old. *)
Definition late : Env := env_at (1000 + (Yumi.PEERTIMEOUT + 1)) "nonce004".

Definition hello_payload : list (string * json) :=
  default [] (Yumi.payload_of bob (toBuffer hello)).

(** Alice has seen a ping of Bob, then calls [status] on him with the
    callback 7. *)
Definition bob_ping : string :=
  Yumi.makePacket bob (env_at 2000 "nonce005") [("y", Some (JStr "p"))].
Definition alice_knows_bob : Yumi.Yumi :=
  fst (Yumi.onMessage alice "room" (env_at 2100 "nonce006") (toBuffer bob_ping)).
Definition bob_address : string := Yumi.address bob None.
Definition alice_calls : Yumi.Yumi :=
  fst (Yumi.rpc alice_knows_bob (env_at 2200 "nonce007") bob_address
               (Some (JStr "status")) (Yumi.ArgsValue (Some JNull)) (Some 7%nat)).
Definition call_nonce : string := toHex (callnonce8 (env_at 2200 "nonce007")).

(** A signed response of Bob that carries the nonce of the call. *)
Definition response (n : string) (result : json) : string :=
  Yumi.makePacket bob (env_at 2300 n)
    [("y", Some (JStr "rr")); ("rn", Some (JStr call_nonce));
     ("rr", Some (JStr (JSON_stringify result)))].

Definition response_trace : list (Env * Yumi.Op) :=
  [(env_at 2400 "nonce010",
    Yumi.OpMessage (Some (stored_record (env_at 2300 "nonce008")
                                        (response "nonce008" (JObj [("up", JBool true)])))));
   (env_at 2500 "nonce011",
    Yumi.OpMessage (Some (stored_record (env_at 2300 "nonce009")
                                        (response "nonce009" (JObj [("up", JBool true)])))))].

(** The same two responses when the callback raises. *)
Definition raising (env : Env) : Env :=
  {| now := now env; nonce8 := nonce8 env; callnonce8 := callnonce8 env;
     nonce24 := nonce24 env; transferCode := transferCode env; msgId := msgId env;
     listener_raises := listener_raises env; callback_raises := true |}.
Definition raising_trace : list (Env * Yumi.Op) :=
  map (fun eo => (raising (fst eo), snd eo)) response_trace.

(** A signed response of Bob under the nonce [toString]. *)
Definition response_toString : string :=
  Yumi.makePacket bob (env_at 2300 "nonce008")
    [("y", Some (JStr "rr")); ("rn", Some (JStr "toString"));
     ("rr", Some (JStr (JSON_stringify (JObj [("up", JBool true)]))))].

(** A sender with chunks of four characters sends the twelve bytes of
    [hello world!]. *)
Definition kunai4 : Kunai.Kunai := Kunai.new alice (Some 4).
Definition h_txt : Kunai.File :=
  {| Kunai.file_name := "h.txt"; Kunai.file_size := 12; Kunai.file_type := None |}.
Definition upload_clock : Kunai.UploadClock :=
  {| Kunai.at_chunk := fun i => 1000 + 5 * i; Kunai.at_end := 2000 |}.
Definition upload_trace : list (Env * Kunai.Op) :=
  [(env_at 1000 "nonce012", Kunai.OpSendFile upload_clock h_txt (Some (bytes "hello world!")))].
Definition kunai_sent : Kunai.Kunai := Kunai.run kunai4 upload_trace.
Definition sent_entry : Kunai.CacheEntry :=
  default {| Kunai.ce_chunks := ∅;
             Kunai.ce_metadata := {| Kunai.md_name := ""; Kunai.md_type := "";
                                     Kunai.md_size := 0; Kunai.md_totalChunks := 0;
                                     Kunai.md_timestamp := 0; Kunai.md_sender := "" |};
             Kunai.ce_timestamp := 0 |}
          (Kunai.chunkCache kunai_sent !! "7-ninja-tokyo").

(** Sweeps up to the last millisecond of the retention time, a request and
    the confirmation of another transfer. *)
Definition retention_trace : list (Env * Kunai.Op) :=
  [(env_at 62000 "nonce013", Kunai.OpCacheCleanup);
   (env_at 70000 "nonce014",
    Kunai.OpRequestChunks bob_address
      (JObj [("fileId", JStr "7-ninja-tokyo"); ("missingChunks", JArr [JNum 1])]));
   (env_at 80000 "nonce015",
    Kunai.OpTransferConfirmed bob_address (JObj [("fileId", JStr "3-kilo-lima")]));
   (env_at (2000 + Kunai.CACHE_RETENTION) "nonce016", Kunai.OpCacheCleanup)].

(** 1.1 s after the entry of [hello world!] was cached the sender uploads
    the three bytes of [bye] and draws the same transfer code. *)
Definition bye_txt : Kunai.File :=
  {| Kunai.file_name := "bye.txt"; Kunai.file_size := 3; Kunai.file_type := None |}.
Definition redraw_clock : Kunai.UploadClock :=
  {| Kunai.at_chunk := fun i => 3000 + 5 * i; Kunai.at_end := 3100 |}.
Definition redraw_trace : list (Env * Kunai.Op) :=
  [(env_at 3000 "nonce018", Kunai.OpSendFile redraw_clock bye_txt (Some (bytes "bye")))].

(** A receiver of that file with two chunks of eight characters. *)
Definition h_txt_metadata : Kunai.Metadata :=
  {| Kunai.md_name := "h.txt"; Kunai.md_type := "application/octet-stream";
     Kunai.md_size := 12; Kunai.md_totalChunks := 2; Kunai.md_timestamp := 1000;
     Kunai.md_sender := Yumi.address alice None |}.
Definition receiver0 : Kunai.Receiver := Kunai.detect h_txt_metadata "7-ninja-tokyo".
Definition gun_chunk (i : Z) (d : string) : option Kunai.GunChunk :=
  Some {| Kunai.gc_index := Some (JNum i); Kunai.gc_data := Some (JStr d) |}.
Definition receive_ops : list Kunai.ReceiverOp :=
  [Kunai.Chunk (gun_chunk 1 "d29ybGQh") "soul-b";
   Kunai.Chunk (gun_chunk 0 "aGVsbG8g") "soul-a";
   Kunai.SweepTimer].
Definition receive_last : Kunai.Receiver * list Kunai.Action :=
  List.last (snd (Kunai.receiver_run receiver0 receive_ops)) (receiver0, []).

(** An overlay of Alice in which Bob has registered his keys. *)
Definition alice_sea : SEAKeyPair :=
  {| sea_pub := "alice-pub"; sea_priv := "alice-priv";
     sea_epub := "alice-epub"; sea_epriv := "alice-epriv" |}.
Definition yari1 : Yari.Yari :=
  fst (Yari.on_peer {| Yari.yumi := alice_knows_bob; Yari.peers := ∅;
                       Yari.sea := Some alice_sea |}
                    bob_address
                    (JObj [("pub", JStr "bob-pub"); ("epub", JStr "bob-epub")])).

(** ** Scenarios of the further properties *)

(** The parameters of [hello], the value it carries and its payload. *)
Definition hello_value : json := JObj [("hello", JStr "world")].
Definition hello_params : list (string * option json) :=
  [("y", Some (JStr "m")); ("v", Some (JStr (JSON_stringify hello_value)))].
Definition hello_signed : string :=
  JSON_stringify (JObj (Yumi.payload alice (env_at 1000 "nonce001") hello_params)).

(** The packet [hello] under a signature that is not Alice's. *)
Definition forged : string :=
  JSON_stringify (JObj [("s", JStr "00ff"); ("p", JStr hello_signed)]).

(** The receipt of Bob's ping as a run of Alice, and the entry it leaves. *)
Definition ping_trace : list (Env * Yumi.Op) :=
  [(env_at 2100 "nonce006",
    Yumi.OpMessage (Some (stored_record (env_at 2000 "nonce005") bob_ping)))].
Definition bob_entry : Yumi.PeerInfo :=
  {| Yumi.peer_pk := Yumi.pk bob; Yumi.peer_ek := Some (JStr (Yumi.ek bob));
     Yumi.peer_last := 2100 |}.

(** A presence record that names Bob's signing key and a box key of
    Mallory's. *)
Definition mallory_presence : Yumi.PresenceData :=
  {| Yumi.pr_pk := Yumi.pk bob; Yumi.pr_ek := "6d616c6c6f7279"; Yumi.pr_t := 3000 |}.

(** What [upload_trace] announced and wrote, and its chunks in reverse
    order under the keys of the set. *)
Definition sent_metadata : Kunai.Metadata :=
  default h_txt_metadata (Kunai.files kunai_sent !! "7-ninja-tokyo").
Definition written : list Kunai.ChunkData :=
  default [] (Kunai.chunks kunai_sent !! "7-ninja-tokyo").
Definition delivery : list (Kunai.ChunkData * string) :=
  zip (rev written) ["soul-d"; "soul-c"; "soul-b"; "soul-a"].

(** A seed of four bytes. *)
Definition seed_material : list byte := bytes "seed".

End Demo.

(* ===================================================================== *)
(** * Properties                                                          *)
(* ===================================================================== *)

(** ** Strings *)

Lemma app_cons (c : ascii) (s t : string) : String c s +:+ t = String c (s +:+ t).
Proof. reflexivity. Qed.

Lemma app_empty_l (s : string) : "" +:+ s = s.
Proof. reflexivity. Qed.

Lemma app_empty_r (s : string) : s +:+ "" = s.
Proof. induction s as [|c s IH]; [reflexivity | now rewrite app_cons, IH]. Qed.

Lemma app_assoc_string (a b c : string) : (a +:+ b) +:+ c = a +:+ (b +:+ c).
Proof. induction a as [|x a IH]; [reflexivity | now rewrite !app_cons, IH]. Qed.

Lemma substring_nil (a n : nat) : String.substring a n "" = "".
Proof. destruct a, n; reflexivity. Qed.

Lemma substring_zero_length (a : nat) (s : string) : String.substring a 0 s = "".
Proof.
  revert a; induction s as [|c s IH]; intros [|a]; simpl; try reflexivity.
  apply IH.
Qed.

Lemma substring_all (s : string) : String.substring 0 (String.length s) s = s.
Proof. induction s as [|c s IH]; simpl; [reflexivity | now rewrite IH]. Qed.

Lemma substring_beyond (a n : nat) (s : string) :
  (String.length s <= a)%nat -> String.substring a n s = "".
Proof.
  revert a n; induction s as [|c s IH]; intros a n H.
  - apply substring_nil.
  - destruct a as [|a]; simpl in *; [lia |]. apply IH. lia.
Qed.

(** Two adjacent windows of a string make one window. *)
Lemma substring_adjacent (a n m : nat) (s : string) :
  String.substring a n s +:+ String.substring (a + n) m s = String.substring a (n + m) s.
Proof.
  revert a n m; induction s as [|c s IH]; intros a n m.
  - now rewrite !substring_nil.
  - destruct a as [|a]; simpl.
    + destruct n as [|n]; simpl.
      * reflexivity.
      * rewrite app_cons. f_equal. apply (IH 0%nat n m).
    + apply IH.
Qed.

Lemma substring_clip (a n : nat) (s : string) :
  (String.length s <= a + n)%nat ->
  String.substring a n s = String.substring a (String.length s - a) s.
Proof.
  revert a n; induction s as [|c s IH]; intros a n H.
  - now rewrite !substring_nil.
  - destruct a as [|a]; simpl in *.
    + destruct n as [|n]; [lia |]. f_equal.
      rewrite (IH 0%nat n) by lia. now rewrite Nat.sub_0_r.
    + apply IH. lia.
Qed.

Lemma substring_nonempty (a n : nat) (s : string) :
  (a < String.length s)%nat -> (0 < n)%nat -> String.substring a n s <> "".
Proof.
  revert a n; induction s as [|c s IH]; intros a n Ha Hn; simpl in *.
  - lia.
  - destruct a as [|a].
    + destruct n; [lia | discriminate].
    + apply IH; lia.
Qed.

(** [slice] between two bounds in order is the window between them, cut at
    the end of the string. *)
Lemma slice_window (s : string) (b e : Z) :
  0 <= b <= e ->
  slice s b e =
  String.substring (Z.to_nat b) (Z.to_nat (e - b)) s.
Proof.
  intros H. unfold slice.
  set (len := Z.of_nat (String.length s)).
  assert (Hlen : 0 <= len) by (unfold len; lia).
  destruct (b <? 0) eqn:Hb; [apply Z.ltb_lt in Hb; lia |].
  destruct (e <? 0) eqn:He; [apply Z.ltb_lt in He; lia |].
  destruct (Z.le_gt_cases len b) as [Hge | Hlt].
  - rewrite !substring_beyond; [reflexivity | |]; unfold len in *; lia.
  - rewrite Z.min_l by lia.
    destruct (Z.le_gt_cases e len) as [Hel | Hel].
    + rewrite Z.min_l by lia. now rewrite Z.max_l by lia.
    + rewrite Z.min_r by lia. rewrite Z.max_l by lia.
      rewrite (substring_clip (Z.to_nat b) (Z.to_nat (e - b))) by (unfold len in *; lia).
      f_equal. unfold len. lia.
Qed.

(** ** Ceiling *)

Lemma ceil_div_spec (a b : Z) :
  0 < b -> (ceil_div a b - 1) * b < a <= ceil_div a b * b.
Proof.
  intros Hb. unfold ceil_div.
  pose proof (Z.div_mod (- a) b ltac:(lia)) as Hdm.
  pose proof (Z.mod_pos_bound (- a) b Hb) as Hm.
  nia.
Qed.

Lemma ceil_div_nonneg (a b : Z) : 0 <= a -> 0 < b -> 0 <= ceil_div a b.
Proof. intros Ha Hb. pose proof (ceil_div_spec a b Hb). nia. Qed.

(** ** Kunai: the send path *)

Lemma join_empty_snoc (l : list string) (x : string) :
  join "" (l ++ [x]) = join "" l +:+ x.
Proof.
  destruct l as [|y l]; [reflexivity |].
  simpl. now rewrite foldl_app.
Qed.

Lemma join_windows (s : string) (cs : Z) (k : nat) :
  0 < cs ->
  join "" (map (fun i => slice s (i * cs) ((i + 1) * cs)) (seqZ 0 (Z.of_nat k)))
  = String.substring 0 (Z.to_nat (Z.of_nat k * cs)) s.
Proof.
  intros Hcs. induction k as [|k IH].
  - simpl. now rewrite substring_zero_length.
  - replace (Z.of_nat (S k)) with (Z.of_nat k + 1) by lia.
    rewrite (seqZ_app 0 (Z.of_nat k) 1) by lia. rewrite map_app. 
    rewrite (seqZ_cons _ 1) by lia. rewrite (seqZ_nil _ (Z.pred 1)) by lia.
    change (map ?f [?x]) with [f x].
    rewrite join_empty_snoc, IH, Z.add_0_l.
    rewrite slice_window by nia.
    replace (Z.to_nat ((Z.of_nat k + 1) * cs))
      with (Z.to_nat (Z.of_nat k * cs) + Z.to_nat ((Z.of_nat k + 1) * cs - Z.of_nat k * cs))%nat
      by nia.
    apply (substring_adjacent 0).
Qed.

Section KunaiSendPath.
Context {P : Platform}.

Lemma upload_fold (this : Kunai.Kunai) (fileId base64Data : string)
    (clock : Kunai.UploadClock) (l : list Z) (m : gmap Z string) (w : list Kunai.ChunkData) :
  foldl (Kunai.upload_chunk this fileId base64Data clock) (m, w) l
  = (foldl (fun m i => <[i := slice base64Data (i * Kunai.chunkSize this)
                                    ((i + 1) * Kunai.chunkSize this)]> m) m l,
     w ++ map (fun i => {| Kunai.ch_index := i;
                           Kunai.ch_data := slice base64Data (i * Kunai.chunkSize this)
                                                  ((i + 1) * Kunai.chunkSize this);
                           Kunai.ch_timestamp := Kunai.at_chunk clock i;
                           Kunai.ch_fileId := fileId |}) l).
Proof.
  revert m w; induction l as [|i l IH]; intros m w; simpl.
  - now rewrite app_nil_r.
  - unfold Kunai.upload_chunk at 2. simpl. rewrite IH. now rewrite <- app_assoc.
Qed.

Lemma lookup_fold_insert (f : Z -> string) (l : list Z) (m : gmap Z string) (i : Z) :
  foldl (fun m i => <[i := f i]> m) m l !! i
  = if decide (i ∈ l) then Some (f i) else m !! i.
Proof.
  revert m; induction l as [|x l IH]; intros m; simpl.
  - destruct (decide (i ∈ [])) as [H|H]; [inversion H | reflexivity].
  - rewrite IH. destruct (decide (i ∈ l)) as [Hl|Hl].
    + rewrite decide_True; [reflexivity | now right].
    + destruct (decide (i = x)) as [->|Hne].
      * rewrite decide_True by now left. apply lookup_insert_eq.
      * rewrite decide_False; [now apply lookup_insert_ne |].
        intros [->|H]%elem_of_cons; auto.
Qed.

Lemma elem_of_seqZ_0 (n i : Z) : i ∈ seqZ 0 n <-> 0 <= i < n.
Proof. rewrite elem_of_seqZ. lia. Qed.

Lemma totalChunks_positive_size (len cs : Z) :
  0 <= len -> 0 < ceil_div len cs -> 0 < cs.
Proof.
  intros Hlen Ht. unfold ceil_div in Ht.
  destruct (Z.lt_trichotomy cs 0) as [Hneg | [-> | Hpos]]; [| | assumption].
  - exfalso. assert (0 <= - len / cs); [| lia].
    replace cs with (- (- cs)) by lia. rewrite Z.div_opp_opp by lia.
    apply Z_div_nonneg_nonneg; lia.
  - rewrite Z.div_0_r in Ht. lia.
Qed.

(** Every chunk the upload loop caches is a non-empty string. *)
Lemma upload_chunks (this : Kunai.Kunai) (fileId base64Data : string)
    (clock : Kunai.UploadClock) (i : Z) :
  fst (Kunai.upload this fileId base64Data clock) !! i
  = if decide (0 <= i < Kunai.totalChunks_of this base64Data)
    then Some (slice base64Data (i * Kunai.chunkSize this) ((i + 1) * Kunai.chunkSize this))
    else None.
Proof.
  unfold Kunai.upload. rewrite upload_fold. simpl.
  rewrite (lookup_fold_insert
             (fun i => slice base64Data (i * Kunai.chunkSize this)
                             ((i + 1) * Kunai.chunkSize this))).
  destruct (decide (i ∈ _)) as [Hi|Hi]; rewrite elem_of_seqZ_0 in Hi.
  - now rewrite decide_True.
  - rewrite decide_False by assumption. apply lookup_empty.
Qed.

Lemma upload_chunks_nonempty (this : Kunai.Kunai) (fileId base64Data : string)
    (clock : Kunai.UploadClock) (i : Z) (c : string) :
  fst (Kunai.upload this fileId base64Data clock) !! i = Some c -> c <> "".
Proof.
  rewrite upload_chunks. destruct (decide _) as [Hi|Hi]; [| discriminate].
  intros [= <-]. unfold Kunai.totalChunks_of in Hi.
  assert (Hcs : 0 < Kunai.chunkSize this).
  { apply (totalChunks_positive_size (Z.of_nat (String.length base64Data))); lia. }
  pose proof (ceil_div_spec (Z.of_nat (String.length base64Data)) _ Hcs) as Hc.
  rewrite slice_window by nia.
  apply substring_nonempty; nia.
Qed.


(** C4. [sendFile] computes [totalChunks = ceil(|base64| / chunkSize)],
    chunk [i] is [base64.slice(i * chunkSize, (i + 1) * chunkSize)] for every
    [i] in [0, totalChunks), both in the cache and in the entries written to
    [chunks/<fileId>], and the chunks joined in ascending order are the
    base64 string again. *)
Theorem C4_sendFile_chunking (this : Kunai.Kunai) (env : Env) (clock : Kunai.UploadClock)
    (file : Kunai.File) (data : list byte) :
  0 < Kunai.chunkSize this ->
  let cs := Kunai.chunkSize this in
  let base64 := toBase64 data in
  let len := Z.of_nat (String.length base64) in
  let fileId := transferCode env in
  let chunk := fun i => slice base64 (i * cs) ((i + 1) * cs) in
  exists (this' : Kunai.Kunai) (totalChunks : Z) (entry : Kunai.CacheEntry)
         (meta : Kunai.Metadata),
    Kunai.sendFile this env clock file (Some data)
      = (this', [Kunai.EmitTransferComplete fileId], Ok fileId)
    /\ (totalChunks - 1) * cs < len <= totalChunks * cs
    /\ Kunai.files this' !! fileId = Some meta
    /\ Kunai.md_totalChunks meta = totalChunks
    /\ Kunai.chunkCache this' !! fileId = Some entry
    /\ Kunai.ce_metadata entry = meta
    /\ (forall i, 0 <= i < totalChunks -> Kunai.ce_chunks entry !! i = Some (chunk i))
    /\ (forall i, is_Some (Kunai.ce_chunks entry !! i) -> 0 <= i < totalChunks)
    /\ Kunai.chunks this' !! fileId
        = Some (default [] (Kunai.chunks this !! fileId)
                ++ map (fun i => {| Kunai.ch_index := i; Kunai.ch_data := chunk i;
                                    Kunai.ch_timestamp := Kunai.at_chunk clock i;
                                    Kunai.ch_fileId := fileId |})
                       (seqZ 0 totalChunks))
    /\ join "" (map chunk (seqZ 0 totalChunks)) = base64.
Proof.
  intros Hcs cs base64 len fileId chunk.
  set (total := ceil_div len cs).
  pose proof (ceil_div_spec len cs Hcs) as Hceil. fold total in Hceil.
  assert (Hlen : 0 <= len) by (unfold len; lia).
  assert (Htot : 0 <= total) by (apply ceil_div_nonneg; assumption).
  eexists _, total, _, _.
  split; [unfold Kunai.sendFile; reflexivity |].
  split; [exact Hceil |].
  simpl. split; [apply lookup_insert_eq |].
  split; [reflexivity |].
  split; [apply lookup_insert_eq |].
  split; [reflexivity |].
  simpl.
  split.
  { intros i Hi. rewrite upload_chunks. simpl.
    rewrite decide_True; [reflexivity | exact Hi]. }
  split.
  { intros i [c Hc]. rewrite upload_chunks in Hc. simpl in Hc.
    destruct (decide _) as [Hi|Hi]; [exact Hi | discriminate]. }
  split.
  { rewrite lookup_insert_eq. unfold Kunai.upload. rewrite upload_fold. reflexivity. }
  replace total with (Z.of_nat (Z.to_nat total)) by lia.
  unfold chunk. rewrite join_windows by exact Hcs.
  rewrite (substring_clip 0) by (unfold len in *; nia).
  rewrite Nat.sub_0_r. apply substring_all.
Qed.

End KunaiSendPath.

(** ** Kunai: the receive path *)

Lemma join_empty_fold (a : string) (l : list string) :
  foldl (fun acc y => acc +:+ "" +:+ y) a l = a +:+ join "" l.
Proof.
  revert a; induction l as [|x l IH]; intros a; simpl.
  - now rewrite app_empty_r.
  - rewrite IH. rewrite (IH x). now rewrite app_assoc_string.
Qed.

Lemma join_empty_cons (x : string) (l : list string) :
  join "" (x :: l) = x +:+ join "" l.
Proof. simpl. apply join_empty_fold. Qed.

Section KunaiReceivePath.
Context {P : Platform}.

Lemma assemble_step_cases (received : gmap string json) (s : string) (m : list Z) (i : Z) :
  Kunai.assemble_step received (s, m) i
  = if Kunai.has_chunk received (pretty i) then (s +:+ Kunai.stored received i, m)
    else (s, m ++ [i]).
Proof.
  unfold Kunai.assemble_step, Kunai.has_chunk, Kunai.stored, truthy_opt. simpl.
  destruct (received !! pretty i) as [c|]; [destruct (truthy c) |]; reflexivity.
Qed.

Lemma assemble_fold (received : gmap string json) (l : list Z) (s : string) (m : list Z) :
  foldl (Kunai.assemble_step received) (s, m) l
  = (s +:+ join "" (map (Kunai.stored received)
                        (List.filter (fun i => Kunai.has_chunk received (pretty i)) l)),
     m ++ List.filter (fun i => negb (Kunai.has_chunk received (pretty i))) l).
Proof.
  revert s m; induction l as [|i l IH]; intros s m.
  - simpl. now rewrite app_empty_r, app_nil_r.
  - cbn [foldl List.filter]. rewrite assemble_step_cases.
    destruct (Kunai.has_chunk received (pretty i)); cbn [negb map]; rewrite IH.
    + now rewrite join_empty_cons, app_assoc_string.
    + now rewrite <- app_assoc.
Qed.

Lemma assemble_complete (received : gmap string json) (totalChunks : Z) :
  Kunai.allChunksPresent (Kunai.assemble received totalChunks) = true ->
  (forall i, 0 <= i < totalChunks ->
             exists c, received !! pretty i = Some c /\ truthy c = true)
  /\ fst (Kunai.assemble received totalChunks)
     = join "" (map (Kunai.stored received) (seqZ 0 totalChunks)).
Proof.
  unfold Kunai.assemble, Kunai.allChunksPresent. rewrite assemble_fold. simpl.
  intros H.
  assert (Hall : forall i, i ∈ seqZ 0 totalChunks ->
                           Kunai.has_chunk received (pretty i) = true).
  { intros i Hi. destruct (Kunai.has_chunk received (pretty i)) eqn:Hc; [reflexivity |].
    exfalso.
    assert (Hin : In i (List.filter
                          (fun i => negb (Kunai.has_chunk received (pretty i)))
                          (seqZ 0 totalChunks))).
    { apply filter_In. split; [now apply list_elem_of_In | now rewrite Hc]. }
    destruct (List.filter _ _); [destruct Hin | discriminate]. }
  split.
  - intros i Hi. specialize (Hall i). rewrite elem_of_seqZ in Hall.
    specialize (Hall ltac:(lia)). unfold Kunai.has_chunk, truthy_opt in Hall.
    destruct (received !! pretty i) as [c|]; [eauto | discriminate].
  - rewrite app_empty_l. f_equal. f_equal. clear H.
    induction (seqZ 0 totalChunks) as [|i l IH]; [reflexivity |].
    cbn [List.filter]. rewrite Hall by now left. f_equal.
    apply IH. intros j Hj. apply Hall. now right.
Qed.

Lemma reassembleFile_emits (base64String : string) (md : Kunai.Metadata) (fid : string)
    (filename : string) (size : Z) (data : list byte) (fileId : string) :
  In (Kunai.EmitFileReceived filename size data fileId)
     (Kunai.reassembleFile base64String md fid) ->
  base64_decode base64String = Some data
  /\ filename = Kunai.md_name md /\ size = Kunai.md_size md /\ fileId = fid.
Proof.
  unfold Kunai.reassembleFile. destruct (base64_decode base64String) as [bytes|]; simpl.
  - intros [[= <- <- <- <-] | []]. auto.
  - intros [[=] | []].
Qed.

(** A step that emits [file-received] does so from [reassembleFile], on the
    outcome of the final loop over the chunks the step leaves stored. *)
Lemma step_emits (r : Kunai.Receiver) (op : Kunai.ReceiverOp)
    (filename : string) (size : Z) (data : list byte) (fileId : string) :
  In (Kunai.EmitFileReceived filename size data fileId) (snd (Kunai.receiver_step r op)) ->
  let r' := fst (Kunai.receiver_step r op) in
  let a := Kunai.assemble (Kunai.receivedChunks r') (Kunai.md_totalChunks (Kunai.metadata r)) in
  Kunai.allChunksPresent a = true
  /\ In (Kunai.EmitFileReceived filename size data fileId)
        (Kunai.reassembleFile (fst a) (Kunai.metadata r) (Kunai.fileId r)).
Proof.
  destruct op as [chunk chunkId | chunk | | | this | senderAddress response];
    cbn [Kunai.receiver_step fst snd].
  - unfold Kunai.onChunk. repeat case_match; simpl; intuition discriminate.
  - intros [].
  - unfold Kunai.onSweepTimer. repeat case_match; simpl; intuition discriminate.
  - unfold Kunai.onTimeout. repeat case_match; simpl; intuition discriminate.
  - unfold Kunai.onTimeoutSweepTimer. repeat case_match; cbn [fst snd];
      try (simpl; intuition discriminate).
    all: intros Hin; apply in_app_or in Hin; destruct Hin as [Hin|Hin];
      [auto | simpl in Hin; intuition discriminate].
  - unfold Kunai.onChunksResponse. repeat case_match; cbn [fst snd];
      try (simpl; intuition discriminate).
    all: intros Hin; apply in_app_or in Hin; destruct Hin as [Hin|Hin];
      [auto | simpl in Hin; intuition discriminate].
Qed.

Lemma store_keeps (r : Kunai.Receiver) (index data : json) :
  Kunai.metadata (Kunai.store r index data) = Kunai.metadata r
  /\ Kunai.fileId (Kunai.store r index data) = Kunai.fileId r.
Proof. unfold Kunai.store. case_match; auto. Qed.

(** No step changes the metadata or the identifier of the transfer. *)
Lemma step_keeps (r : Kunai.Receiver) (op : Kunai.ReceiverOp) :
  Kunai.metadata (fst (Kunai.receiver_step r op)) = Kunai.metadata r
  /\ Kunai.fileId (fst (Kunai.receiver_step r op)) = Kunai.fileId r.
Proof.
  destruct op as [chunk chunkId | chunk | | | this | senderAddress response];
    cbn [Kunai.receiver_step fst snd].
  - unfold Kunai.onChunk. repeat case_match; simpl; auto.
    all: match goal with
         | |- context [Kunai.store ?r ?i ?d] => destruct (store_keeps r i d); auto
         end.
  - unfold Kunai.onSweepChunk. case_match; auto. case_match. apply store_keeps.
  - unfold Kunai.onSweepTimer. repeat case_match; simpl; auto.
  - unfold Kunai.onTimeout. repeat case_match; simpl; auto.
  - unfold Kunai.onTimeoutSweepTimer. repeat case_match; simpl; auto.
  - unfold Kunai.onChunksResponse. repeat case_match; simpl; auto.
Qed.

Lemma run_keeps (ops : list Kunai.ReceiverOp) (r0 r' : Kunai.Receiver)
    (actions : list Kunai.Action) :
  In (r', actions) (snd (Kunai.receiver_run r0 ops)) ->
  exists r op, Kunai.metadata r = Kunai.metadata r0 /\ Kunai.fileId r = Kunai.fileId r0
               /\ (r', actions) = Kunai.receiver_step r op.
Proof.
  revert r0; induction ops as [|op ops IH]; intros r0; simpl; [intros [] |].
  intros [Heq | Hin].
  - exists r0, op. auto.
  - destruct (IH _ Hin) as (r & op' & Hm & Hf & Hs).
    destruct (step_keeps r0 op) as [Hm0 Hf0].
    exists r, op'. rewrite Hm, Hf, Hm0, Hf0. auto.
Qed.

(** C1. Whenever a receiver emits [file-received], every index in
    [0, totalChunks) is stored in its chunk map at that moment, the data
    emitted is the base64 decoding of the stored chunks joined in ascending
    index order, and the size emitted is [metadata.size]; no step emits a
    file while an index of that range is absent. *)
Theorem C1_file_received_complete (r0 : Kunai.Receiver) (ops : list Kunai.ReceiverOp)
    (r' : Kunai.Receiver) (actions : list Kunai.Action)
    (filename : string) (size : Z) (data : list byte) (fileId : string) :
  In (r', actions) (snd (Kunai.receiver_run r0 ops)) ->
  In (Kunai.EmitFileReceived filename size data fileId) actions ->
  let totalChunks := Kunai.md_totalChunks (Kunai.metadata r0) in
  (forall i, 0 <= i < totalChunks ->
     exists c, Kunai.receivedChunks r' !! pretty i = Some c /\ truthy c = true)
  /\ base64_decode (join "" (map (Kunai.stored (Kunai.receivedChunks r')) (seqZ 0 totalChunks)))
     = Some data
  /\ size = Kunai.md_size (Kunai.metadata r0)
  /\ filename = Kunai.md_name (Kunai.metadata r0)
  /\ fileId = Kunai.fileId r0
  /\ ~ (exists i, 0 <= i < totalChunks /\ Kunai.receivedChunks r' !! pretty i = None).
Proof.
  intros Hrun Hemit totalChunks.
  destruct (run_keeps _ _ _ _ Hrun) as (r & op & Hm & Hf & Hs).
  pose proof (step_emits r op filename size data fileId) as He.
  rewrite <- Hs in He. cbn [fst snd] in He. specialize (He Hemit).
  destruct He as [Hall Hin]. rewrite Hm, Hf in *. fold totalChunks in Hall, Hin.
  destruct (assemble_complete _ _ Hall) as [Hpresent Hjoin].
  destruct (reassembleFile_emits _ _ _ _ _ _ _ Hin) as (Hdec & -> & -> & ->).
  rewrite Hjoin in Hdec.
  repeat split; try assumption; try reflexivity.
  intros (i & Hi & Hnone). destruct (Hpresent i Hi) as (c & Hc & _). congruence.
Qed.

End KunaiReceivePath.

(** ** Kunai: the sender cache and the retransmission handlers *)

Section KunaiCache.
Context {P : Platform}.

Lemma lookup_foldl_delete (l : list string) (c : gmap string Kunai.CacheEntry) (f : string) :
  foldl (fun c fileId => delete fileId c) c l !! f
  = if decide (f ∈ l) then None else c !! f.
Proof.
  revert c; induction l as [|x l IH]; intros c; simpl.
  - destruct (decide (f ∈ [])) as [H|H]; [inversion H | reflexivity].
  - rewrite IH. destruct (decide (f ∈ l)) as [Hl | Hl].
    + rewrite decide_True; [reflexivity | now right].
    + destruct (decide (f = x)) as [-> | Hne].
      * rewrite decide_True by now left. apply lookup_delete_eq.
      * rewrite decide_False; [now apply lookup_delete_ne |].
        intros [-> | H]%elem_of_cons; auto.
Qed.

(** The sweeper evicts exactly the entries older than the retention time. *)
Lemma cacheCleanup_lookup (this : Kunai.Kunai) (env : Env) (f : string) :
  Kunai.chunkCache (Kunai.cacheCleanup this env) !! f
  = match Kunai.chunkCache this !! f with
    | Some e => if now env - Kunai.ce_timestamp e >? Kunai.CACHE_RETENTION
                then None else Some e
    | None => None
    end.
Proof.
  unfold Kunai.cacheCleanup. cbn [Kunai.chunkCache Kunai.set_chunkCache].
  rewrite lookup_foldl_delete.
  destruct (decide _) as [Hin | Hnot].
  - apply list_elem_of_In, in_map_iff in Hin as ([f' e] & Hf & Hin). simpl in Hf. subst f'.
    apply filter_In in Hin as [Hin Hold]. simpl in Hold.
    apply list_elem_of_In, elem_of_map_to_list in Hin. now rewrite Hin, Hold.
  - destruct (Kunai.chunkCache this !! f) as [e|] eqn:He; [| reflexivity].
    destruct (now env - Kunai.ce_timestamp e >? Kunai.CACHE_RETENTION) eqn:Hold;
      [| reflexivity].
    exfalso. apply Hnot. apply list_elem_of_In, in_map_iff. exists (f, e). split; [reflexivity |].
    apply filter_In. split; [| exact Hold].
    apply list_elem_of_In, elem_of_map_to_list. exact He.
Qed.

Lemma transfer_confirmed_other (this : Kunai.Kunai) (address : string) (args : json)
    (fileId : string) :
  Kunai.confirms fileId args = false ->
  Kunai.chunkCache (fst (Kunai.transfer_confirmed this address args)) !! fileId
  = Kunai.chunkCache this !! fileId.
Proof.
  unfold Kunai.confirms, Kunai.transfer_confirmed.
  destruct args as [| | | | |fields]; try reflexivity.
  destruct (get "fileId" fields) as [[| | |f| |]|]; try reflexivity.
  intros Hne%String.eqb_neq. cbn [fst Kunai.chunkCache Kunai.set_chunkCache].
  now apply lookup_delete_ne.
Qed.

(** One operation within the retention time keeps the entry of [fileId],
    or replaces it by a later one. *)
Lemma step_retains (this : Kunai.Kunai) (env : Env) (op : Kunai.Op) (fileId : string)
    (created : Z) (e : Kunai.CacheEntry) :
  Kunai.within_retention fileId created (env, op) = true ->
  Kunai.chunkCache this !! fileId = Some e -> created <= Kunai.ce_timestamp e ->
  exists e', Kunai.chunkCache (Kunai.step this env op) !! fileId = Some e'
             /\ created <= Kunai.ce_timestamp e'
             /\ (Kunai.redraws fileId (env, op) = false -> e' = e).
Proof.
  unfold Kunai.within_retention, Kunai.redraws. cbn [fst snd].
  intros Hw He Ht. destruct op as [clock file [data|] | | address args | address args];
    cbn [Kunai.step].
  - unfold Kunai.sendFile. cbn [fst Kunai.chunkCache Kunai.set_chunkCache
                                 Kunai.set_chunks Kunai.set_files].
    destruct (String.eqb_spec (transferCode env) fileId) as [-> | Hne].
    + rewrite lookup_insert_eq. eexists. split; [reflexivity |].
      split; [| discriminate]. simpl in Hw. cbn [Kunai.ce_timestamp]. lia.
    + rewrite lookup_insert_ne by assumption. eauto.
  - simpl. eauto.
  - rewrite cacheCleanup_lookup, He.
    destruct (now env - Kunai.ce_timestamp e >? Kunai.CACHE_RETENTION) eqn:Hold.
    + exfalso. rewrite Z.gtb_ltb in Hold. apply Z.ltb_lt in Hold.
      apply Z.leb_le in Hw. lia.
    + eauto.
  - eauto.
  - apply negb_true_iff in Hw. rewrite transfer_confirmed_other by assumption. eauto.
Qed.

Lemma run_retains (trace : list (Env * Kunai.Op)) (this : Kunai.Kunai) (fileId : string)
    (created : Z) (e : Kunai.CacheEntry) :
  forallb (Kunai.within_retention fileId created) trace = true ->
  Kunai.chunkCache this !! fileId = Some e -> created <= Kunai.ce_timestamp e ->
  exists e', Kunai.chunkCache (Kunai.run this trace) !! fileId = Some e'
             /\ created <= Kunai.ce_timestamp e'
             /\ (forallb (fun eo => negb (Kunai.redraws fileId eo)) trace = true -> e' = e).
Proof.
  revert this e; induction trace as [|[env op] trace IH]; intros this e Hw He Ht.
  - exists e. auto.
  - cbn [forallb] in Hw. apply andb_true_iff in Hw as [Hw1 Hw].
    destruct (step_retains this env op fileId created e Hw1 He Ht) as (e1 & He1 & Ht1 & Hsame).
    destruct (IH _ e1 Hw He1 Ht1) as (e' & He' & Ht' & Hsame').
    exists e'. split; [exact He' |]. split; [exact Ht' |].
    cbn [forallb]. intros [Hr Hrest]%andb_true_iff. apply negb_true_iff in Hr.
    rewrite (Hsame' Hrest). auto.
Qed.

(** C5 (as amended). A cache entry stays in the cache through every run of
    the sender in which, up to the retention time of five minutes after its
    creation, no [transfer-confirmed] request names its [fileId]; it is the
    very entry unless a later [sendFile] draws the same transfer code, which
    puts a newer entry in its place.  The sweeper
    evicts an entry exactly when [now - timestamp] exceeds the retention
    time, and [transfer-confirmed] deletes the entry of the given [fileId],
    that one only, and replies [{success: true}]. *)
Theorem C5_cache_retention (this : Kunai.Kunai) (trace : list (Env * Kunai.Op))
    (fileId : string) (entry : Kunai.CacheEntry) :
  Kunai.chunkCache this !! fileId = Some entry ->
  forallb (Kunai.within_retention fileId (Kunai.ce_timestamp entry)) trace = true ->
  (exists e', Kunai.chunkCache (Kunai.run this trace) !! fileId = Some e'
              /\ Kunai.ce_timestamp entry <= Kunai.ce_timestamp e'
              /\ (forallb (fun eo => negb (Kunai.redraws fileId eo)) trace = true ->
                  e' = entry))
  /\ (forall (k : Kunai.Kunai) (env : Env) (f : string),
        Kunai.chunkCache (Kunai.cacheCleanup k env) !! f
        = match Kunai.chunkCache k !! f with
          | Some e => if now env - Kunai.ce_timestamp e >? Kunai.CACHE_RETENTION
                      then None else Some e
          | None => None
          end)
  /\ (forall (k : Kunai.Kunai) (address f : string),
        Kunai.transfer_confirmed k address (JObj [("fileId", JStr f)])
        = (Kunai.set_chunkCache (delete f) k, Some (JObj [("success", JBool true)]))
        /\ forall g, Kunai.chunkCache (Kunai.set_chunkCache (delete f) k) !! g
                     = if decide (f = g) then None else Kunai.chunkCache k !! g)
  /\ Kunai.CACHE_RETENTION = 5 * 60 * 1000
  /\ Kunai.CACHE_CLEANUP_INTERVAL = 60 * 1000.
Proof.
  intros He Hw. split; [| split; [| split; [| split]]].
  - apply (run_retains trace this fileId _ entry Hw He). lia.
  - apply cacheCleanup_lookup.
  - intros k address f. split; [reflexivity |].
    intros g. cbn [Kunai.chunkCache Kunai.set_chunkCache]. apply lookup_delete.
  - reflexivity.
  - reflexivity.
Qed.

Lemma step_cache_ok (this : Kunai.Kunai) (env : Env) (op : Kunai.Op) :
  Kunai.cache_ok this -> Kunai.cache_ok (Kunai.step this env op).
Proof.
  intros Hok f e i c. destruct op as [clock file [data|] | | address args | address args];
    cbn [Kunai.step].
  - unfold Kunai.sendFile. cbn [fst Kunai.chunkCache Kunai.set_chunkCache
                                 Kunai.set_chunks Kunai.set_files].
    destruct (decide (transferCode env = f)) as [<- | Hne].
    + rewrite lookup_insert_eq. intros [= <-]. cbn [Kunai.ce_chunks].
      apply upload_chunks_nonempty.
    + rewrite lookup_insert_ne by assumption. apply Hok.
  - apply Hok.
  - rewrite cacheCleanup_lookup. destruct (Kunai.chunkCache this !! f) as [e0|] eqn:He0;
      [| discriminate].
    destruct (_ >? _); [discriminate |]. intros [= <-]. now apply (Hok f e0).
  - apply Hok.
  - unfold Kunai.transfer_confirmed.
    destruct args as [| | | | |fields]; try apply Hok.
    destruct (get "fileId" fields) as [[| | |g| |]|]; try apply Hok.
    cbn [fst Kunai.chunkCache Kunai.set_chunkCache].
    intros [_ H]%lookup_delete_Some. now apply (Hok f e).
Qed.

Lemma reachable_cache_ok (this : Kunai.Kunai) : Kunai.reachable this -> Kunai.cache_ok this.
Proof.
  intros (b & opts & trace & ->). unfold Kunai.run.
  assert (H0 : Kunai.cache_ok (Kunai.new b opts)).
  { intros f e i c H. simpl in H. now rewrite lookup_empty in H. }
  revert H0. generalize (Kunai.new b opts). induction trace as [|[env op] trace IH];
    intros k Hk; [exact Hk |].
  simpl. apply IH. now apply step_cache_ok.
Qed.

Lemma chunk_replies (cached : Kunai.CacheEntry) (missingChunks : list Z) :
  (forall i c, Kunai.ce_chunks cached !! i = Some c -> c <> "") ->
  omap (Kunai.chunk_reply cached) (map JNum missingChunks)
  = omap (fun index => (fun data => JObj [("index", JNum index); ("data", JStr data)])
                         <$> Kunai.ce_chunks cached !! index) missingChunks.
Proof.
  intros Hok. induction missingChunks as [|i l IH]; [reflexivity |].
  cbn [map omap list_omap]. rewrite <- IH. unfold Kunai.chunk_reply at 1.
  destruct (Kunai.ce_chunks cached !! i) as [c|] eqn:Hc; [| reflexivity].
  apply Hok in Hc. apply String.eqb_neq in Hc. now rewrite Hc.
Qed.

(** C6. The handler of [request-chunks] replies
    [{success: false, error: "File not in cache"}] when the cache has no
    entry for the file, and otherwise [{success: true, fileId, chunks}],
    where [chunks] lists, in the order of the request, one [{index, data}]
    for every requested index that the cached chunk map holds, and nothing
    else. *)
Theorem C6_request_chunks (this : Kunai.Kunai) (address fileId : string)
    (missingChunks : list Z) :
  Kunai.reachable this ->
  Kunai.request_chunks this address
    (JObj [("fileId", JStr fileId); ("missingChunks", JArr (map JNum missingChunks))])
  = match Kunai.chunkCache this !! fileId with
    | None => Some (JObj [("success", JBool false); ("error", JStr "File not in cache")])
    | Some cached =>
        Some (JObj [("success", JBool true); ("fileId", JStr fileId);
                    ("chunks",
                     JArr (omap (fun index =>
                                   (fun data => JObj [("index", JNum index);
                                                      ("data", JStr data)])
                                     <$> Kunai.ce_chunks cached !! index)
                                missingChunks))])
    end.
Proof.
  intros Hreach. pose proof (reachable_cache_ok this Hreach) as Hok.
  unfold Kunai.request_chunks.
  change (get "fileId" _) with (Some (JStr fileId)).
  change (get "missingChunks" _) with (Some (JArr (map JNum missingChunks))).
  cbv iota beta.
  destruct (Kunai.chunkCache this !! fileId) as [cached|] eqn:Hc; [| reflexivity].
  rewrite chunk_replies; [reflexivity |]. intros i c. apply (Hok fileId cached i c Hc).
Qed.
End KunaiCache.

(** ** Yumi: the seen set *)

Section YumiSeen.
Context {P : Platform}.

Lemma seen_ext_refl env b : Yumi.seen_ext env b b.
Proof. intros k. now left. Qed.

Lemma seen_ext_trans env b1 b2 b3 :
  Yumi.seen_ext env b1 b2 -> Yumi.seen_ext env b2 b3 -> Yumi.seen_ext env b1 b3.
Proof.
  intros H12 H23 k. destruct (H23 k) as [-> | ->]; [apply H12 | now right].
Qed.

Lemma seen_ext_same env b b' : Yumi.seen b' = Yumi.seen b -> Yumi.seen_ext env b b'.
Proof. intros H k. rewrite H. now left. Qed.

Lemma seen_ext_insert env b b' h :
  Yumi.seen b' = <[h := now env]> (Yumi.seen b) -> Yumi.seen_ext env b b'.
Proof.
  intros H k. rewrite H. destruct (decide (h = k)) as [->|Hne].
  - right. apply lookup_insert_eq.
  - left. now apply lookup_insert_ne.
Qed.

Lemma sendRaw_seen env b message : Yumi.seen_ext env b (Yumi.sendRaw b env message).
Proof. eapply seen_ext_insert. reflexivity. Qed.

Lemma makeEncryptSendPacket_seen env b pk params :
  Yumi.seen_ext env b (fst (Yumi.makeEncryptSendPacket b env pk params)).
Proof.
  unfold Yumi.makeEncryptSendPacket. case_match; simpl.
  - apply sendRaw_seen.
  - apply seen_ext_refl.
Qed.

Lemma sawPeer_seen env b pk ek id :
  Yumi.seen (fst (Yumi.sawPeer b env pk ek id)) = Yumi.seen b.
Proof.
  unfold Yumi.sawPeer, Yumi._updateConnections. repeat case_match; reflexivity.
Qed.

Ltac seen_solve :=
  first [ apply seen_ext_refl
        | apply seen_ext_same; reflexivity
        | eapply seen_ext_insert; reflexivity
        | apply makeEncryptSendPacket_seen ].

Lemma dispatch_seen env b id packet pk :
  Yumi.seen_ext env b (fst (Yumi.dispatch b id env packet pk)).
Proof. unfold Yumi.dispatch, Yumi.rpcCall. repeat case_match; simpl; seen_solve. Qed.

Lemma processSigned_seen env b id signedPkt :
  Yumi.seen_ext env b (fst (Yumi.processSigned b id env signedPkt)).
Proof.
  unfold Yumi.processSigned. repeat case_match; simpl; try seen_solve.
  eapply seen_ext_trans; [| apply dispatch_seen].
  apply seen_ext_same. apply sawPeer_seen.
Qed.

Lemma onMessage_seen env b id message :
  Yumi.seen_ext env b (fst (Yumi.onMessage b id env message)).
Proof.
  unfold Yumi.onMessage. repeat case_match; simpl; try seen_solve.
  eapply seen_ext_trans; [| apply processSigned_seen]. seen_solve.
Qed.

Lemma step_seen env b op : Yumi.seen_ext env b (fst (Yumi.step b env op)).
Proof.
  destruct op; simpl.
  - unfold Yumi.messageListener. repeat case_match; simpl; try seen_solve.
    apply onMessage_seen.
  - unfold Yumi.presenceListener, Yumi._updateConnections.
    repeat case_match; simpl; seen_solve.
  - seen_solve.
  - unfold Yumi.heartbeat, Yumi._updateConnections. repeat case_match; simpl; seen_solve.
  - seen_solve.
  - unfold Yumi.send. repeat case_match; simpl; seen_solve.
  - unfold Yumi.rpc. repeat case_match; simpl; try seen_solve.
    all: match goal with
         | |- Yumi.seen_ext _ ?b (fst (Yumi.makeEncryptSendPacket ?b' _ _ _)) =>
             apply (seen_ext_trans _ b b'); [seen_solve | apply makeEncryptSendPacket_seen]
         end.
  - seen_solve.
  - seen_solve.
  - seen_solve.
Qed.

Lemma truthy_num_ext env b b' k :
  now env <> 0 -> Yumi.seen_ext env b b' ->
  truthy_num (Yumi.seen b !! k) = true -> truthy_num (Yumi.seen b' !! k) = true.
Proof.
  intros Hnow Hext Ht. destruct (Hext k) as [-> | ->]; [assumption |].
  simpl. now apply negb_true_iff, Z.eqb_neq.
Qed.

(** The first receipt of a packet puts its hash into the seen set. *)
Lemma onMessage_first env b id message :
  truthy_num (Yumi.seen b !! Yumi.packet_hash message) = false ->
  Yumi.seen (fst (Yumi.onMessage b id env message)) !! Yumi.packet_hash message
  = Some (now env).
Proof.
  intros Hnew.
  assert (Hext : forall b', Yumi.seen_ext env (Yumi.set_seen (insert (Yumi.packet_hash message) (now env)) b) b' ->
                            Yumi.seen b' !! Yumi.packet_hash message = Some (now env)).
  { intros b' Hext. destruct (Hext (Yumi.packet_hash message)) as [-> | ->]; [| reflexivity].
    simpl. apply lookup_insert_eq. }
  unfold Yumi.onMessage. rewrite Hnew.
  repeat case_match; simpl; try apply lookup_insert_eq.
  apply Hext. apply processSigned_seen.
Qed.

(** A packet whose hash is in the seen set is dropped: nothing changes and
    nothing is emitted. *)
Lemma onMessage_seen_drop env b id message :
  truthy_num (Yumi.seen b !! Yumi.packet_hash message) = true ->
  Yumi.onMessage b id env message = (b, []).
Proof. intros H. unfold Yumi.onMessage. now rewrite H. Qed.

Lemma receives_step h b env op :
  Yumi.receives h op = true ->
  exists message, Yumi.packet_hash message = h
                  /\ Yumi.step b env op = Yumi.onMessage b (Yumi.identifier b) env message.
Proof.
  destruct op as [[data|] | | | | | | | | |]; simpl; try discriminate.
  intros H. apply andb_true_iff in H as [H Hh]. apply String.eqb_eq in Hh.
  exists (fromBase64 (Yumi.md_m data)). split; [assumption |].
  unfold Yumi.messageListener. now rewrite H.
Qed.

Lemma run_seen_none (h : string) (trace : list (Env * Yumi.Op)) (b0 : Yumi.Yumi) :
  Forall (fun eo => now (fst eo) <> 0) trace ->
  truthy_num (Yumi.seen b0 !! h) = true ->
  List.filter (Yumi.processed h) (snd (Yumi.run b0 trace)) = [].
Proof.
  revert b0; induction trace as [|[env op] trace IH]; intros b0 Hnow Hseen; [reflexivity |].
  inversion Hnow as [|? ? Hn Hrest]; subst. simpl in Hn.
  cbn [Yumi.run snd List.filter]. unfold Yumi.processed at 1. cbn [fst snd].
  rewrite Hseen, andb_false_r. apply IH; [assumption |].
  eapply truthy_num_ext; [exact Hn | apply step_seen | exact Hseen].
Qed.

Lemma run_entries (trace : list (Env * Yumi.Op)) (b0 bugout : Yumi.Yumi) (env : Env)
    (op : Yumi.Op) (events : list Yumi.Event) :
  In (bugout, env, op, events) (snd (Yumi.run b0 trace)) ->
  In (env, op) trace /\ events = snd (Yumi.step bugout env op).
Proof.
  revert b0; induction trace as [|[env' op'] trace IH]; intros b0; simpl; [intros [] |].
  intros [[= <- <- <- <-] | Hin].
  - auto.
  - destruct (IH _ Hin). auto.
Qed.

(** C2. In every run of a channel, of all the receipts of byte strings with
    one hash at most one gets past the seen set; that receipt puts the hash
    into the seen set, and every other one is dropped before anything is
    parsed: the state is unchanged and nothing is emitted. *)
Theorem C2_delivered_at_most_once (b0 : Yumi.Yumi) (trace : list (Env * Yumi.Op))
    (h : string) :
  Forall (fun eo => now (fst eo) <> 0) trace ->
  (length (List.filter (Yumi.processed h) (snd (Yumi.run b0 trace))) <= 1)%nat
  /\ (forall bugout env op events,
        In (bugout, env, op, events) (snd (Yumi.run b0 trace)) ->
        Yumi.receives h op = true ->
        (truthy_num (Yumi.seen bugout !! h) = false ->
           Yumi.seen (fst (Yumi.step bugout env op)) !! h = Some (now env))
        /\ (truthy_num (Yumi.seen bugout !! h) = true ->
              Yumi.step bugout env op = (bugout, []) /\ events = [])).
Proof.
  intros Hnow. split.
  - revert b0; induction trace as [|[env op] trace IH]; intros b0; [simpl; lia |].
    inversion Hnow as [|? ? Hn Hrest]; subst. simpl in Hn.
    cbn [Yumi.run snd List.filter].
    destruct (Yumi.processed h _) eqn:Hp; [| now apply IH].
    unfold Yumi.processed in Hp. cbn [fst snd] in Hp.
    apply andb_true_iff in Hp as [Hr Hs]. apply negb_true_iff in Hs.
    destruct (receives_step h b0 env op Hr) as (message & <- & Hstep).
    rewrite run_seen_none; [simpl; lia | assumption |].
    rewrite Hstep, onMessage_first by assumption.
    simpl. now apply negb_true_iff, Z.eqb_neq.
  - intros bugout env op events Hin Hr.
    destruct (run_entries _ _ _ _ _ _ Hin) as [_ ->].
    destruct (receives_step h bugout env op Hr) as (message & <- & Hstep).
    rewrite Hstep. split.
    + apply onMessage_first.
    + intros Hs. now rewrite onMessage_seen_drop.
Qed.

End YumiSeen.

(** ** Yumi: the checks of a received packet *)

Section YumiChecks.
Context {P : Platform}.

Lemma checktime_stale (t timeout now : Z) :
  t + timeout < now -> Yumi.checktime (Some (JNum t)) timeout now = false.
Proof. intros H. simpl. rewrite Z.gtb_ltb. apply Z.ltb_ge. lia. Qed.

(** C8. A received packet whose signed payload carries an identifier [i]
    other than the channel's, or a time [t] with [t + timeout < now], is
    discarded: [onMessage] emits nothing and changes nothing but the seen
    set, so the peer table, the callbacks, the server address and the
    stored messages are as before.  A packet whose [t] is [timeout + 1] ms
    in the past is such a packet. *)
Theorem C8_bad_packet_discarded (bugout : Yumi.Yumi) (identifier : string) (env : Env)
    (message : list byte) (packet : list (string * json)) :
  Yumi.payload_of bugout message = Some packet ->
  Yumi.is_str (get "i" packet) identifier = false
  \/ (exists t, get "t" packet = Some (JNum t) /\ t + Yumi.timeout bugout < now env)
  \/ get "t" packet = Some (JNum (now env - (Yumi.timeout bugout + 1))) ->
  Yumi.onMessage bugout identifier env message = (Yumi.dropped bugout env message, [])
  /\ Yumi.peers (Yumi.dropped bugout env message) = Yumi.peers bugout
  /\ Yumi.callbacks (Yumi.dropped bugout env message) = Yumi.callbacks bugout
  /\ Yumi.serveraddress (Yumi.dropped bugout env message) = Yumi.serveraddress bugout
  /\ Yumi.lastpeercount (Yumi.dropped bugout env message) = Yumi.lastpeercount bugout
  /\ Yumi.messages (Yumi.dropped bugout env message) = Yumi.messages bugout.
Proof.
  intros Hpay Hbad.
  assert (Hchk : Yumi.is_str (get "i" packet) identifier
                 && Yumi.checktime (get "t" packet) (Yumi.timeout bugout) (now env) = false).
  { destruct Hbad as [Hid | [(t & Ht & Hlt) | Ht]].
    - now rewrite Hid.
    - rewrite Ht, checktime_stale by assumption. apply andb_false_r.
    - rewrite Ht, checktime_stale by lia. apply andb_false_r. }
  split.
  - unfold Yumi.onMessage, Yumi.dropped. unfold Yumi.payload_of in Hpay.
    destruct (truthy_num _); [reflexivity |].
    destruct (JSON_parse (toString message)) as [unpacked|]; [| discriminate].
    change (Yumi.decrypt (Yumi.set_seen _ bugout) unpacked)
      with (Yumi.decrypt bugout unpacked).
    destruct (Yumi.decrypt bugout unpacked) as [[| | | | |signedPkt]|]; try discriminate.
    destruct (has "p" signedPkt); [| reflexivity].
    unfold Yumi.processSigned.
    destruct (get "p" signedPkt) as [[| | |p| |]|]; try discriminate.
    destruct (JSON_parse p) as [[| | | | |packet']|]; try discriminate.
    injection Hpay as ->.
    destruct (get "s" signedPkt) as [[| | |s| |]|]; try reflexivity.
    destruct (get "pk" packet) as [[| | |pk| |]|]; try reflexivity.
    unfold Yumi.checks.
    destruct (bs58_decode pk); [| reflexivity].
    destruct (nacl_sign_detached_verify _ _ _) as [checksig|]; [| reflexivity].
    cbn [Yumi.timeout Yumi.set_seen].
    rewrite <- andb_assoc, Hchk, andb_false_r. reflexivity.
  - unfold Yumi.dropped. destruct (truthy_num _); auto.
Qed.
End YumiChecks.

(** ** Yumi: the peer table, [send] and [rpc] *)

Section YumiPeers.
Context {P : Platform}.

Lemma address_keys (b b' : Yumi.Yumi) (pk : option string) :
  Yumi.keyPair_publicKey b' = Yumi.keyPair_publicKey b ->
  Yumi.address b' pk = Yumi.address b pk.
Proof. intros H. unfold Yumi.address. now rewrite H. Qed.

Lemma peers_step_refl b : Yumi.peers_step b b.
Proof. split; [reflexivity |]. intros a peer H. left. eauto. Qed.

Lemma peers_step_same b b' :
  Yumi.keyPair_publicKey b' = Yumi.keyPair_publicKey b ->
  Yumi.peers b' = Yumi.peers b -> Yumi.peers_step b b'.
Proof. intros Hk Hp. split; [assumption |]. intros a peer H. left. rewrite Hp in H. eauto. Qed.

Lemma peers_step_trans b1 b2 b3 :
  Yumi.peers_step b1 b2 -> Yumi.peers_step b2 b3 -> Yumi.peers_step b1 b3.
Proof.
  intros [Hk12 H12] [Hk23 H23]. split; [congruence |].
  intros a peer H. destruct (H23 a peer H) as [(peer0 & H0 & Hpk) | Ha].
  - destruct (H12 a peer0 H0) as [(peer1 & H1 & Hpk1) | Ha1].
    + left. exists peer1. split; [assumption | congruence].
    + right. now rewrite <- Hpk.
  - right. now rewrite <- (address_keys b1 b2).
Qed.

Lemma peers_step_keyed b b' :
  Yumi.peers_step b b' -> Yumi.peers_keyed b -> Yumi.peers_keyed b'.
Proof.
  intros [Hk Hs] Hb a peer H. rewrite (address_keys b b') by assumption.
  destruct (Hs a peer H) as [(peer0 & H0 & Hpk) | Ha]; [| assumption].
  rewrite <- Hpk. now apply Hb.
Qed.

(** Deleting and re-inserting under the address of the signing key. *)
Lemma peers_step_insert b b' a peer :
  Yumi.keyPair_publicKey b' = Yumi.keyPair_publicKey b ->
  Yumi.peers b' = <[a := peer]> (Yumi.peers b) ->
  (Yumi.address b (Some (Yumi.peer_pk peer)) = a
   \/ exists peer0, Yumi.peers b !! a = Some peer0 /\ Yumi.peer_pk peer0 = Yumi.peer_pk peer) ->
  Yumi.peers_step b b'.
Proof.
  intros Hk Hp Ha. split; [assumption |]. intros a' peer' H. rewrite Hp in H.
  destruct (decide (a = a')) as [<- | Hne].
  - rewrite lookup_insert_eq in H. injection H as <-. destruct Ha as [Ha | Ha]; auto.
  - rewrite lookup_insert_ne in H by assumption. left. eauto.
Qed.

Lemma peers_step_delete b b' a :
  Yumi.keyPair_publicKey b' = Yumi.keyPair_publicKey b ->
  Yumi.peers b' = delete a (Yumi.peers b) -> Yumi.peers_step b b'.
Proof.
  intros Hk Hp. split; [assumption |]. intros a' peer' H. rewrite Hp in H.
  apply lookup_delete_Some in H as [_ H]. left. eauto.
Qed.

Lemma sendRaw_peers b env message : Yumi.peers_step b (Yumi.sendRaw b env message).
Proof. apply peers_step_same; reflexivity. Qed.

Lemma makeEncryptSendPacket_peers b env pk params :
  Yumi.peers_step b (fst (Yumi.makeEncryptSendPacket b env pk params)).
Proof.
  unfold Yumi.makeEncryptSendPacket. case_match; apply peers_step_same; reflexivity.
Qed.

Lemma sawPeer_peers b env pk ek id : Yumi.peers_step b (fst (Yumi.sawPeer b env pk ek id)).
Proof.
  unfold Yumi.sawPeer, Yumi._updateConnections.
  repeat case_match; cbn [fst snd];
    first [ apply peers_step_refl
          | eapply peers_step_insert; [reflexivity | reflexivity | left; reflexivity]
          | eapply peers_step_insert; [reflexivity | reflexivity | right; eauto] ].
Qed.

Lemma dispatch_peers b id env packet pk :
  Yumi.peers_step b (fst (Yumi.dispatch b id env packet pk)).
Proof.
  unfold Yumi.dispatch, Yumi.rpcCall.
  repeat case_match; cbn [fst snd];
    first [ apply peers_step_refl
          | apply peers_step_same; reflexivity
          | apply makeEncryptSendPacket_peers
          | eapply peers_step_delete; reflexivity ].
Qed.

Lemma processSigned_peers b id env signedPkt :
  Yumi.peers_step b (fst (Yumi.processSigned b id env signedPkt)).
Proof.
  unfold Yumi.processSigned. repeat case_match; cbn [fst snd]; try apply peers_step_refl.
  eapply peers_step_trans; [apply sawPeer_peers | apply dispatch_peers].
Qed.

Lemma onMessage_peers b id env message :
  Yumi.peers_step b (fst (Yumi.onMessage b id env message)).
Proof.
  unfold Yumi.onMessage. repeat case_match; cbn [fst snd];
    try apply peers_step_refl; try (apply peers_step_same; reflexivity).
  eapply peers_step_trans; [| apply processSigned_peers]. apply peers_step_same; reflexivity.
Qed.

Lemma lookup_foldr_delete (l : list (string * Yumi.PeerInfo)) (m : gmap string Yumi.PeerInfo)
    (a : string) (peer : Yumi.PeerInfo) :
  foldr (fun p m => delete (fst p) m) m l !! a = Some peer -> m !! a = Some peer.
Proof.
  induction l as [|x l IH]; simpl; [auto |].
  intros H. apply lookup_delete_Some in H as [_ H]. auto.
Qed.

Lemma step_peers b env op : Yumi.peers_step b (fst (Yumi.step b env op)).
Proof.
  destruct op; cbn [Yumi.step fst snd].
  - unfold Yumi.messageListener. repeat case_match; try apply peers_step_refl.
    apply onMessage_peers.
  - unfold Yumi.presenceListener, Yumi._updateConnections.
    repeat case_match; cbn [fst snd];
      first [ apply peers_step_refl
            | eapply peers_step_insert; [reflexivity | reflexivity | left; reflexivity] ].
  - apply peers_step_same; reflexivity.
  - unfold Yumi.heartbeat, Yumi._updateConnections.
    repeat case_match; cbn [fst snd].
    all: split; [reflexivity |]; intros a peer Hin; left; exists peer; split; [| reflexivity];
      simpl in Hin; now apply lookup_foldr_delete in Hin.
  - apply peers_step_same; reflexivity.
  - unfold Yumi.send. repeat case_match; cbn [fst];
      first [apply peers_step_refl | apply peers_step_same; reflexivity].
  - unfold Yumi.rpc. repeat case_match; cbn [fst]; try apply peers_step_refl.
    all: eapply peers_step_trans; [| apply makeEncryptSendPacket_peers];
      apply peers_step_same; reflexivity.
  - apply peers_step_same; reflexivity.
  - apply makeEncryptSendPacket_peers.
  - apply peers_step_same; reflexivity.
Qed.

Lemma run_peers_keyed (trace : list (Env * Yumi.Op)) (b : Yumi.Yumi) :
  Yumi.peers_keyed b -> Yumi.peers_keyed (fst (Yumi.run b trace)).
Proof.
  revert b; induction trace as [|[env op] trace IH]; intros b Hb; [exact Hb |].
  cbn [Yumi.run fst]. apply IH. eapply peers_step_keyed; [apply step_peers | exact Hb].
Qed.

Lemma reachable_peers_keyed (b : Yumi.Yumi) : Yumi.reachable b -> Yumi.peers_keyed b.
Proof.
  intros (identifier & t & pk & sk & bpk & bsk & trace & ->).
  apply run_peers_keyed. intros a peer H. simpl in H. now rewrite lookup_empty in H.
Qed.

Lemma peer_pk_of_missing (b : Yumi.Yumi) (a : string) :
  Yumi.peers b !! a = None -> inherited a = false -> Yumi.peer_pk_of b a = None.
Proof. intros H1 H2. unfold Yumi.peer_pk_of, property_of. now rewrite H1, H2. Qed.

Lemma peer_pk_of_inherited (b : Yumi.Yumi) (a : string) :
  Yumi.peers b !! a = None -> inherited a = true -> Yumi.peer_pk_of b a = Some None.
Proof. intros H1 H2. unfold Yumi.peer_pk_of, property_of. now rewrite H1, H2. Qed.

Lemma peer_pk_of_own (b : Yumi.Yumi) (a : string) (peer : Yumi.PeerInfo) :
  Yumi.peers b !! a = Some peer -> Yumi.peer_pk_of b a = Some (Some (Yumi.peer_pk peer)).
Proof. intros H. unfold Yumi.peer_pk_of, property_of. now rewrite H. Qed.

Lemma encryptPacket_undefined (b : Yumi.Yumi) (env : Env) (packet : string) :
  Yumi.peers b !! Yumi.address b None = None ->
  Yumi.encryptPacket b env None packet
  = Throw (NotSeenNoEncryptionKey (Yumi.address b None)).
Proof. intros H. unfold Yumi.encryptPacket. now rewrite H. Qed.

Lemma encryptPacket_known (b : Yumi.Yumi) (env : Env) (a : string) (peer : Yumi.PeerInfo)
    (packet : string) (e : Error) :
  Yumi.peers_keyed b -> Yumi.peers b !! a = Some peer ->
  Yumi.encryptPacket b env (Some (Yumi.peer_pk peer)) packet = Throw e ->
  UnknownPeer e = false.
Proof.
  intros Hk Ha. unfold Yumi.encryptPacket. rewrite (Hk a peer Ha), Ha.
  repeat case_match; intros [= <-]; reflexivity.
Qed.

(** ** The key of a packet *)

Lemma toHex_length (arr : list byte) :
  String.length (toHex arr) = (2 * length arr)%nat.
Proof. induction arr as [|b arr IH]; simpl; [reflexivity | rewrite IH; lia]. Qed.

(** C3 (as amended). The key under which [sendRaw] stores a packet and marks
    it seen, and the key under which [onMessage] looks the received bytes up
    and marks them seen, are the same: the hexadecimal form of the bytes 16
    to 63 of the SHA-512 of the packet bytes, 48 bytes. *)
Theorem C3_hash_key (sender receiver : Yumi.Yumi) (env env' : Env) (packet : string) :
  (forall m, length (nacl_hash m) = 64%nat) ->
  fromBase64 (toBase64 (toBuffer packet)) = toBuffer packet ->
  toBase64 (toBuffer packet) <> "" ->
  now env <> 0 ->
  let k := toHex (drop 16 (nacl_hash (toBuffer packet))) in
  let sent := Yumi.sendRaw sender env packet in
  let data := {| Yumi.md_m := toBase64 (toBuffer packet); Yumi.md_t := now env;
                 Yumi.md_k := k |} in
  length (drop 16 (nacl_hash (toBuffer packet))) = 48%nat
  /\ String.length k = 96%nat
  /\ Yumi.messages sent !! k = Some data
  /\ Yumi.seen sent !! k = Some (now env)
  /\ Yumi.receives k (Yumi.OpMessage (Some data)) = true
  /\ (truthy_num (Yumi.seen receiver !! k) = false ->
        Yumi.seen (fst (Yumi.messageListener receiver env' (Some data))) !! k
        = Some (now env'))
  /\ (truthy_num (Yumi.seen receiver !! k) = true ->
        Yumi.messageListener receiver env' (Some data) = (receiver, [])).
Proof.
  intros Hlen Hb64 Hm Hnow k sent data.
  assert (H48 : length (drop 16 (nacl_hash (toBuffer packet))) = 48%nat).
  { rewrite length_drop, Hlen. reflexivity. }
  assert (Hrecv : Yumi.receives k (Yumi.OpMessage (Some data)) = true).
  { unfold Yumi.receives. cbn [Yumi.md_m Yumi.md_t data].
    rewrite Hb64. unfold Yumi.packet_hash. fold k. rewrite String.eqb_refl, andb_true_r.
    apply andb_true_iff. split; apply negb_true_iff.
    - now apply String.eqb_neq.
    - now apply Z.eqb_neq. }
  assert (Hlisten : Yumi.messageListener receiver env' (Some data)
                    = Yumi.onMessage receiver (Yumi.identifier receiver) env' (toBuffer packet)).
  { unfold Yumi.messageListener. unfold Yumi.receives in Hrecv.
    apply andb_true_iff in Hrecv as [-> _]. cbn [Yumi.md_m data]. now rewrite Hb64. }
  split; [exact H48 |].
  split; [unfold k; rewrite toHex_length, H48; reflexivity |].
  split; [apply lookup_insert_eq |].
  split; [apply lookup_insert_eq |].
  split; [exact Hrecv |].
  rewrite Hlisten. split.
  - apply (onMessage_first env' receiver _ (toBuffer packet)).
  - apply (onMessage_seen_drop env' receiver _ (toBuffer packet)).
Qed.
End YumiPeers.

(** ** Yumi: pending callbacks *)

Section YumiRpc.
Context {P : Platform}.

Lemma cb_effect_none env b b' evs :
  Yumi.callbacks b' = Yumi.callbacks b -> (forall k, Yumi.invocations k evs = []) ->
  Yumi.cb_effect env b b' evs.
Proof. intros. left. auto. Qed.

Lemma invocations_app k evs1 evs2 :
  Yumi.invocations k (evs1 ++ evs2) = Yumi.invocations k evs1 ++ Yumi.invocations k evs2.
Proof. apply List.filter_app. Qed.

Lemma makeEncryptSendPacket_callbacks b env pk params :
  Yumi.callbacks (fst (Yumi.makeEncryptSendPacket b env pk params)) = Yumi.callbacks b.
Proof. unfold Yumi.makeEncryptSendPacket. case_match; reflexivity. Qed.

Lemma sawPeer_callbacks b env pk ek id :
  Yumi.callbacks (fst (Yumi.sawPeer b env pk ek id)) = Yumi.callbacks b
  /\ forall k, Yumi.invocations k (snd (Yumi.sawPeer b env pk ek id)) = [].
Proof.
  unfold Yumi.sawPeer, Yumi._updateConnections. repeat case_match; simpl; auto.
Qed.

Lemma dispatch_callbacks b id env packet pk :
  Yumi.cb_effect env b (fst (Yumi.dispatch b id env packet pk))
                 (snd (Yumi.dispatch b id env packet pk)).
Proof.
  unfold Yumi.dispatch, Yumi.rpcCall, property_of.
  repeat case_match; cbn [fst snd];
    first [ solve [ apply cb_effect_none;
                    [ first [reflexivity | apply makeEncryptSendPacket_callbacks]
                    | reflexivity ] ]
          | idtac ].
  all: simplify_eq.
  all: right; eexists _, _, _; split; [eassumption |];
    split; [match goal with H : callback_raises _ = _ |- _ => rewrite H end; reflexivity |];
    intros k; simpl; now destruct (String.eqb _ k).
Qed.

Lemma processSigned_callbacks b id env signedPkt :
  Yumi.cb_effect env b (fst (Yumi.processSigned b id env signedPkt))
                 (snd (Yumi.processSigned b id env signedPkt)).
Proof.
  unfold Yumi.processSigned.
  repeat case_match; cbn [fst snd]; try (apply cb_effect_none; reflexivity).
  match goal with
  | |- context [Yumi.dispatch (fst (Yumi.sawPeer ?b ?env ?pk ?ek ?id)) ?id' ?env' ?packet ?pk'] =>
      destruct (sawPeer_callbacks b env pk ek id) as [Hc Hi];
      destruct (dispatch_callbacks (fst (Yumi.sawPeer b env pk ek id)) id' env' packet pk')
        as [[Hd Hn] | (nonce & cb & r & Hl & Hd & Hn)]
  end.
  - left. split; [congruence |]. intros k. now rewrite invocations_app, Hi, Hn.
  - right. exists nonce, cb, r. rewrite <- Hc. repeat split; try assumption.
    intros k. now rewrite invocations_app, Hi, Hn.
Qed.

Lemma onMessage_callbacks b id env message :
  Yumi.cb_effect env b (fst (Yumi.onMessage b id env message))
                 (snd (Yumi.onMessage b id env message)).
Proof.
  unfold Yumi.onMessage.
  repeat case_match; cbn [fst snd]; try (apply cb_effect_none; reflexivity).
  match goal with
  | |- context [Yumi.processSigned ?b' ?id ?env ?s] =>
      destruct (processSigned_callbacks b' id env s)
        as [[Hd Hn] | (nonce & cb & r & Hl & Hd & Hn)]
  end.
  - left. auto.
  - right. exists nonce, cb, r. auto.
Qed.







Lemma is_str_rr (y : option json) :
  Yumi.is_str y "rr" = true -> Yumi.is_str y "m" = false /\ Yumi.is_str y "r" = false.
Proof.
  destruct y as [[| | |s| |]|]; simpl; try discriminate.
  intros ->%String.eqb_eq. split; reflexivity.
Qed.

End YumiRpc.

(** ** Yari: broadcast *)

Section YariBroadcast.
Context {P : Platform}.

Lemma directed_sends_app (a b : list Yari.Action) :
  Yari.directed_sends (a ++ b) = Yari.directed_sends a ++ Yari.directed_sends b.
Proof. apply List.filter_app. Qed.

(** One iteration of the broadcast loop leaves the overlay as it is and
    calls [yumi.send] not once: the array it emits has three elements. *)
Lemma broadcast_one_no_send (y : Yari.Yari) (env : Env) (msg : option json)
    (peer : string * Yari.YariPeerInfo) :
  fst (Yari.broadcast_one y env msg peer) = y
  /\ Yari.directed_sends (snd (Yari.broadcast_one y env msg peer)) = [].
Proof.
  unfold Yari.broadcast_one.
  destruct (SEA_secret _ _) as [secret|]; [| split; reflexivity].
  destruct (SEA_encrypt _ _) as [enc|]; [| split; reflexivity].
  split; reflexivity.
Qed.

Lemma broadcast_fold (y : Yari.Yari) (env : Env) (msg : option json)
    (l : list (string * Yari.YariPeerInfo)) (acts : list Yari.Action) :
  let r := foldl (fun acc peer =>
                    let r := Yari.broadcast_one (fst acc) env msg peer in
                    (fst r, snd acc ++ snd r)) (y, acts) l in
  fst r = y /\ Yari.directed_sends (snd r) = Yari.directed_sends acts.
Proof.
  revert acts; induction l as [|peer l IH]; intros acts; [split; reflexivity |].
  cbn [foldl]. destruct (broadcast_one_no_send y env msg peer) as [Hy Hs].
  cbn [fst snd]. rewrite Hy.
  destruct (IH (acts ++ snd (Yari.broadcast_one y env msg peer))) as [IH1 IH2].
  split; [exact IH1 |]. cbv zeta in IH2. rewrite IH2, directed_sends_app, Hs.
  apply app_nil_r.
Qed.

(** C9 (what the code does). A broadcast of the overlay waits while the
    peer table is empty; with [k] peers in the table it makes no call of
    [yumi.send] at all, whatever [k] is: the listener of ['encoded'] takes
    arrays of two elements and [send] emits arrays of three. *)
Theorem C9_broadcast_sends_nothing (y : Yari.Yari) (env : Env) (value : json) :
  Yari.send y env (Some value) None
  = (if Z.of_nat (size (Yari.peers y)) =? 0 then None
     else Some (Yari.send_ready y env (Some value) None))
  /\ fst (fst (Yari.send_ready y env (Some value) None)) = y
  /\ Yari.directed_sends (snd (fst (Yari.send_ready y env (Some value) None))) = []
  /\ snd (Yari.send_ready y env (Some value) None) = Ok tt.
Proof.
  split; [reflexivity |].
  unfold Yari.send_ready. cbn [truthy_opt negb fst snd].
  destruct (broadcast_fold y env (Some value) (map_to_list (Yari.peers y)) []) as [H1 H2].
  repeat split; assumption.
Qed.
End YariBroadcast.

(** ** Yumi: what a received packet does *)

Section YumiReceive.
Context {P : Platform}.

Lemma signed_of_seen (f : gmap string Z -> gmap string Z) (b : Yumi.Yumi) (message : list byte) :
  Yumi.signed_of (Yumi.set_seen f b) message = Yumi.signed_of b message.
Proof. reflexivity. Qed.

Lemma authentic_has_p b id env message packet pk :
  Yumi.authentic b id env message = Some (packet, pk) ->
  exists signedPkt p s,
    Yumi.signed_of b message = Some signedPkt
    /\ get "p" signedPkt = Some (JStr p) /\ get "s" signedPkt = Some (JStr s)
    /\ JSON_parse p = Some (JObj packet) /\ get "pk" packet = Some (JStr pk)
    /\ Yumi.checks b id env s p pk packet = Some (true, true, true).
Proof.
  unfold Yumi.authentic. intros H.
  repeat case_match; try discriminate. simplify_eq. eauto 10.
Qed.

Lemma onMessage_authentic b id env message packet pk :
  truthy_num (Yumi.seen b !! Yumi.packet_hash message) = false ->
  Yumi.authentic b id env message = Some (packet, pk) ->
  Yumi.onMessage b id env message
  = let b' := Yumi.set_seen (insert (Yumi.packet_hash message) (now env)) b in
    let saw := Yumi.sawPeer b' env pk (get "ek" packet) id in
    let d := Yumi.dispatch (fst saw) id env packet pk in
    (fst d, snd saw ++ snd d).
Proof.
  intros Hseen Hauth.
  destruct (authentic_has_p _ _ _ _ _ _ Hauth) as (signedPkt & p & s & Hs & Hp & Hsig & Hparse & Hpk & Hchk).
  unfold Yumi.onMessage. rewrite Hseen.
  unfold Yumi.signed_of in Hs.
  destruct (JSON_parse (toString message)) as [unpacked|]; [|discriminate].
  change (Yumi.decrypt (Yumi.set_seen _ b) unpacked) with (Yumi.decrypt b unpacked).
  destruct (Yumi.decrypt b unpacked) as [[| | | | |fields]|]; try discriminate.
  simplify_eq.
  unfold has. rewrite Hp.
  unfold Yumi.processSigned. rewrite Hp, Hsig, Hparse, Hpk.
  change (Yumi.checks (Yumi.set_seen _ b) id env s p pk packet)
    with (Yumi.checks b id env s p pk packet).
  rewrite Hchk. reflexivity.
Qed.

Lemma onMessage_unauthentic b id env message :
  Yumi.authentic b id env message = None ->
  Yumi.onMessage b id env message = (Yumi.dropped b env message, []).
Proof.
  intros Hauth. unfold Yumi.onMessage, Yumi.dropped.
  destruct (truthy_num _); [reflexivity |].
  unfold Yumi.authentic, Yumi.signed_of in Hauth.
  destruct (JSON_parse (toString message)) as [unpacked|]; [|reflexivity].
  change (Yumi.decrypt (Yumi.set_seen _ b) unpacked) with (Yumi.decrypt b unpacked).
  destruct (Yumi.decrypt b unpacked) as [[| | | | |signedPkt]|]; try reflexivity.
  unfold has, Yumi.processSigned.
  destruct (get "p" signedPkt) as [[| | |p| |]|]; try reflexivity;
    destruct (get "s" signedPkt) as [[| | |s| |]|]; try reflexivity.
  destruct (JSON_parse p) as [[| | | | |packet]|]; try reflexivity.
  destruct (get "pk" packet) as [[| | |pk| |]|]; try reflexivity.
  change (Yumi.checks (Yumi.set_seen _ b) id env s p pk packet)
    with (Yumi.checks b id env s p pk packet).
  destruct (Yumi.checks b id env s p pk packet) as [[[[] []] []]|]; try reflexivity.
  discriminate.
Qed.


Lemma sawPeer_keys b env pk ek id :
  Yumi.keyPair_publicKey (fst (Yumi.sawPeer b env pk ek id)) = Yumi.keyPair_publicKey b.
Proof.
  unfold Yumi.sawPeer, Yumi._updateConnections. repeat case_match; reflexivity.
Qed.

Lemma sawPeer_no_message b env pk ek id :
  Yumi.messages_of (snd (Yumi.sawPeer b env pk ek id)) = [].
Proof.
  unfold Yumi.sawPeer, Yumi._updateConnections. repeat case_match; reflexivity.
Qed.

Lemma messages_of_app (a b : list Yumi.Event) :
  Yumi.messages_of (a ++ b) = Yumi.messages_of a ++ Yumi.messages_of b.
Proof. apply List.filter_app. Qed.

Lemma is_str_eq (v : option json) (s : string) : Yumi.is_str v s = true <-> v = Some (JStr s).
Proof.
  unfold Yumi.is_str. split.
  - destruct v as [[]|]; try discriminate. intros H. apply String.eqb_eq in H. now subst.
  - intros ->. apply String.eqb_refl.
Qed.

Lemma dispatch_messages b id env packet pk :
  Yumi.messages_of (snd (Yumi.dispatch b id env packet pk))
  = if Yumi.is_str (get "y" packet) "m" then
      match JSON_parse (Yumi.ToString_opt (get "v" packet)) with
      | Some m => if truthy m then [Yumi.EvMessage (Yumi.address b (Some pk)) m (JObj packet)]
                  else []
      | None => []
      end
    else [].
Proof.
  unfold Yumi.dispatch, Yumi.rpcCall. repeat case_match; reflexivity.
Qed.

Lemma message_event_inv (b : Yumi.Yumi) (id : string) (env : Env)
    (message : list byte) (a : string) (m pkt : json) :
  In (Yumi.EvMessage a m pkt) (snd (Yumi.onMessage b id env message)) ->
  exists signedPkt p s packet pk pkBytes,
    Yumi.signed_of b message = Some signedPkt
    /\ get "p" signedPkt = Some (JStr p) /\ get "s" signedPkt = Some (JStr s)
    /\ JSON_parse p = Some (JObj packet) /\ get "pk" packet = Some (JStr pk)
    /\ bs58_decode pk = Some pkBytes
    /\ nacl_sign_detached_verify (toBuffer p) (fromHex s) pkBytes = Some true
    /\ get "i" packet = Some (JStr id)
    /\ Yumi.checktime (get "t" packet) (Yumi.timeout b) (now env) = true
    /\ a = Yumi.address b (Some pk) /\ pkt = JObj packet
    /\ get "y" packet = Some (JStr "m")
    /\ JSON_parse (Yumi.ToString_opt (get "v" packet)) = Some m
    /\ truthy m = true.
Proof.
  intros Hin.
  destruct (Yumi.authentic b id env message) as [[packet pk]|] eqn:Hauth.
  2:{ rewrite (onMessage_unauthentic _ _ _ _ Hauth) in Hin. destruct Hin. }
  destruct (truthy_num (Yumi.seen b !! Yumi.packet_hash message)) eqn:Hseen.
  { unfold Yumi.onMessage in Hin. rewrite Hseen in Hin. destruct Hin. }
  rewrite (onMessage_authentic _ _ _ _ _ _ Hseen Hauth) in Hin. cbv zeta in Hin.
  destruct (authentic_has_p _ _ _ _ _ _ Hauth)
    as (signedPkt & p & s & Hs & Hp & Hsig & Hparse & Hpk & Hchk).
  assert (Hm : In (Yumi.EvMessage a m pkt)
                  (Yumi.messages_of
                     (snd (Yumi.dispatch
                             (fst (Yumi.sawPeer
                                     (Yumi.set_seen (insert (Yumi.packet_hash message) (now env)) b)
                                     env pk (get "ek" packet) id))
                             id env packet pk)))).
  { apply in_app_or in Hin. destruct Hin as [Hin | Hin].
    - assert (Hf : In (Yumi.EvMessage a m pkt)
                      (Yumi.messages_of
                         (snd (Yumi.sawPeer
                                 (Yumi.set_seen (insert (Yumi.packet_hash message) (now env)) b)
                                 env pk (get "ek" packet) id)))).
      { apply filter_In. split; [exact Hin | reflexivity]. }
      rewrite sawPeer_no_message in Hf. destruct Hf.
    - apply filter_In. split; [exact Hin | reflexivity]. }
  rewrite dispatch_messages in Hm.
  destruct (Yumi.is_str (get "y" packet) "m") eqn:Hy; [|destruct Hm].
  destruct (JSON_parse (Yumi.ToString_opt (get "v" packet))) as [m'|] eqn:Hv; [|destruct Hm].
  destruct (truthy m') eqn:Ht; [|destruct Hm].
  destruct Hm as [Hm | []]. clear Hin.
  assert (Ha : a = Yumi.address b (Some pk)).
  { transitivity (Yumi.address
                    (fst (Yumi.sawPeer
                            (Yumi.set_seen (insert (Yumi.packet_hash message) (now env)) b)
                            env pk (get "ek" packet) id)) (Some pk)); [congruence |].
    apply address_keys. rewrite sawPeer_keys. reflexivity. }
  assert (Hm' : m' = m) by congruence.
  assert (Hpkt : pkt = JObj packet) by congruence.
  clear Hm. subst m'.
  unfold Yumi.checks in Hchk.
  destruct (bs58_decode pk) as [pkBytes|] eqn:Hdec; [|discriminate].
  destruct (nacl_sign_detached_verify (toBuffer p) (fromHex s) pkBytes) as [sig|] eqn:Hver;
    [|discriminate].
  injection Hchk as -> Hid Htime.
  exists signedPkt, p, s, packet, pk, pkBytes.
  repeat split; try assumption.
  - now apply is_str_eq.
  - now apply is_str_eq.
Qed.


(** X2. A packet whose signature does not verify under the public key its
    payload names is dropped: [onMessage] emits nothing and changes nothing
    but the seen set. *)
Theorem bad_signature_dropped (b : Yumi.Yumi) (id : string) (env : Env)
    (message : list byte) (signedPkt : list (string * json)) (p s : string)
    (packet : list (string * json)) (pk : string) (pkBytes : list byte) :
  Yumi.signed_of b message = Some signedPkt ->
  get "p" signedPkt = Some (JStr p) -> get "s" signedPkt = Some (JStr s) ->
  JSON_parse p = Some (JObj packet) -> get "pk" packet = Some (JStr pk) ->
  bs58_decode pk = Some pkBytes ->
  nacl_sign_detached_verify (toBuffer p) (fromHex s) pkBytes <> Some true ->
  Yumi.onMessage b id env message = (Yumi.dropped b env message, [])
  /\ Yumi.peers (Yumi.dropped b env message) = Yumi.peers b
  /\ Yumi.callbacks (Yumi.dropped b env message) = Yumi.callbacks b
  /\ Yumi.serveraddress (Yumi.dropped b env message) = Yumi.serveraddress b
  /\ Yumi.lastpeercount (Yumi.dropped b env message) = Yumi.lastpeercount b
  /\ Yumi.messages (Yumi.dropped b env message) = Yumi.messages b.
Proof.
  intros Hs Hp Hsig Hparse Hpk Hdec Hver.
  split.
  - apply onMessage_unauthentic. unfold Yumi.authentic.
    rewrite Hs, Hp, Hsig, Hparse, Hpk. unfold Yumi.checks. rewrite Hdec.
    destruct (nacl_sign_detached_verify _ _ _) as [[]|]; try reflexivity.
    now destruct Hver.
  - unfold Yumi.dropped. destruct (truthy_num _); repeat split; reflexivity.
Qed.


Lemma makePacket_payload b env params :
  Yumi.makePacket b env params
  = let pe := JSON_stringify (JObj (Yumi.payload b env params)) in
    JSON_stringify
      (JObj [("s", JStr (toHex (nacl_sign_detached (toBuffer pe) (Yumi.keyPair_secretKey b))));
             ("p", JStr pe)]).
Proof. reflexivity. Qed.

Lemma carried_authentic (sender receiver : Yumi.Yumi) (id : string) (env env' : Env)
    (params : list (string * option json)) :
  Yumi.carried sender env params ->
  get "pk" (Yumi.payload sender env params) = Some (JStr (Yumi.pk sender)) ->
  get "i" (Yumi.payload sender env params) = Some (JStr id) ->
  get "t" (Yumi.payload sender env params) = Some (JNum (now env)) ->
  now env' < now env + Yumi.timeout receiver ->
  Yumi.authentic receiver id env' (toBuffer (Yumi.makePacket sender env params))
  = Some (Yumi.payload sender env params, Yumi.pk sender).
Proof.
  intros (H1 & H2 & H3 & H4 & H5) Hpk Hi Ht Htime.
  rewrite makePacket_payload. cbv zeta.
  unfold Yumi.authentic, Yumi.signed_of. rewrite H1, H2.
  cbn [Yumi.decrypt]. unfold has. cbn [get foldl fst snd String.eqb Ascii.eqb Bool.eqb andb].
  rewrite H3, Hpk. unfold Yumi.checks. rewrite H4, H5, Hi, Ht.
  cbn [Yumi.is_str Yumi.checktime]. rewrite String.eqb_refl.
  replace (now env + Yumi.timeout receiver >? now env') with true; [reflexivity |].
  symmetry. rewrite Z.gtb_ltb. apply Z.ltb_lt. exact Htime.
Qed.

Lemma sawPeer_entry b env pk ek id :
  Yumi.address b (Some pk) <> Yumi.address b None ->
  exists peer,
    Yumi.peers (fst (Yumi.sawPeer b env pk ek id)) !! Yumi.address b (Some pk) = Some peer
    /\ Yumi.peer_ek peer = ek /\ Yumi.peer_last peer = now env.
Proof.
  intros Hne. unfold Yumi.sawPeer.
  destruct (String.eqb_spec (Yumi.address b (Some pk)) (Yumi.address b None)) as [He | _];
    [contradiction |].
  cbn [negb].
  assert (Hfresh : forall b' : Yumi.Yumi,
             Yumi.peers b' = <[Yumi.address b (Some pk) :=
                                 {| Yumi.peer_ek := ek; Yumi.peer_pk := pk;
                                    Yumi.peer_last := now env |}]> (Yumi.peers b) ->
             exists peer, Yumi.peers b' !! Yumi.address b (Some pk) = Some peer
                          /\ Yumi.peer_ek peer = ek /\ Yumi.peer_last peer = now env).
  { intros b' ->. eexists. rewrite lookup_insert_eq. repeat split. }
  destruct (Yumi.peers b !! Yumi.address b (Some pk)) as [peer|] eqn:Hp.
  - destruct (Yumi.peer_last peer + Yumi.timeout b <? now env).
    + apply Hfresh. unfold Yumi._updateConnections. repeat case_match; reflexivity.
    + eexists. cbn. rewrite lookup_insert_eq. repeat split.
  - apply Hfresh. unfold Yumi._updateConnections. repeat case_match; reflexivity.
Qed.

Lemma dispatch_m_state b id env packet pk :
  Yumi.is_str (get "y" packet) "m" = true ->
  fst (Yumi.dispatch b id env packet pk) = b.
Proof. intros H. unfold Yumi.dispatch. rewrite H. repeat case_match; reflexivity. Qed.

(** X3. A truthy value that one channel broadcasts with [send] is emitted,
    once, as the event [message] with the sender's address by a channel on
    the same identifier that receives the packet within its timeout and has
    not seen it, provided the libraries carry the packet faithfully; the
    sender, unless it is the receiver itself, then stands in the receiver's
    peer table with its box key and the time of the receipt. *)
Theorem broadcast_delivered (sender receiver : Yumi.Yumi) (env env' : Env) (message : json) :
  let params := [("y", Some (JStr "m")); ("v", Some (JStr (JSON_stringify message)))] in
  let packet := Yumi.makePacket sender env params in
  let from := Yumi.address receiver (Some (Yumi.pk sender)) in
  Yumi.carried sender env params ->
  JSON_parse (JSON_stringify message) = Some message ->
  truthy message = true ->
  Yumi.identifier sender = Yumi.identifier receiver ->
  now env' < now env + Yumi.timeout receiver ->
  truthy_num (Yumi.seen receiver !! Yumi.packet_hash (toBuffer packet)) = false ->
  let r := Yumi.onMessage receiver (Yumi.identifier receiver) env' (toBuffer packet) in
  Yumi.send sender env (Some message) None = (Yumi.sendRaw sender env packet, Ok tt)
  /\ Yumi.messages_of (snd r)
     = [Yumi.EvMessage from message (JObj (Yumi.payload sender env params))]
  /\ (from <> Yumi.address receiver None ->
      exists peer, Yumi.peers (fst r) !! from = Some peer
                   /\ Yumi.peer_ek peer = Some (JStr (Yumi.ek sender))
                   /\ Yumi.peer_last peer = now env').
Proof.
  intros params packet from Hc Hjson Htruthy Hid Htime Hseen r.
  assert (Hauth : Yumi.authentic receiver (Yumi.identifier receiver) env' (toBuffer packet)
                  = Some (Yumi.payload sender env params, Yumi.pk sender)).
  { apply carried_authentic; try assumption; try reflexivity.
    cbn. now rewrite Hid. }
  assert (Hy : Yumi.is_str (get "y" (Yumi.payload sender env params)) "m" = true)
    by reflexivity.
  split; [|split].
  - unfold Yumi.send. cbn [truthy_opt negb]. reflexivity.
  - subst r. rewrite (onMessage_authentic _ _ _ _ _ _ Hseen Hauth). cbv zeta.
    cbn [snd]. rewrite messages_of_app, sawPeer_no_message, dispatch_messages, Hy.
    cbn [app]. change (get "v" (Yumi.payload sender env params))
      with (Some (JStr (JSON_stringify message))).
    cbn [Yumi.ToString_opt ToString]. rewrite Hjson, Htruthy.
    f_equal. f_equal. apply address_keys. rewrite sawPeer_keys. reflexivity.
  - intros Hne. subst r. rewrite (onMessage_authentic _ _ _ _ _ _ Hseen Hauth). cbv zeta.
    cbn [fst]. rewrite (dispatch_m_state _ _ _ _ _ Hy).
    destruct (sawPeer_entry
                (Yumi.set_seen (insert (Yumi.packet_hash (toBuffer packet)) (now env')) receiver)
                env' (Yumi.pk sender) (get "ek" (Yumi.payload sender env params))
                (Yumi.identifier receiver) Hne) as (peer & Hp & Hek & Hlast).
    exists peer. repeat split; assumption.
Qed.


(** X5. A packet [destroy] sends makes a channel that receives it forget
    the sender: the sender is not in the peer table afterwards and the last
    event is [left] with its address. *)
Theorem leave_delivered (sender receiver : Yumi.Yumi) (env env' : Env) :
  let params := [("y", Some (JStr "x"))] in
  let packet := Yumi.makePacket sender env params in
  let from := Yumi.address receiver (Some (Yumi.pk sender)) in
  Yumi.carried sender env params ->
  Yumi.identifier sender = Yumi.identifier receiver ->
  now env' < now env + Yumi.timeout receiver ->
  truthy_num (Yumi.seen receiver !! Yumi.packet_hash (toBuffer packet)) = false ->
  let r := Yumi.onMessage receiver (Yumi.identifier receiver) env' (toBuffer packet) in
  Yumi.destroy sender env = Yumi.sendRaw sender env packet
  /\ Yumi.peers (fst r) !! from = None
  /\ exists events, snd r = events ++ [Yumi.EvLeft from].
Proof.
  intros params packet from Hc Hid Htime Hseen r.
  assert (Hauth : Yumi.authentic receiver (Yumi.identifier receiver) env' (toBuffer packet)
                  = Some (Yumi.payload sender env params, Yumi.pk sender)).
  { apply carried_authentic; try assumption; try reflexivity.
    cbn. now rewrite Hid. }
  split; [reflexivity |].
  subst r. rewrite (onMessage_authentic _ _ _ _ _ _ Hseen Hauth). cbv zeta.
  set (saw := Yumi.sawPeer _ env' (Yumi.pk sender) _ _).
  assert (Ha : Yumi.address (fst saw) (Some (Yumi.pk sender)) = from).
  { apply address_keys. unfold saw. rewrite sawPeer_keys. reflexivity. }
  unfold Yumi.dispatch.
  change (get "y" (Yumi.payload sender env params)) with (Some (JStr "x")).
  cbn [Yumi.is_str String.eqb Ascii.eqb Bool.eqb fst snd]. rewrite Ha.
  split.
  - cbn [Yumi.peers Yumi.set_peers]. apply lookup_delete_eq.
  - eexists. reflexivity.
Qed.

Lemma signed_authentic (sender receiver : Yumi.Yumi) (id : string) (env env' : Env)
    (params : list (string * option json)) (message : list byte) :
  Yumi.carried sender env params ->
  (let pe := JSON_stringify (JObj (Yumi.payload sender env params)) in
   Yumi.signed_of receiver message
   = Some [("s", JStr (toHex (nacl_sign_detached (toBuffer pe)
                                                 (Yumi.keyPair_secretKey sender))));
           ("p", JStr pe)]) ->
  get "pk" (Yumi.payload sender env params) = Some (JStr (Yumi.pk sender)) ->
  get "i" (Yumi.payload sender env params) = Some (JStr id) ->
  get "t" (Yumi.payload sender env params) = Some (JNum (now env)) ->
  now env' < now env + Yumi.timeout receiver ->
  Yumi.authentic receiver id env' message
  = Some (Yumi.payload sender env params, Yumi.pk sender).
Proof.
  intros (H1 & H2 & H3 & H4 & H5) Hs Hpk Hi Ht Htime. cbv zeta in Hs.
  unfold Yumi.authentic. rewrite Hs.
  cbn [get foldl fst snd String.eqb Ascii.eqb Bool.eqb andb].
  rewrite H3, Hpk. unfold Yumi.checks. rewrite H4, H5, Hi, Ht.
  cbn [Yumi.is_str Yumi.checktime]. rewrite String.eqb_refl.
  replace (now env + Yumi.timeout receiver >? now env') with true; [reflexivity |].
  symmetry. rewrite Z.gtb_ltb. apply Z.ltb_lt. exact Htime.
Qed.

(** X4. A truthy value sent with [send(address, value)] to a peer in the
    table is boxed for that peer's key; the peer, when it receives the
    envelope within its timeout on the same identifier, opens it and emits
    the event [message] with the sender's address, once, provided the
    libraries carry the envelope and the packet in it faithfully. *)
Theorem directed_delivered (sender receiver : Yumi.Yumi) (env env' : Env)
    (address peerEk : string) (peer : Yumi.PeerInfo) (message : json) :
  let params := [("y", Some (JStr "m")); ("v", Some (JStr (JSON_stringify message)))] in
  let packet := Yumi.makePacket sender env params in
  let from := Yumi.address receiver (Some (Yumi.pk sender)) in
  Yumi.reachable sender ->
  address <> "" ->
  Yumi.peers sender !! address = Some peer ->
  Yumi.peer_ek peer = Some (JStr peerEk) ->
  Yumi.sealed sender receiver env packet peerEk ->
  Yumi.carried sender env params ->
  JSON_parse (JSON_stringify message) = Some message ->
  truthy message = true ->
  Yumi.identifier sender = Yumi.identifier receiver ->
  now env' < now env + Yumi.timeout receiver ->
  exists wire,
    Yumi.encryptPacket sender env (Some (Yumi.peer_pk peer)) packet = Ok wire
    /\ Yumi.send sender env (Some (JStr address)) (Some message)
       = (Yumi.sendRaw sender env wire, Ok tt)
    /\ (truthy_num (Yumi.seen receiver !! Yumi.packet_hash (toBuffer wire)) = false ->
        Yumi.messages_of
          (snd (Yumi.onMessage receiver (Yumi.identifier receiver) env' (toBuffer wire)))
        = [Yumi.EvMessage from message (JObj (Yumi.payload sender env params))]).
Proof.
  intros params packet from Hreach Haddr Hpeer Hek Hsealed Hc Hjson Htruthy Hid Htime.
  destruct Hsealed as (ekBytes & encrypted & senderEk & Hdec & Hbox & Hsealed).
  cbv zeta in Hsealed. destruct Hsealed as (Ht & Hp & Hsek & Hopen).
  set (envelope := [("n", JStr (toHex (nonce24 env))); ("ek", JStr (Yumi.ek sender));
                    ("e", JStr (toHex encrypted))]) in *.
  assert (Hkeyed : Yumi.address sender (Some (Yumi.peer_pk peer)) = address).
  { apply (reachable_peers_keyed sender Hreach address peer Hpeer). }
  assert (Henc : Yumi.encryptPacket sender env (Some (Yumi.peer_pk peer)) packet
                 = Ok (JSON_stringify (JObj envelope))).
  { unfold Yumi.encryptPacket. rewrite Hkeyed, Hpeer, Hek, Hdec, Hbox. reflexivity. }
  exists (JSON_stringify (JObj envelope)). split; [exact Henc |]. split.
  - unfold Yumi.send. cbn [truthy_opt]. rewrite Htruthy. cbn [truthy_opt negb truthy].
    destruct (String.eqb_spec address "") as [-> | _]; [contradiction |].
    cbn [negb Yumi.ToString_opt ToString]. rewrite (peer_pk_of_own _ _ _ Hpeer).
    change (Yumi.makePacket sender env _) with packet. rewrite Henc. reflexivity.
  - intros Hseen.
    assert (Hauth : Yumi.authentic receiver (Yumi.identifier receiver) env'
                                   (toBuffer (JSON_stringify (JObj envelope)))
                    = Some (Yumi.payload sender env params, Yumi.pk sender)).
    { apply signed_authentic; try assumption; try reflexivity.
      - cbv zeta. unfold Yumi.signed_of. rewrite Ht, Hp.
        unfold envelope. cbn [Yumi.decrypt]. unfold has.
        cbn [get foldl fst snd String.eqb Ascii.eqb Bool.eqb andb].
        rewrite Hsek, Hopen.
        destruct Hc as (H1 & H2 & _).
        unfold packet. rewrite makePacket_payload. cbv zeta. rewrite H1, H2. reflexivity.
      - cbn. now rewrite Hid. }
    rewrite (onMessage_authentic _ _ _ _ _ _ Hseen Hauth). cbv zeta.
    cbn [snd]. rewrite messages_of_app, sawPeer_no_message, dispatch_messages.
    change (get "y" (Yumi.payload sender env params)) with (Some (JStr "m")).
    change (get "v" (Yumi.payload sender env params))
      with (Some (JStr (JSON_stringify message))).
    cbn [Yumi.is_str String.eqb Ascii.eqb Bool.eqb app Yumi.ToString_opt ToString].
    rewrite Hjson, Htruthy.
    f_equal. f_equal. apply address_keys. rewrite sawPeer_keys. reflexivity.
Qed.


(** X10. The listener of [presence] takes a record as it comes, without a
    signature: the record of another address puts that address into the
    peer table with the box key the record names, in place of whatever key
    was there, and a later [send] to the address is boxed for that key. *)
Theorem presence_replaces_box_key (b : Yumi.Yumi) (env env' : Env)
    (data : Yumi.PresenceData) (message : json) :
  let addr := Yumi.address b (Some (Yumi.pr_pk data)) in
  let b' := fst (Yumi.presenceListener b env (Some data)) in
  let packet :=
    Yumi.makePacket b' env'
      [("y", Some (JStr "m")); ("v", Some (JStr (JSON_stringify message)))] in
  Yumi.pr_pk data <> "" -> Yumi.pr_ek data <> "" -> Yumi.pr_t data <> 0 ->
  addr <> Yumi.address b None -> addr <> "" ->
  truthy message = true ->
  Yumi.peers b' !! addr
  = Some {| Yumi.peer_pk := Yumi.pr_pk data; Yumi.peer_ek := Some (JStr (Yumi.pr_ek data));
            Yumi.peer_last := now env |}
  /\ (forall ekBytes encrypted,
        bs58_decode (Yumi.pr_ek data) = Some ekBytes ->
        nacl_box (toBuffer packet) (nonce24 env') ekBytes (Yumi.keyPairEncrypt_secretKey b)
        = Some encrypted ->
        Yumi.send b' env' (Some (JStr addr)) (Some message)
        = (Yumi.sendRaw b' env'
             (JSON_stringify
                (JObj [("n", JStr (toHex (nonce24 env'))); ("ek", JStr (Yumi.ek b));
                       ("e", JStr (toHex encrypted))])),
           Ok tt)).
Proof.
  intros addr b' packet Hpk Hek Ht Hother Haddr Htruthy.
  assert (Hb' : Yumi.peers b' !! addr
                = Some {| Yumi.peer_pk := Yumi.pr_pk data;
                          Yumi.peer_ek := Some (JStr (Yumi.pr_ek data));
                          Yumi.peer_last := now env |}
                /\ Yumi.keyPair_publicKey b' = Yumi.keyPair_publicKey b
                /\ Yumi.keyPairEncrypt_secretKey b' = Yumi.keyPairEncrypt_secretKey b
                /\ Yumi.ek b' = Yumi.ek b).
  { subst b'. unfold Yumi.presenceListener.
    destruct (String.eqb_spec (Yumi.pr_pk data) "") as [E | _]; [contradiction |].
    destruct (String.eqb_spec (Yumi.pr_ek data) "") as [E | _]; [contradiction |].
    destruct (Z.eqb_spec (Yumi.pr_t data) 0) as [E | _]; [contradiction |].
    cbn [negb andb]. fold addr.
    destruct (String.eqb_spec addr (Yumi.address b None)) as [E | _]; [contradiction |].
    cbn [negb]. unfold Yumi._updateConnections.
    repeat case_match; cbn [fst Yumi.peers Yumi.set_peers Yumi.set_lastpeercount
                            Yumi.keyPair_publicKey Yumi.keyPairEncrypt_secretKey Yumi.ek];
      (split; [apply lookup_insert_eq | repeat split]). }
  destruct Hb' as (Hpeer & Hkey & Hsk & Hekb).
  split; [exact Hpeer |].
  intros ekBytes encrypted Hdec Hbox.
  unfold Yumi.send. cbn [truthy_opt]. rewrite Htruthy. cbn [negb truthy_opt truthy].
  destruct (String.eqb_spec addr "") as [E | _]; [contradiction |].
  cbn [negb Yumi.ToString_opt ToString]. rewrite (peer_pk_of_own _ _ _ Hpeer).
  cbn [Yumi.peer_pk].
  change (Yumi.makePacket b' env' _) with packet.
  unfold Yumi.encryptPacket.
  rewrite (address_keys b b' (Some (Yumi.pr_pk data)) Hkey). fold addr.
  rewrite Hpeer. cbn [Yumi.peer_ek]. rewrite Hdec, Hsk, Hbox, Hekb. reflexivity.
Qed.

End YumiReceive.

(** ** Yumi: invariants of a channel *)

Section YumiInvariants.
Context {P : Platform}.

Lemma self_free_refl b : Yumi.self_free b b.
Proof. split; auto. Qed.

Lemma self_free_trans b1 b2 b3 : Yumi.self_free b1 b2 -> Yumi.self_free b2 b3 -> Yumi.self_free b1 b3.
Proof.
  intros [K1 H1] [K2 H2]. split; [congruence |].
  intros H. apply H1 in H.
  assert (Ha : Yumi.address b2 None = Yumi.address b1 None).
  { unfold Yumi.address. now rewrite K1. }
  rewrite Ha in H2. auto.
Qed.

Lemma self_free_same b b' :
  Yumi.keyPair_publicKey b' = Yumi.keyPair_publicKey b ->
  Yumi.peers b' = Yumi.peers b -> Yumi.self_free b b'.
Proof. intros K E. split; [assumption |]. now rewrite E. Qed.

Lemma self_free_delete b b' a :
  Yumi.keyPair_publicKey b' = Yumi.keyPair_publicKey b ->
  Yumi.peers b' = delete a (Yumi.peers b) -> Yumi.self_free b b'.
Proof.
  intros K E. split; [assumption |]. rewrite E. intros H.
  destruct (decide (a = Yumi.address b None)) as [-> | Hne].
  - apply lookup_delete_eq.
  - now rewrite lookup_delete_ne.
Qed.

Lemma self_free_insert b b' a peer :
  Yumi.keyPair_publicKey b' = Yumi.keyPair_publicKey b ->
  Yumi.peers b' = <[a := peer]> (Yumi.peers b) ->
  a <> Yumi.address b None -> Yumi.self_free b b'.
Proof.
  intros K E Hne. split; [assumption |]. rewrite E. intros H.
  now rewrite lookup_insert_ne.
Qed.

Lemma sendRaw_self b env m : Yumi.self_free b (Yumi.sendRaw b env m).
Proof. apply self_free_same; reflexivity. Qed.

Lemma mesp_self b env pk params :
  Yumi.self_free b (fst (Yumi.makeEncryptSendPacket b env pk params)).
Proof.
  unfold Yumi.makeEncryptSendPacket. case_match; cbn [fst].
  - apply sendRaw_self.
  - apply self_free_refl.
Qed.

Lemma eqb_false_ne (s t : string) : negb (String.eqb s t) = true -> s <> t.
Proof. intros H E. subst. now rewrite String.eqb_refl in H. Qed.

Lemma sawPeer_self b env pk ek id : Yumi.self_free b (fst (Yumi.sawPeer b env pk ek id)).
Proof.
  unfold Yumi.sawPeer.
  destruct (negb (String.eqb (Yumi.address b (Some pk)) (Yumi.address b None))) eqn:Hne;
    [|apply self_free_refl].
  apply eqb_false_ne in Hne.
  assert (Hfresh : forall b' : Yumi.Yumi,
             Yumi.keyPair_publicKey b' = Yumi.keyPair_publicKey b ->
             Yumi.peers b' = <[Yumi.address b (Some pk) :=
                                 {| Yumi.peer_ek := ek; Yumi.peer_pk := pk;
                                    Yumi.peer_last := now env |}]> (Yumi.peers b) ->
             Yumi.self_free b b').
  { intros b' K E. eapply self_free_insert; eauto. }
  destruct (Yumi.peers b !! Yumi.address b (Some pk)) as [peer|].
  - destruct (Yumi.peer_last peer + Yumi.timeout b <? now env).
    + apply Hfresh; unfold Yumi._updateConnections; repeat case_match; reflexivity.
    + eapply self_free_insert; [reflexivity | reflexivity | assumption].
  - apply Hfresh; unfold Yumi._updateConnections; repeat case_match; reflexivity.
Qed.

Lemma rpcCall_self b env pk call args nonce :
  Yumi.self_free b (fst (fst (Yumi.rpcCall b env pk call args nonce))).
Proof.
  unfold Yumi.rpcCall. repeat case_match; cbn [fst];
    first [apply self_free_refl | apply mesp_self].
Qed.

Lemma dispatch_self b id env packet pk :
  Yumi.self_free b (fst (Yumi.dispatch b id env packet pk)).
Proof.
  unfold Yumi.dispatch.
  repeat case_match; cbn [fst];
    first [ apply self_free_refl | apply rpcCall_self
          | apply self_free_same; reflexivity
          | eapply self_free_delete; reflexivity ].
Qed.

Lemma processSigned_self b id env signedPkt :
  Yumi.self_free b (fst (Yumi.processSigned b id env signedPkt)).
Proof.
  unfold Yumi.processSigned.
  repeat case_match; cbn [fst]; try apply self_free_refl.
  eapply self_free_trans; [apply sawPeer_self | apply dispatch_self].
Qed.

Lemma onMessage_self b id env message :
  Yumi.self_free b (fst (Yumi.onMessage b id env message)).
Proof.
  unfold Yumi.onMessage.
  repeat case_match; cbn [fst]; try apply self_free_refl;
    try (apply self_free_same; reflexivity).
  eapply self_free_trans; [|apply processSigned_self]. apply self_free_same; reflexivity.
Qed.

Lemma lookup_foldr_delete_None (l : list (string * Yumi.PeerInfo))
    (m : gmap string Yumi.PeerInfo) (a : string) :
  m !! a = None -> foldr (fun p m => delete (fst p) m) m l !! a = None.
Proof.
  intros H. induction l as [|x l IH]; [exact H |]. cbn [foldr].
  destruct (decide (fst x = a)) as [<- | Hne].
  - apply lookup_delete_eq.
  - now rewrite lookup_delete_ne.
Qed.

Lemma step_self b env op : Yumi.self_free b (fst (Yumi.step b env op)).
Proof.
  destruct op; cbn [Yumi.step fst].
  - unfold Yumi.messageListener. repeat case_match; cbn [fst]; try apply self_free_refl.
    apply onMessage_self.
  - unfold Yumi.presenceListener.
    destruct data as [data|]; [|apply self_free_refl].
    destruct (_ && _); [|apply self_free_refl].
    destruct (negb (String.eqb _ _)) eqn:Hne; [|apply self_free_refl].
    apply eqb_false_ne in Hne.
    destruct (Yumi.peers b !! _); cbn [fst].
    + eapply self_free_insert; [reflexivity | reflexivity | assumption].
    + unfold Yumi._updateConnections. case_match; cbn [fst];
        (eapply self_free_insert; [reflexivity | reflexivity | assumption]).
  - apply self_free_same; reflexivity.
  - unfold Yumi.heartbeat, Yumi._updateConnections.
    match goal with
    | |- context [foldr _ _ ?l] => set (expired := l)
    end.
    assert (H : forall b' : Yumi.Yumi,
               Yumi.keyPair_publicKey b' = Yumi.keyPair_publicKey b ->
               Yumi.peers b' = foldr (fun p m => delete (fst p) m) (Yumi.peers b) expired ->
               Yumi.self_free b b').
    { intros b' K E. split; [assumption |]. rewrite E. apply lookup_foldr_delete_None. }
    case_match; cbn [fst]; apply H; reflexivity.
  - apply sendRaw_self.
  - unfold Yumi.send. repeat case_match; cbn [fst]; try apply self_free_refl;
      apply sendRaw_self.
  - unfold Yumi.rpc. repeat case_match; cbn [fst]; try apply self_free_refl;
      (eapply self_free_trans; [|apply mesp_self]); apply self_free_same; reflexivity.
  - apply self_free_same; reflexivity.
  - apply mesp_self.
  - apply sendRaw_self.
Qed.

Lemma run_self (trace : list (Env * Yumi.Op)) (b : Yumi.Yumi) :
  Yumi.self_free b (fst (Yumi.run b trace)).
Proof.
  revert b. induction trace as [|[env op] trace IH]; intros b; [apply self_free_refl |].
  cbn [Yumi.run fst]. eapply self_free_trans; [apply step_self | apply IH].
Qed.

(** X6. A channel never lists itself as a peer: in every state a channel
    reaches, the peer table has no entry under the channel's own
    address. *)
Theorem own_address_never_a_peer (b : Yumi.Yumi) :
  Yumi.reachable b -> Yumi.peers b !! Yumi.address b None = None.
Proof.
  intros (id & t & pk & sk & bpk & bsk & trace & ->).
  destruct (run_self trace (Yumi.new id t pk sk bpk bsk)) as [K H].
  assert (Ha : Yumi.address (fst (Yumi.run (Yumi.new id t pk sk bpk bsk) trace)) None
               = Yumi.address (Yumi.new id t pk sk bpk bsk) None).
  { unfold Yumi.address. now rewrite K. }
  rewrite Ha. apply H. reflexivity.
Qed.


Lemma connection_counts_app (a b : list Yumi.Event) :
  Yumi.connection_counts (a ++ b) = Yumi.connection_counts a ++ Yumi.connection_counts b.
Proof. apply omap_app. Qed.

Lemma conn_quiet b b' evs :
  Yumi.connection_counts evs = [] -> Yumi.lastpeercount b' = Yumi.lastpeercount b ->
  Yumi.conn_step b b' evs.
Proof. intros. left. auto. Qed.

Lemma conn_then_quiet b b1 b2 e1 e2 :
  Yumi.conn_step b b1 e1 ->
  Yumi.connection_counts e2 = [] -> Yumi.lastpeercount b2 = Yumi.lastpeercount b1 ->
  Yumi.conn_step b b2 (e1 ++ e2).
Proof.
  intros [[H1 H2] | (n & H1 & H2 & H3)] Hq Hl; unfold Yumi.conn_step;
    rewrite connection_counts_app, Hq, app_nil_r.
  - left. split; congruence.
  - right. exists n. repeat split; congruence.
Qed.

Lemma quiet_then_conn b b1 b2 e1 e2 :
  Yumi.connection_counts e1 = [] -> Yumi.lastpeercount b1 = Yumi.lastpeercount b ->
  Yumi.conn_step b1 b2 e2 -> Yumi.conn_step b b2 (e1 ++ e2).
Proof.
  intros Hq Hl [[H1 H2] | (n & H1 & H2 & H3)]; unfold Yumi.conn_step;
    rewrite connection_counts_app, Hq; cbn [app].
  - left. split; congruence.
  - right. exists n. repeat split; congruence.
Qed.

Lemma updateConnections_conn b :
  Yumi.conn_step b (fst (Yumi._updateConnections b)) (snd (Yumi._updateConnections b)).
Proof.
  unfold Yumi._updateConnections.
  destruct (Z.eqb_spec (Z.of_nat (size (Yumi.peers b))) (Yumi.lastpeercount b)) as [E | N];
    cbn [negb fst snd].
  - left. split; reflexivity.
  - right. eexists. repeat split. exact N.
Qed.

Lemma sendRaw_count b env m :
  Yumi.lastpeercount (Yumi.sendRaw b env m) = Yumi.lastpeercount b.
Proof. reflexivity. Qed.

Lemma mesp_count b env pk params :
  Yumi.lastpeercount (fst (Yumi.makeEncryptSendPacket b env pk params)) = Yumi.lastpeercount b.
Proof. unfold Yumi.makeEncryptSendPacket. case_match; reflexivity. Qed.

Lemma sawPeer_conn b env pk ek id :
  Yumi.conn_step b (fst (Yumi.sawPeer b env pk ek id)) (snd (Yumi.sawPeer b env pk ek id)).
Proof.
  unfold Yumi.sawPeer.
  assert (Hfresh : forall b1 : Yumi.Yumi,
             Yumi.lastpeercount b1 = Yumi.lastpeercount b ->
             forall (a : string) (evs : list Yumi.Event),
               Yumi.connection_counts evs = [] ->
               Yumi.conn_step b (fst (Yumi._updateConnections b1))
                         ([Yumi.EvSeen a] ++ evs ++ snd (Yumi._updateConnections b1))).
  { intros b1 Hl a evs Hq.
    apply (quiet_then_conn b b1); [reflexivity | assumption |].
    apply (quiet_then_conn b1 b1); [assumption | reflexivity |].
    apply updateConnections_conn. }
  repeat case_match; cbn [fst snd];
    first [ apply conn_quiet; reflexivity
          | apply Hfresh; reflexivity ].
Qed.

Lemma dispatch_quiet b id env packet pk :
  Yumi.connection_counts (snd (Yumi.dispatch b id env packet pk)) = []
  /\ Yumi.lastpeercount (fst (Yumi.dispatch b id env packet pk)) = Yumi.lastpeercount b.
Proof.
  unfold Yumi.dispatch, Yumi.rpcCall.
  repeat case_match; cbn [fst snd]; split; try reflexivity; apply mesp_count.
Qed.

Lemma processSigned_conn b id env signedPkt :
  Yumi.conn_step b (fst (Yumi.processSigned b id env signedPkt))
            (snd (Yumi.processSigned b id env signedPkt)).
Proof.
  unfold Yumi.processSigned.
  repeat case_match; cbn [fst snd]; try (apply conn_quiet; reflexivity).
  eapply conn_then_quiet; [apply sawPeer_conn | apply dispatch_quiet | apply dispatch_quiet].
Qed.

Lemma onMessage_conn b id env message :
  Yumi.conn_step b (fst (Yumi.onMessage b id env message)) (snd (Yumi.onMessage b id env message)).
Proof.
  unfold Yumi.onMessage.
  repeat case_match; try (apply conn_quiet; reflexivity).
  apply (quiet_then_conn b (Yumi.set_seen (insert (Yumi.packet_hash message) (now env)) b)
                         _ []); [reflexivity | reflexivity |].
  apply processSigned_conn.
Qed.

Lemma expired_quiet (l : list (string * Yumi.PeerInfo)) :
  Yumi.connection_counts
    (flat_map (fun p => [Yumi.EvTimeout (fst p); Yumi.EvLeft (fst p)]) l) = [].
Proof. induction l as [|x l IH]; [reflexivity | exact IH]. Qed.

Lemma step_conn b env op :
  Yumi.conn_step b (fst (Yumi.step b env op)) (snd (Yumi.step b env op)).
Proof.
  destruct op; cbn [Yumi.step fst snd]; try (apply conn_quiet; reflexivity).
  - unfold Yumi.messageListener.
    repeat case_match; try (apply conn_quiet; reflexivity). apply onMessage_conn.
  - unfold Yumi.presenceListener.
    repeat case_match; try (apply conn_quiet; reflexivity);
      cbn [fst snd];
      match goal with
      | |- Yumi.conn_step _ (fst (Yumi._updateConnections ?b1)) _ =>
          apply (quiet_then_conn b b1); [reflexivity | reflexivity |]
      end;
      apply updateConnections_conn.
  - unfold Yumi.heartbeat. cbn [fst snd].
    match goal with
    | |- Yumi.conn_step _ (fst (Yumi._updateConnections ?b1)) _ =>
        apply (quiet_then_conn b b1); [apply expired_quiet | reflexivity |]
    end.
    apply updateConnections_conn.
  - unfold Yumi.send. repeat case_match; apply conn_quiet; reflexivity.
  - apply conn_quiet; [reflexivity |].
    unfold Yumi.rpc. repeat case_match; cbn [fst]; try reflexivity;
      rewrite mesp_count; reflexivity.
  - apply conn_quiet; [reflexivity |]. apply mesp_count.
Qed.

Lemma last_cons_default (x y z : Z) (l : list Z) :
  List.last (z :: l) x = List.last (z :: l) y.
Proof.
  revert z. induction l as [|w l IH]; intros z; [reflexivity |].
  change (List.last (w :: l) x = List.last (w :: l) y). apply IH.
Qed.

(** X7. The event [connections] is emitted only when the number of peers
    differs from the number last announced: over every run of a channel,
    no event [connections] carries the count of the one before it (or,
    for the first, the count the channel started with), and the count the
    channel records is the last one announced. *)
Theorem connections_only_on_change (trace : list (Env * Yumi.Op)) (b0 : Yumi.Yumi) :
  let counts := Yumi.connection_counts (Yumi.events_of (snd (Yumi.run b0 trace))) in
  Yumi.changing (Yumi.lastpeercount b0) counts
  /\ List.last counts (Yumi.lastpeercount b0) = Yumi.lastpeercount (fst (Yumi.run b0 trace)).
Proof.
  revert b0. induction trace as [|[env op] trace IH]; intros b0.
  - split; reflexivity.
  - cbn [Yumi.run fst snd]. unfold Yumi.events_of. cbn [flat_map snd].
    fold (Yumi.events_of (snd (Yumi.run (fst (Yumi.step b0 env op)) trace))).
    rewrite connection_counts_app.
    destruct (IH (fst (Yumi.step b0 env op))) as [IH1 IH2]. cbv zeta in IH1, IH2.
    destruct (step_conn b0 env op) as [[H1 H2] | (n & H1 & H2 & H3)]; rewrite H1.
    + cbn [app]. rewrite <- H2. split; assumption.
    + cbn [app]. split.
      * split; [congruence |]. rewrite <- H3. exact IH1.
      * rewrite <- IH2, H3.
        destruct (Yumi.connection_counts _) as [|z l]; [reflexivity |].
        change (List.last (z :: l) (Yumi.lastpeercount b0) = List.last (z :: l) n).
        apply last_cons_default.
Qed.


(** ** The heartbeat *)

Lemma lookup_foldr_delete_filter (f : string * Yumi.PeerInfo -> bool)
    (m : gmap string Yumi.PeerInfo) (a : string) :
  foldr (fun p m => delete (fst p) m) m (List.filter f (map_to_list m)) !! a
  = match m !! a with
    | Some p => if f (a, p) then None else Some p
    | None => None
    end.
Proof.
  assert (Hgen : forall l : list (string * Yumi.PeerInfo),
             foldr (fun p m => delete (fst p) m) m l !! a
             = if decide (a ∈ map fst l) then None else m !! a).
  { induction l as [|x l IH]; cbn [foldr map].
    - rewrite decide_False; [reflexivity | apply not_elem_of_nil].
    - destruct (decide (fst x = a)) as [<- | Hne].
      + rewrite lookup_delete_eq, decide_True; [reflexivity | apply list_elem_of_here].
      + rewrite lookup_delete_ne by assumption. rewrite IH.
        destruct (decide (a ∈ map fst l)) as [Hin | Hnin].
        * rewrite decide_True; [reflexivity | now apply list_elem_of_further].
        * rewrite decide_False; [reflexivity |].
          intros Hin. apply elem_of_cons in Hin. destruct Hin; [congruence | contradiction]. }
  rewrite Hgen.
  destruct (m !! a) as [p|] eqn:Hm.
  - destruct (f (a, p)) eqn:Hf.
    + rewrite decide_True; [reflexivity |].
      apply list_elem_of_fmap. exists (a, p). split; [reflexivity |].
      apply list_elem_of_In, filter_In. split; [|exact Hf].
      apply list_elem_of_In, elem_of_map_to_list. exact Hm.
    + rewrite decide_False; [reflexivity |].
      intros Hin. apply list_elem_of_fmap in Hin. destruct Hin as ([a' p'] & -> & Hin).
      apply list_elem_of_In, filter_In in Hin. destruct Hin as [Hin Hf'].
      apply list_elem_of_In, elem_of_map_to_list in Hin. cbn [fst] in *.
      congruence.
  - destruct (decide _); reflexivity.
Qed.

Lemma in_expired_events (l : list (string * Yumi.PeerInfo)) (e : Yumi.Event) :
  In e (flat_map (fun p => [Yumi.EvTimeout (fst p); Yumi.EvLeft (fst p)]) l)
  <-> exists p, In p l /\ (e = Yumi.EvTimeout (fst p) \/ e = Yumi.EvLeft (fst p)).
Proof.
  rewrite in_flat_map. split.
  - intros (p & Hp & [<- | [<- | []]]); eauto.
  - intros (p & Hp & [-> | ->]); exists p; (split; [assumption |]); cbn; auto.
Qed.

(** X8. One run of the heartbeat removes exactly the peers last heard of
    more than the timeout ago, emits [timeout] and [left] for each of them
    and for no other address, keeps every other entry as it is, and
    publishes the channel's presence with the current time. *)
Theorem heartbeat_expires (b : Yumi.Yumi) (env : Env) :
  let r := Yumi.heartbeat b env in
  (forall a, Yumi.peers (fst r) !! a
             = match Yumi.peers b !! a with
               | Some p => if Yumi.peer_last p + Yumi.timeout b <? now env
                           then None else Some p
               | None => None
               end)
  /\ (forall a, In (Yumi.EvTimeout a) (snd r)
                <-> exists p, Yumi.peers b !! a = Some p
                              /\ Yumi.peer_last p + Yumi.timeout b < now env)
  /\ (forall a, In (Yumi.EvLeft a) (snd r) <-> In (Yumi.EvTimeout a) (snd r))
  /\ Yumi.presence (fst r) !! Yumi.address b None
     = Some {| Yumi.pr_pk := Yumi.pk b; Yumi.pr_ek := Yumi.ek b; Yumi.pr_t := now env |}.
Proof.
  cbv zeta. unfold Yumi.heartbeat. cbv zeta.
  set (b1 := Yumi.ping (Yumi._announcePresence b env) env).
  set (f := fun p : string * Yumi.PeerInfo =>
              Yumi.peer_last (snd p) + Yumi.timeout b1 <? now env).
  set (expired := List.filter f (map_to_list (Yumi.peers b1))).
  set (b2 := Yumi.set_peers _ b1).
  assert (Hev : forall e, (forall n, e <> Yumi.EvConnections n) ->
              In e (flat_map (fun p => [Yumi.EvTimeout (fst p); Yumi.EvLeft (fst p)]) expired
                    ++ snd (Yumi._updateConnections b2))
              <-> In e (flat_map (fun p => [Yumi.EvTimeout (fst p); Yumi.EvLeft (fst p)])
                                 expired)).
  { intros e He. rewrite in_app_iff. split; [|auto].
    intros [H | H]; [exact H |].
    unfold Yumi._updateConnections in H. destruct (negb _) in H; [|destruct H].
    destruct H as [H | []]. now destruct (He _ (eq_sym H)). }
  assert (Hexp : forall a, (exists p, In p expired /\ fst p = a)
                           <-> exists p, Yumi.peers b !! a = Some p
                                         /\ Yumi.peer_last p + Yumi.timeout b < now env).
  { intros a. split.
    - intros ([a' p] & Hin & <-). apply filter_In in Hin. destruct Hin as [Hin Hf].
      apply list_elem_of_In, elem_of_map_to_list in Hin.
      exists p. split; [exact Hin |]. apply Z.ltb_lt. exact Hf.
    - intros (p & Hp & Hlt). exists (a, p). split; [|reflexivity].
      apply filter_In. split.
      + apply list_elem_of_In, elem_of_map_to_list. exact Hp.
      + apply Z.ltb_lt. exact Hlt. }
  split; [|split; [|split]].
  - intros a.
    assert (Hp : Yumi.peers (fst (Yumi._updateConnections b2)) = Yumi.peers b2).
    { unfold Yumi._updateConnections. destruct (negb _); reflexivity. }
    cbn [fst]. rewrite Hp. subst b2 expired. cbn [Yumi.peers Yumi.set_peers].
    apply (lookup_foldr_delete_filter f (Yumi.peers b1) a).
  - intros a. cbn [snd]. rewrite Hev by discriminate.
    rewrite in_expired_events, <- Hexp. split.
    + intros (p & Hin & [H | H]); [|discriminate]. exists p. split; [assumption | congruence].
    + intros (p & Hin & <-). exists p. auto.
  - intros a. cbn [snd]. rewrite !Hev by discriminate.
    rewrite !in_expired_events. split.
    + intros (p & Hin & [H | H]); [discriminate |]. exists p. split; [assumption |].
      left. congruence.
    + intros (p & Hin & [H | H]); [|discriminate]. exists p. split; [assumption |].
      right. congruence.
  - assert (Hp : Yumi.presence (fst (Yumi._updateConnections b2)) = Yumi.presence b2).
    { unfold Yumi._updateConnections. destruct (negb _); reflexivity. }
    cbn [fst]. rewrite Hp. subst b2 b1.
    cbn [Yumi.presence Yumi.set_peers Yumi.ping Yumi.sendRaw Yumi.set_seen
         Yumi.set_messages Yumi._announcePresence Yumi.set_presence].
    apply lookup_insert_eq.
Qed.

End YumiInvariants.

(** ** Yumi: a peer that is not known *)

Section YumiUnknownPeer.
Context {P : Platform}.

Lemma reachable_keys (b : Yumi.Yumi) :
  Yumi.reachable b ->
  Yumi.peers_keyed b /\ Yumi.peers b !! Yumi.address b None = None.
Proof.
  intros Hreach. split; [now apply reachable_peers_keyed |].
  destruct Hreach as (id & t & pk & sk & bpk & bsk & trace & ->).
  destruct (run_self trace (Yumi.new id t pk sk bpk bsk)) as [K H].
  rewrite (address_keys _ _ None K). apply H. reflexivity.
Qed.

(** C7 (as amended). For an address that is neither in the peer table nor
    the name of a property a plain object inherits, [rpc] raises the error
    of an unknown peer at once, and so does [send] when the address and the
    value are truthy; nothing is written or registered then.  With a falsy
    value [send] takes its first argument for the message and broadcasts
    it.  When the address is in the peer table, neither raises the error of
    an unknown peer.  For the name of an inherited property ([toString],
    [constructor], ...) the lookup in the peer table succeeds without a
    peer: both calls raise [not seen - no encryption key] for the channel's
    own address, [send] with the state as it was, [rpc] after it has
    registered the callback. *)
Theorem C7_unknown_peer (bugout : Yumi.Yumi) (env : Env) :
  Yumi.reachable bugout ->
  (forall (address : json) (message : option json),
      truthy address = true -> truthy_opt message = true ->
      Yumi.peers bugout !! ToString address = None ->
      inherited (ToString address) = false ->
      Yumi.send bugout env (Some address) message
      = (bugout, Throw (NotSeenNoPublicKey (ToString address))))
  /\ (forall (address : string) (call args : option json) (callback : option Yumi.Callback),
        Yumi.peers bugout !! address = None ->
        inherited address = false ->
        Yumi.rpc bugout env address call (Yumi.ArgsValue args) callback
        = (bugout, Throw (NotSeenNoPublicKey address)))
  /\ (forall (address message : option json),
        truthy_opt message = false ->
        Yumi.send bugout env address message
        = (Yumi.sendRaw bugout env
             (Yumi.makePacket bugout env
                [("y", Some (JStr "m"));
                 ("v", option_map (fun m => JStr (JSON_stringify m)) address)]),
           Ok tt))
  /\ (forall (address message : option json) (e : Error),
        is_Some (Yumi.peers bugout !! Yumi.ToString_opt address) ->
        snd (Yumi.send bugout env address message) = Throw e -> UnknownPeer e = false)
  /\ (forall (address : string) (call args : option json)
             (callback : option Yumi.Callback) (e : Error),
        is_Some (Yumi.peers bugout !! address) ->
        snd (Yumi.rpc bugout env address call (Yumi.ArgsValue args) callback) = Throw e ->
        UnknownPeer e = false)
  /\ (forall (address : json) (message : option json),
        truthy address = true -> truthy_opt message = true ->
        Yumi.peers bugout !! ToString address = None ->
        inherited (ToString address) = true ->
        Yumi.send bugout env (Some address) message
        = (bugout, Throw (NotSeenNoEncryptionKey (Yumi.address bugout None))))
  /\ (forall (address : string) (call args : option json) (callback : option Yumi.Callback),
        Yumi.peers bugout !! address = None ->
        inherited address = true ->
        Yumi.rpc bugout env address call (Yumi.ArgsValue args) callback
        = (Yumi.set_callbacks (insert (toHex (callnonce8 env)) callback) bugout,
           Throw (NotSeenNoEncryptionKey (Yumi.address bugout None)))).
Proof.
  intros Hreach. destruct (reachable_keys bugout Hreach) as [Hk Hself].
  split; [| split; [| split; [| split; [| split; [| split]]]]].
  - intros address message Ha Hm Hnone Hinh. unfold Yumi.send.
    rewrite Hm. cbn [negb truthy_opt Yumi.ToString_opt].
    now rewrite Ha, (peer_pk_of_missing _ _ Hnone Hinh).
  - intros address call args callback Hnone Hinh. unfold Yumi.rpc.
    now rewrite (peer_pk_of_missing _ _ Hnone Hinh).
  - intros address message Hm. unfold Yumi.send. now rewrite Hm.
  - intros address message e [peer Hp]. unfold Yumi.send.
    destruct (truthy_opt message); cbn [negb].
    + rewrite (peer_pk_of_own _ _ _ Hp). destruct (truthy_opt address); [| discriminate].
      destruct (Yumi.encryptPacket _ _ _ _) as [enc | e'] eqn:He; [discriminate |].
      intros [= <-]. eapply encryptPacket_known; eassumption.
    + discriminate.
  - intros address call args callback e [peer Hp]. unfold Yumi.rpc.
    rewrite (peer_pk_of_own _ _ _ Hp). unfold Yumi.makeEncryptSendPacket.
    destruct (Yumi.encryptPacket _ _ _ _) as [enc | e'] eqn:He; [discriminate |].
    intros [= <-]. eapply (encryptPacket_known _ _ address peer); [| | exact He].
    + exact Hk.
    + exact Hp.
  - intros address message Ha Hm Hnone Hinh. unfold Yumi.send.
    rewrite Hm. cbn [negb truthy_opt Yumi.ToString_opt].
    rewrite Ha, (peer_pk_of_inherited _ _ Hnone Hinh).
    now rewrite (encryptPacket_undefined _ _ _ Hself).
  - intros address call args callback Hnone Hinh. unfold Yumi.rpc.
    rewrite (peer_pk_of_inherited _ _ Hnone Hinh).
    unfold Yumi.makeEncryptSendPacket.
    rewrite encryptPacket_undefined by exact Hself. reflexivity.
Qed.
End YumiUnknownPeer.

(** ** Yumi: the nonce of a call *)

Section YumiNonce.
Context {P : Platform}.

Lemma toHex_not_object (bytes : list byte) : toHex bytes <> "[object Object]".
Proof.
  destruct bytes as [|x bytes]; [discriminate |].
  cbn [toHex foldr]. intros H. injection H as H _.
  revert H. destruct x; vm_compute; discriminate.
Qed.

Lemma hex_keyed_same b b' : Yumi.callbacks b' = Yumi.callbacks b -> Yumi.hex_keyed b -> Yumi.hex_keyed b'.
Proof. intros E H k v. rewrite E. apply H. Qed.

Lemma hex_keyed_delete b b' a :
  Yumi.callbacks b' = delete a (Yumi.callbacks b) -> Yumi.hex_keyed b -> Yumi.hex_keyed b'.
Proof.
  intros E H k v. rewrite E. intros Hl.
  apply lookup_delete_Some in Hl. destruct Hl as [_ Hl]. eapply H; eauto.
Qed.

Lemma hex_keyed_insert b b' bytes cb :
  Yumi.callbacks b' = <[toHex bytes := cb]> (Yumi.callbacks b) -> Yumi.hex_keyed b -> Yumi.hex_keyed b'.
Proof.
  intros E H k v. rewrite E. intros Hl.
  apply lookup_insert_Some in Hl. destruct Hl as [[<- _] | [_ Hl]]; [eauto |].
  eapply H; eauto.
Qed.

Lemma onMessage_hex b id env message :
  Yumi.hex_keyed b -> Yumi.hex_keyed (fst (Yumi.onMessage b id env message)).
Proof.
  intros H.
  destruct (onMessage_callbacks b id env message) as [[E _] | (nonce & cb & r & _ & E & _)].
  - eapply hex_keyed_same; eauto.
  - destruct (callback_raises env).
    + eapply hex_keyed_same; eauto.
    + eapply hex_keyed_delete; eauto.
Qed.

Lemma step_hex b env op : Yumi.hex_keyed b -> Yumi.hex_keyed (fst (Yumi.step b env op)).
Proof.
  intros H. destruct op; cbn [Yumi.step fst];
    try (eapply hex_keyed_same; [reflexivity | exact H]).
  - unfold Yumi.messageListener. repeat case_match; cbn [fst]; try exact H.
    now apply onMessage_hex.
  - unfold Yumi.presenceListener, Yumi._updateConnections.
    repeat case_match; cbn [fst]; try exact H;
      (eapply hex_keyed_same; [reflexivity | exact H]).
  - unfold Yumi.heartbeat, Yumi._updateConnections.
    case_match; cbn [fst]; (eapply hex_keyed_same; [reflexivity | exact H]).
  - unfold Yumi.send. repeat case_match; cbn [fst]; try exact H;
      (eapply hex_keyed_same; [reflexivity | exact H]).
  - unfold Yumi.rpc. repeat case_match; cbn [fst]; try exact H;
      (eapply hex_keyed_same; [apply makeEncryptSendPacket_callbacks |]);
      (eapply hex_keyed_insert; [reflexivity | exact H]).
  - eapply hex_keyed_same; [apply makeEncryptSendPacket_callbacks | exact H].
Qed.

Lemma run_hex (trace : list (Env * Yumi.Op)) (b : Yumi.Yumi) :
  Yumi.hex_keyed b -> Yumi.hex_keyed (fst (Yumi.run b trace)).
Proof.
  revert b. induction trace as [|[env op] trace IH]; intros b H; [exact H |].
  cbn [Yumi.run fst]. apply IH, step_hex, H.
Qed.

Lemma reachable_hex b : Yumi.reachable b -> Yumi.hex_keyed b.
Proof.
  intros (id & t & pk & sk & bpk & bsk & trace & ->). apply run_hex.
  intros k v Hl. cbn in Hl. rewrite lookup_empty in Hl. discriminate.
Qed.

Lemma rpc_hex b env address call args callback :
  Yumi.hex_keyed b -> Yumi.hex_keyed (fst (Yumi.rpc b env address call args callback)).
Proof. intros H. apply (step_hex b env (Yumi.OpRpc address call args callback) H). Qed.

(** X9. [rpc] stores the callback under the hexadecimal form of the nonce
    it draws, and sends the nonce itself in the field [rn], where it
    travels as a JSON object.  A response that returns such an object in
    [rn], as [rpcCall] does, is dropped by the caller: it finds no
    callback, calls none, and leaves the table of callbacks as it is. *)
Theorem rpc_nonce_object_unanswered (b : Yumi.Yumi) (env : Env) (address : string)
    (peer : Yumi.PeerInfo) (call args : option json) (callback : option Yumi.Callback) :
  Yumi.reachable b ->
  Yumi.peers b !! address = Some peer ->
  let r := Yumi.rpc b env address call (Yumi.ArgsValue args) callback in
  let request :=
    Yumi.payload b env [("y", Some (JStr "r")); ("c", call);
                        ("a", option_map (fun a => JStr (JSON_stringify a)) args);
                        ("rn", Some (json_of_Uint8Array (callnonce8 env)))] in
  Yumi.callbacks (fst r) !! toHex (callnonce8 env) = Some callback
  /\ r = Yumi.makeEncryptSendPacket
           (Yumi.set_callbacks (insert (toHex (callnonce8 env)) callback) b) env
           (Some (Yumi.peer_pk peer))
           [("y", Some (JStr "r")); ("c", call);
            ("a", option_map (fun a => JStr (JSON_stringify a)) args);
            ("rn", Some (json_of_Uint8Array (callnonce8 env)))]
  /\ get "rn" request = Some (json_of_Uint8Array (callnonce8 env))
  /\ (forall (id : string) (env' : Env) (response : list (string * json)) (pk : string),
        Yumi.is_str (get "y" response) "rr" = true ->
        get "rn" response = get "rn" request ->
        Yumi.dispatch (fst r) id env' response pk = (fst r, [])).
Proof.
  intros Hreach Hpeer r request.
  assert (Hr : r = Yumi.makeEncryptSendPacket
                     (Yumi.set_callbacks (insert (toHex (callnonce8 env)) callback) b) env
                     (Some (Yumi.peer_pk peer))
                     [("y", Some (JStr "r")); ("c", call);
                      ("a", option_map (fun a => JStr (JSON_stringify a)) args);
                      ("rn", Some (json_of_Uint8Array (callnonce8 env)))]).
  { subst r. unfold Yumi.rpc. rewrite (peer_pk_of_own _ _ _ Hpeer). reflexivity. }
  assert (Hrn : get "rn" request = Some (json_of_Uint8Array (callnonce8 env))).
  { subst request. unfold Yumi.payload. destruct call, args; reflexivity. }
  split; [|split; [exact Hr | split; [exact Hrn |]]].
  - rewrite Hr, makeEncryptSendPacket_callbacks. apply lookup_insert_eq.
  - intros id env' response pk Hy Hresp.
    pose proof (rpc_hex b env address call (Yumi.ArgsValue args) callback
                        (reachable_hex b Hreach)) as Hhex.
    fold r in Hhex.
    destruct (is_str_rr _ Hy) as [Hm Hr'].
    unfold Yumi.dispatch, property_of. rewrite Hm, Hr', Hy, Hresp, Hrn.
    cbn [Yumi.ToString_opt json_of_Uint8Array ToString].
    destruct (Yumi.callbacks (fst r) !! "[object Object]") as [v|] eqn:Hl; [|reflexivity].
    destruct (Hhex _ _ Hl) as (bytes & Hb).
    now destruct (toHex_not_object bytes).
Qed.

End YumiNonce.

(** ** Kunai: from the sender to the receiver *)

Section KunaiRoundTrip.
Context {P : Platform}.

Lemma receiver_run_last (ops : list Kunai.ReceiverOp) (op : Kunai.ReceiverOp)
    (r : Kunai.Receiver) (d : Kunai.Receiver * list Kunai.Action) :
  List.last (snd (Kunai.receiver_run r (ops ++ [op]))) d
  = Kunai.receiver_step (fst (Kunai.receiver_run r ops)) op.
Proof.
  revert r. induction ops as [|o ops IH]; intros r; [reflexivity |].
  cbn [app Kunai.receiver_run fst snd].
  specialize (IH (fst (Kunai.receiver_step r o))).
  destruct (snd (Kunai.receiver_run (fst (Kunai.receiver_step r o)) (ops ++ [op]))) eqn:E.
  - destruct ops; discriminate E.
  - exact IH.
Qed.

Lemma numeric_not_inherited (s : string) :
  starts_numeric s = true ->
  inherited s = false.
Proof.
  destruct s as [|c s]; [reflexivity |].
  destruct c as [[] [] [] [] [] [] [] []]; cbn; (discriminate || reflexivity).
Qed.

Lemma pretty_N_go_numeric (x : N) (s : string) :
  starts_numeric s = true ->
  starts_numeric (pretty_N_go x s) = true.
Proof.
  revert s. induction (N.lt_wf_0 x) as [x _ IH]; intros s Hs.
  assert (x = 0 \/ 0 < x)%N as [-> | Hx] by lia.
  - now rewrite pretty_N_go_0.
  - rewrite pretty_N_go_step by exact Hx. apply IH; [now apply N.div_lt |].
    unfold pretty_N_char. repeat case_match; reflexivity.
Qed.

Lemma pretty_not_inherited (i : Z) : inherited (pretty i) = false.
Proof.
  apply numeric_not_inherited. unfold pretty, pretty_Z.
  destruct i as [|p|p]; [reflexivity | | reflexivity].
  unfold pretty, pretty_positive, pretty, pretty_N.
  case_decide; [reflexivity |]. now apply pretty_N_go_numeric.
Qed.

Lemma onChunk_new (r : Kunai.Receiver) (c : Kunai.ChunkData) (s : string) :
  Kunai.isProcessing r = false -> Kunai.chunkListener r = true ->
  Kunai.ch_data c <> "" ->
  Kunai.receivedChunks r !! pretty (Kunai.ch_index c) = None ->
  s ∉ Kunai.processedChunkIds r ->
  let r' := fst (Kunai.onChunk r (Kunai.as_received c) s) in
  Kunai.metadata r' = Kunai.metadata r /\ Kunai.fileId r' = Kunai.fileId r
  /\ Kunai.collectedChunks r' = Kunai.collectedChunks r + 1
  /\ Kunai.receivedChunks r'
     = <[pretty (Kunai.ch_index c) := JStr (Kunai.ch_data c)]> (Kunai.receivedChunks r)
  /\ Kunai.processedChunkIds r' = {[s]} ∪ Kunai.processedChunkIds r
  /\ (Kunai.collectedChunks r + 1 < Kunai.md_totalChunks (Kunai.metadata r) ->
      Kunai.isProcessing r' = false /\ Kunai.chunkListener r' = true).
Proof.
  intros Hproc Hlis Hdata Hnone Hsoul. cbv zeta.
  unfold Kunai.onChunk. rewrite Hlis. cbn [negb Kunai.as_received Kunai.usable truthy].
  destruct (String.eqb_spec (Kunai.ch_data c) "") as [E | _]; [contradiction |].
  cbn [negb]. rewrite Hproc. rewrite decide_False by exact Hsoul.
  unfold Kunai.store, property_of.
  cbn [Kunai.receivedChunks ToString]. rewrite Hnone, pretty_not_inherited. cbn [negb].
  cbn [Kunai.collectedChunks Kunai.update Kunai.metadata].
  destruct (Kunai.collectedChunks r + 1 >=? Kunai.md_totalChunks (Kunai.metadata r)) eqn:Hge;
    cbn [fst Kunai.metadata Kunai.fileId Kunai.collectedChunks Kunai.receivedChunks
         Kunai.processedChunkIds Kunai.isProcessing Kunai.chunkListener Kunai.update];
    (split; [reflexivity |]; split; [reflexivity |]; split; [reflexivity |];
     split; [reflexivity |]; split; [reflexivity |]); intros Hlt.
  - apply Z.geb_le in Hge. lia.
  - split; reflexivity.
Qed.

Lemma deliver_all (rest : list (Kunai.ChunkData * string)) :
  forall (r : Kunai.Receiver) (done : list Kunai.ChunkData),
    Kunai.isProcessing r = false -> Kunai.chunkListener r = true ->
    (forall c, In c done ->
               Kunai.receivedChunks r !! pretty (Kunai.ch_index c)
               = Some (JStr (Kunai.ch_data c))) ->
    (forall c s, In (c, s) rest ->
                 Kunai.ch_data c <> ""
                 /\ Kunai.receivedChunks r !! pretty (Kunai.ch_index c) = None
                 /\ s ∉ Kunai.processedChunkIds r) ->
    NoDup (map (fun x => Kunai.ch_index (fst x)) rest) -> NoDup (map snd rest) ->
    Kunai.collectedChunks r + Z.of_nat (length rest) = Kunai.md_totalChunks (Kunai.metadata r) ->
    rest <> [] ->
    let r' := fst (Kunai.receiver_run r (map Kunai.deliver rest)) in
    Kunai.metadata r' = Kunai.metadata r /\ Kunai.fileId r' = Kunai.fileId r
    /\ Kunai.collectedChunks r' = Kunai.md_totalChunks (Kunai.metadata r)
    /\ (forall c, In c done \/ In c (map fst rest) ->
                  Kunai.receivedChunks r' !! pretty (Kunai.ch_index c)
                  = Some (JStr (Kunai.ch_data c))).
Proof.
  induction rest as [|[c s] rest IH]; intros r done Hproc Hlis Hdone Hrest Hidx Hsouls Hcount Hne;
    [contradiction |].
  cbn [map Kunai.receiver_run fst snd Kunai.deliver Kunai.receiver_step].
  destruct (Hrest c s (or_introl eq_refl)) as (Hdata & Hnone & Hsoul).
  destruct (onChunk_new r c s Hproc Hlis Hdata Hnone Hsoul)
    as (Hmd & Hfid & Hcol & Hrec & Hids & Hcont).
  set (r1 := fst (Kunai.onChunk r (Kunai.as_received c) s)) in *.
  apply NoDup_cons in Hidx. destruct Hidx as [Hc_notin Hidx].
  apply NoDup_cons in Hsouls. destruct Hsouls as [Hs_notin Hsouls].
  cbn [fst snd] in Hc_notin, Hs_notin.
  assert (Hdone1 : forall c', In c' (done ++ [c]) ->
                              Kunai.receivedChunks r1 !! pretty (Kunai.ch_index c')
                              = Some (JStr (Kunai.ch_data c'))).
  { intros c' Hin. rewrite Hrec. apply in_app_or in Hin. destruct Hin as [Hin | [<- | []]].
    - destruct (decide (pretty (Kunai.ch_index c) = pretty (Kunai.ch_index c'))) as [E | N].
      + apply pretty_Z_inj in E. specialize (Hdone c' Hin). rewrite <- E, Hnone in Hdone.
        discriminate.
      + rewrite lookup_insert_ne by exact N. auto.
    - apply lookup_insert_eq. }
  assert (Hcase : rest = [] \/ (rest <> [] /\ (1 <= length rest)%nat)).
  { destruct rest; [left; reflexivity | right; split; [discriminate | cbn; lia]]. }
  destruct Hcase as [-> | [Hne' Hlen]].
  - cbn [map Kunai.receiver_run fst length] in *.
    split; [exact Hmd |]. split; [exact Hfid |]. split; [lia |].
    intros c' [Hin | [<- | []]]; apply Hdone1, in_or_app; [left | right; left]; auto.
  - cbn [length] in Hcount.
    assert (Hlt : Kunai.collectedChunks r + 1 < Kunai.md_totalChunks (Kunai.metadata r)) by lia.
    destruct (Hcont Hlt) as [Hproc1 Hlis1].
    destruct (IH r1 (done ++ [c]) Hproc1 Hlis1 Hdone1) as (Hmd' & Hfid' & Hcol' & Hrec').
    + intros c' s' Hin. destruct (Hrest c' s' (or_intror Hin)) as (Hd' & Hn' & Hs').
      split; [exact Hd' |]. split.
      * rewrite Hrec. rewrite lookup_insert_ne; [exact Hn' |].
        intros E. apply pretty_Z_inj in E. apply Hc_notin. rewrite E.
        apply list_elem_of_In.
        apply (in_map (fun x => Kunai.ch_index (fst x)) _ (c', s')). exact Hin.
      * rewrite Hids. intros Hel. apply elem_of_union in Hel. destruct Hel as [Hel | Hel].
        -- apply elem_of_singleton in Hel. subst s'. apply Hs_notin.
           apply list_elem_of_In. apply (in_map snd _ (c', s)). exact Hin.
        -- contradiction.
    + exact Hidx.
    + exact Hsouls.
    + rewrite Hmd, Hcol. lia.
    + exact Hne'.
    + cbv zeta in Hmd', Hfid', Hcol', Hrec'.
      split; [congruence |]. split; [congruence |]. split; [congruence |].
      intros c' Hin. apply Hrec'. cbn [map fst] in Hin.
      destruct Hin as [Hin | [<- | Hin]].
      * left. apply in_or_app. now left.
      * left. apply in_or_app. right. now left.
      * right. exact Hin.
Qed.


Lemma chunks_join (s : string) (cs : Z) :
  0 < cs ->
  join "" (map (fun i => slice s (i * cs) ((i + 1) * cs))
               (seqZ 0 (ceil_div (Z.of_nat (String.length s)) cs)))
  = s.
Proof.
  intros Hcs.
  pose proof (ceil_div_spec (Z.of_nat (String.length s)) cs Hcs) as Hceil.
  assert (Htot : 0 <= ceil_div (Z.of_nat (String.length s)) cs)
    by (apply ceil_div_nonneg; lia).
  set (total := ceil_div (Z.of_nat (String.length s)) cs) in *.
  replace total with (Z.of_nat (Z.to_nat total)) by lia.
  rewrite join_windows by exact Hcs.
  rewrite (substring_clip 0) by nia.
  rewrite Nat.sub_0_r. apply substring_all.
Qed.

Lemma filter_all {A : Type} (f : A -> bool) (l : list A) :
  (forall x, In x l -> f x = true) -> List.filter f l = l.
Proof.
  induction l as [|x l IH]; intros H; [reflexivity |]. cbn [List.filter].
  rewrite (H x (or_introl eq_refl)). f_equal. apply IH. intros y Hy. apply H. now right.
Qed.

Lemma filter_none {A : Type} (f : A -> bool) (l : list A) :
  (forall x, In x l -> f x = false) -> List.filter f l = [].
Proof.
  induction l as [|x l IH]; intros H; [reflexivity |]. cbn [List.filter].
  rewrite (H x (or_introl eq_refl)). apply IH. intros y Hy. apply H. now right.
Qed.

Lemma chunk_nonempty (s : string) (cs i : Z) :
  0 < cs -> 0 <= i < ceil_div (Z.of_nat (String.length s)) cs ->
  slice s (i * cs) ((i + 1) * cs) <> "".
Proof.
  intros Hcs Hi.
  pose proof (ceil_div_spec (Z.of_nat (String.length s)) cs Hcs) as Hc.
  rewrite slice_window by nia.
  apply substring_nonempty; nia.
Qed.

(** X11. What [sendFile] writes, a receiver turns into the same bytes: when
    the chunks of an upload reach the listener of another peer, each once
    and in any order, the sweep that follows the last of them emits
    [file-received] with the name, the size and the bytes that were sent. *)
Theorem file_transfer_round_trip (this : Kunai.Kunai) (env : Env) (clock : Kunai.UploadClock)
    (file : Kunai.File) (data : list byte) :
  0 < Kunai.chunkSize this ->
  Kunai.chunks this !! transferCode env = None ->
  toBase64 data <> "" ->
  base64_decode (toBase64 data) = Some data ->
  let fileId := transferCode env in
  let this' := fst (fst (Kunai.sendFile this env clock file (Some data))) in
  exists (meta : Kunai.Metadata) (written : list Kunai.ChunkData),
    Kunai.files this' !! fileId = Some meta
    /\ Kunai.chunks this' !! fileId = Some written
    /\ forall delivery : list (Kunai.ChunkData * string),
         Permutation (map fst delivery) written ->
         NoDup (map snd delivery) ->
         let r0 := Kunai.detect meta fileId in
         let ops := map (fun x => Kunai.Chunk (Kunai.as_received (fst x)) (snd x)) delivery
                    ++ [Kunai.SweepTimer] in
         exists r',
           List.last (snd (Kunai.receiver_run r0 ops)) (r0, [])
           = (r', [Kunai.EmitFileReceived (Kunai.file_name file) (Kunai.file_size file)
                                          data fileId]).
Proof.
  intros Hcs Hfresh Hne Hdec fileId this'.
  set (base64 := toBase64 data) in *.
  set (cs := Kunai.chunkSize this) in *.
  set (total := ceil_div (Z.of_nat (String.length base64)) cs).
  set (chunk := fun i => slice base64 (i * cs) ((i + 1) * cs)).
  set (mk := fun i => {| Kunai.ch_index := i; Kunai.ch_data := chunk i;
                         Kunai.ch_timestamp := Kunai.at_chunk clock i;
                         Kunai.ch_fileId := fileId |}).
  assert (Htotal : 1 <= total).
  { pose proof (ceil_div_spec (Z.of_nat (String.length base64)) cs Hcs) as Hc.
    fold total in Hc. destruct base64; [contradiction | cbn [String.length] in Hc; nia]. }
  eexists _, (map mk (seqZ 0 total)).
  split; [subst this'; unfold Kunai.sendFile; cbn; apply lookup_insert_eq |].
  split.
  { subst this'. unfold Kunai.sendFile.
    cbn [fst Kunai.chunks Kunai.set_chunks Kunai.set_chunkCache Kunai.set_files].
    rewrite lookup_insert_eq. unfold fileId. rewrite Hfresh.
    unfold Kunai.upload. rewrite upload_fold. reflexivity. }
  intros delivery Hperm Hsouls r0 ops.
  assert (Hin : forall c, In c (map fst delivery) <-> exists i, 0 <= i < total /\ c = mk i).
  { intros c. split.
    - intros H. apply (Permutation_in _ Hperm) in H. apply in_map_iff in H.
      destruct H as (i & <- & Hi). exists i. split; [|reflexivity].
      apply list_elem_of_In, elem_of_seqZ_0 in Hi. exact Hi.
    - intros (i & Hi & ->). apply (Permutation_in _ (Permutation_sym Hperm)).
      apply in_map. apply list_elem_of_In, elem_of_seqZ_0. exact Hi. }
  assert (Hlen : Z.of_nat (length delivery) = total).
  { rewrite <- (length_map fst delivery). rewrite (Permutation_length Hperm).
    rewrite length_map, length_seqZ. lia. }
  assert (Hidx : NoDup (map (fun x => Kunai.ch_index (fst x)) delivery)).
  { rewrite <- (map_map fst Kunai.ch_index).
    apply (NoDup_Permutation_proper _ (seqZ 0 total)); [|apply NoDup_seqZ].
    rewrite Hperm. rewrite map_map. cbn [Kunai.ch_index mk]. rewrite map_id. reflexivity. }
  assert (Hnonempty : delivery <> []).
  { intros ->. cbn in Hlen. lia. }
  destruct (deliver_all delivery r0 []) as (Hmd & Hfid & Hcol & Hrec);
    try assumption; try reflexivity.
  { intros c []. }
  { intros c s Hcs'. assert (Hc : In c (map fst delivery)).
    { apply (in_map fst _ (c, s)). exact Hcs'. }
    apply Hin in Hc. destruct Hc as (i & Hi & ->).
    split; [apply chunk_nonempty; assumption |].
    split; [apply lookup_empty | apply not_elem_of_empty]. }
  cbv zeta in Hmd, Hfid, Hcol, Hrec.
  subst ops. unfold Kunai.deliver in *.
  rewrite receiver_run_last.
  set (r' := fst (Kunai.receiver_run r0 _)) in *.
  exists r'. cbn [Kunai.receiver_step]. unfold Kunai.onSweepTimer.
  rewrite Hmd, Hcol. cbn [Kunai.metadata r0 Kunai.detect Kunai.md_totalChunks].
  rewrite Z.sub_diag. cbn [Z.gtb Z.compare andb].
  assert (Hstored : forall i, In i (seqZ 0 total) ->
                              Kunai.receivedChunks r' !! pretty i = Some (JStr (chunk i))).
  { intros i Hi. apply list_elem_of_In, elem_of_seqZ_0 in Hi.
    apply (Hrec (mk i)). right. apply Hin. eauto. }
  assert (Hhas : forall i, In i (seqZ 0 total) ->
                           Kunai.has_chunk (Kunai.receivedChunks r') (pretty i) = true).
  { intros i Hi. unfold Kunai.has_chunk. rewrite (Hstored i Hi). cbn [truthy_opt truthy].
    apply list_elem_of_In, elem_of_seqZ_0 in Hi.
    destruct (String.eqb_spec (chunk i) "") as [E | _]; [|reflexivity].
    now destruct (chunk_nonempty base64 cs i Hcs Hi). }
  assert (Hasm : Kunai.assemble (Kunai.receivedChunks r') total = (base64, [])).
  { unfold Kunai.assemble. rewrite assemble_fold.
    rewrite (filter_all _ _ Hhas).
    rewrite filter_none by (intros i Hi; now rewrite (Hhas i Hi)).
    rewrite app_empty_l. f_equal.
    rewrite (map_ext_in _ chunk).
    - apply chunks_join. exact Hcs.
    - intros i Hi. unfold Kunai.stored. now rewrite (Hstored i Hi). }
  change (Kunai.totalChunks_of this (Kunai.arrayBufferToBase64 data)) with total.
  rewrite Hasm. cbn [Kunai.allChunksPresent snd fst].
  unfold Kunai.reassembleFile. rewrite Hdec, Hfid. reflexivity.
Qed.


End KunaiRoundTrip.

(** ** Kunai: one file, one event *)

Section KunaiOnce.
Context {P : Platform}.

Lemma store_flags (r : Kunai.Receiver) (index data : json) :
  Kunai.isProcessing (Kunai.store r index data) = Kunai.isProcessing r
  /\ Kunai.chunkListener (Kunai.store r index data) = Kunai.chunkListener r
  /\ Kunai.timeoutId (Kunai.store r index data) = Kunai.timeoutId r.
Proof. unfold Kunai.store. case_match; repeat split. Qed.

Ltac phase_done :=
  unfold Kunai.phase, Kunai.waiting in *;
  cbn [Kunai.sweepTimers Kunai.timeoutSweepTimers Kunai.chunkResponses Kunai.transferTimeout
       Kunai.isProcessing Kunai.chunkListener Kunai.timeoutId Kunai.update Kunai.set_sweeps
       Kunai.file_events List.filter length foldl Kunai.arms fst snd Nat.add app String.eqb
       Ascii.eqb Bool.eqb] in *;
  repeat match goal with
         | H : _ /\ _ |- _ => destruct H
         end;
  try congruence;
  first [ left; repeat split; (congruence || lia)
        | right; left; repeat split; (congruence || lia)
        | right; right; repeat split; (congruence || lia) ].

Lemma step_phase (r : Kunai.Receiver) (p p' : Kunai.Pending) (e : nat) (op : Kunai.ReceiverOp) :
  Kunai.phase r p e -> Kunai.fires p op = Some p' ->
  let s := Kunai.receiver_step r op in
  Kunai.phase (fst s) (foldl Kunai.arms p' (snd s)) (e + length (Kunai.file_events (snd s))).
Proof.
  intros Hphase Hfires. cbv zeta.
  destruct op as [chunk chunkId | chunk | | | this | sender response];
    cbn [Kunai.receiver_step Kunai.fires] in *.
  - (* Chunk *)
    injection Hfires as <-.
    unfold Kunai.onChunk.
    destruct (Kunai.chunkListener r) eqn:Hlis; cbn [negb];
      [|destruct Hphase as [H | [H | H]]; phase_done].
    destruct (Kunai.usable chunk) as [[index data]|];
      [|destruct Hphase as [H | [H | H]]; phase_done].
    destruct (Kunai.isProcessing r) eqn:Hproc;
      [destruct Hphase as [H | [H | H]]; phase_done |].
    destruct (decide (chunkId ∈ Kunai.processedChunkIds r));
      [destruct Hphase as [H | [H | H]]; phase_done |].
    match goal with
    | |- context [Kunai.store ?r0 index data] =>
        destruct (store_flags r0 index data) as (Hs1 & Hs2 & Hs3);
        set (r1 := Kunai.store r0 index data) in *
    end.
    cbn [Kunai.isProcessing Kunai.chunkListener Kunai.timeoutId] in Hs1, Hs2, Hs3.
    destruct (Kunai.collectedChunks r1 >=? _);
      destruct Hphase as [H | [H | H]]; phase_done.
  - (* SweepChunk *)
    injection Hfires as <-. unfold Kunai.onSweepChunk.
    destruct (Kunai.usable chunk) as [[index data]|];
      [|destruct Hphase as [H | [H | H]]; phase_done].
    destruct (store_flags r index data) as (Hs1 & Hs2 & Hs3).
    cbn [fst snd]. destruct Hphase as [H | [H | H]]; phase_done.
  - (* SweepTimer *)
    destruct (Kunai.sweepTimers p) as [|n] eqn:Hn; [discriminate |]. injection Hfires as <-.
    unfold Kunai.onSweepTimer.
    destruct (_ && _).
    + destruct Hphase as [H | [H | H]]; phase_done.
    + destruct (Kunai.allChunksPresent _).
      * unfold Kunai.reassembleFile. destruct (base64_decode _);
          destruct Hphase as [H | [H | H]]; phase_done.
      * destruct Hphase as [H | [H | H]]; phase_done.
  - (* Timeout *)
    destruct (Kunai.transferTimeout p) eqn:Ht; [|discriminate]. injection Hfires as <-.
    unfold Kunai.onTimeout.
    destruct (Kunai.timeoutId r) eqn:Htid; cbn [negb];
      [|destruct Hphase as [H | [H | H]]; phase_done].
    destruct (_ && _); destruct Hphase as [H | [H | H]]; phase_done.
  - (* TimeoutSweepTimer *)
    destruct (Kunai.timeoutSweepTimers p) as [|n] eqn:Hn; [discriminate |].
    injection Hfires as <-.
    unfold Kunai.onTimeoutSweepTimer, Kunai.requestMissingChunks.
    destruct (_ && _).
    + destruct Hphase as [H | [H | H]]; phase_done.
    + destruct (Kunai.allChunksPresent _).
      * unfold Kunai.reassembleFile.
        destruct (base64_decode _); destruct (negb _);
          destruct Hphase as [H | [H | H]]; phase_done.
      * destruct (negb _); [unfold property_of; repeat case_match |];
          destruct Hphase as [Hp | [Hp | Hp]]; phase_done.
  - (* ChunksResponse *)
    destruct (Kunai.chunkResponses p) as [|n] eqn:Hn; [discriminate |].
    injection Hfires as <-.
    unfold Kunai.onChunksResponse.
    destruct response as [| | | | |fields];
      try (destruct Hphase as [H | [H | H]]; phase_done).
    destruct (negb _); [destruct Hphase as [H | [H | H]]; phase_done |].
    match goal with
    | |- context [match ?added with Some _ => _ | None => _ end] =>
        destruct added as [received|]
    end; [|destruct Hphase as [H | [H | H]]; phase_done].
    destruct (Kunai.allChunksPresent _).
    + unfold Kunai.reassembleFile.
      destruct (base64_decode _); destruct Hphase as [H | [H | H]]; phase_done.
    + destruct Hphase as [H | [H | H]]; phase_done.
Qed.


Lemma file_events_app (a b : list Kunai.Action) :
  Kunai.file_events (a ++ b) = Kunai.file_events a ++ Kunai.file_events b.
Proof. apply List.filter_app. Qed.

Lemma run_phase (ops : list Kunai.ReceiverOp) (r : Kunai.Receiver) (p : Kunai.Pending) (e : nat) :
  Kunai.phase r p e -> Kunai.scheduled r p ops = true ->
  (e + length (Kunai.file_events (Kunai.actions_of (snd (Kunai.receiver_run r ops)))) <= 1)%nat.
Proof.
  revert r p e. induction ops as [|op ops IH]; intros r p e Hphase Hsched.
  - cbn. destruct Hphase as [H | [H | H]]; unfold Kunai.waiting in H; lia.
  - cbn [Kunai.scheduled] in Hsched.
    destruct (Kunai.fires p op) as [p'|] eqn:Hfires; [|discriminate].
    pose proof (step_phase r p p' e op Hphase Hfires) as Hstep. cbv zeta in Hstep, Hsched.
    specialize (IH _ _ _ Hstep Hsched).
    cbn [Kunai.receiver_run snd]. unfold Kunai.actions_of in *. cbn [flat_map snd].
    rewrite file_events_app, length_app. lia.
Qed.

(** X12. A receiver emits [file-received] at most once for the file it was
    set up for, whatever chunks, timers and responses it meets, as long as
    every timer fires once and a request for missing chunks is answered at
    most once. *)
Theorem file_received_at_most_once (metadata : Kunai.Metadata) (fileId : string)
    (ops : list Kunai.ReceiverOp) :
  Kunai.scheduled (Kunai.detect metadata fileId) Kunai.armed ops = true ->
  (length (Kunai.file_events
             (Kunai.actions_of (snd (Kunai.receiver_run (Kunai.detect metadata fileId) ops))))
   <= 1)%nat.
Proof.
  intros Hsched.
  apply (run_phase ops (Kunai.detect metadata fileId) Kunai.armed 0); [|exact Hsched].
  left. repeat split.
Qed.

End KunaiOnce.

(** ** Kunai: the listener of files *)

Section KunaiFiles.
Context {P : Platform}.

Lemma onFile_tracked (this : Kunai.Kunai) (l : Kunai.Listener) (md : option Kunai.Metadata)
    (f : string) :
  Kunai.tracked l -> Kunai.tracked (Kunai.onFile this l md f).
Proof.
  intros Hinv. unfold Kunai.onFile.
  destruct md as [md|]; [|exact Hinv].
  destruct (String.eqb _ _); [exact Hinv |].
  destruct (decide _) as [Hin | Hnin]; [exact Hinv |].
  intros f'. cbn [Kunai.processedFiles Kunai.receivers].
  rewrite elem_of_union, elem_of_singleton, (Hinv f').
  destruct (decide (f = f')) as [-> | Hne].
  - rewrite lookup_insert_eq. split; eauto.
  - rewrite lookup_insert_ne by exact Hne.
    split; [intros [E | H]; [congruence | exact H] | auto].
Qed.

Lemma onFile_lookup (this : Kunai.Kunai) (l : Kunai.Listener) (md : option Kunai.Metadata)
    (f fileId : string) :
  Kunai.tracked l ->
  Kunai.receivers (Kunai.onFile this l md f) !! fileId
  = match Kunai.receivers l !! fileId with
    | Some r => Some r
    | None =>
        if Kunai.foreign this fileId (md, f)
        then option_map (fun metadata => Kunai.detect metadata fileId) md
        else None
    end.
Proof.
  intros Hinv. unfold Kunai.onFile, Kunai.foreign. cbn [fst snd].
  destruct md as [md|]; [|destruct (Kunai.receivers l !! fileId); reflexivity].
  destruct (String.eqb (Kunai.md_sender md) (Kunai.address this)); cbn [negb andb];
    [destruct (Kunai.receivers l !! fileId); reflexivity |].
  destruct (decide (f ∈ Kunai.processedFiles l)) as [Hin | Hnin].
  - destruct (Kunai.receivers l !! fileId) as [r|] eqn:Hr; [reflexivity |].
    destruct (String.eqb_spec f fileId) as [-> | _]; [|reflexivity].
    apply Hinv in Hin. rewrite Hr in Hin. now destruct Hin.
  - cbn [Kunai.receivers].
    destruct (String.eqb_spec f fileId) as [-> | Hne].
    + rewrite lookup_insert_eq.
      destruct (Kunai.receivers l !! fileId) as [r|] eqn:Hr; [|reflexivity].
      exfalso. apply Hnin, Hinv. rewrite Hr. eauto.
    + rewrite lookup_insert_ne by exact Hne.
      destruct (Kunai.receivers l !! fileId); reflexivity.
Qed.

Lemma onFiles_lookup (this : Kunai.Kunai) (announced : list (option Kunai.Metadata * string))
    (l : Kunai.Listener) (fileId : string) :
  Kunai.tracked l ->
  Kunai.receivers (Kunai.onFiles this l announced) !! fileId
  = match Kunai.receivers l !! fileId with
    | Some r => Some r
    | None =>
        match List.find (Kunai.foreign this fileId) announced with
        | Some (Some metadata, _) => Some (Kunai.detect metadata fileId)
        | _ => None
        end
    end.
Proof.
  revert l. induction announced as [|[md f] announced IH]; intros l Hinv.
  - cbn. destruct (Kunai.receivers l !! fileId); reflexivity.
  - change (Kunai.onFiles this l ((md, f) :: announced))
      with (Kunai.onFiles this (Kunai.onFile this l md f) announced).
    rewrite (IH _ (onFile_tracked this l md f Hinv)).
    rewrite (onFile_lookup this l md f fileId Hinv).
    cbn [List.find].
    destruct (Kunai.receivers l !! fileId) as [r|]; [reflexivity |].
    destruct (Kunai.foreign this fileId (md, f)) eqn:Hf; [|reflexivity].
    unfold Kunai.foreign in Hf. cbn [fst] in Hf. destruct md as [md|]; [reflexivity | discriminate].
Qed.

(** X13. The listener of [files] sets a receiver up for a file once, from
    the first announcement of it that comes from another peer; later
    announcements of the same [fileId] do not replace it.  What a peer
    uploads with [sendFile] it never receives itself. *)
Theorem files_listener (this : Kunai.Kunai) :
  (forall (announced : list (option Kunai.Metadata * string)) (fileId : string),
      Kunai.receivers (Kunai.onFiles this Kunai.listening announced) !! fileId
      = match List.find (Kunai.foreign this fileId) announced with
        | Some (Some metadata, _) => Some (Kunai.detect metadata fileId)
        | _ => None
        end)
  /\ (forall (env : Env) (clock : Kunai.UploadClock) (file : Kunai.File) (data : list byte)
             (l : Kunai.Listener),
        let this' := fst (fst (Kunai.sendFile this env clock file (Some data))) in
        Kunai.onFile this' l (Kunai.files this' !! transferCode env) (transferCode env) = l).
Proof.
  split.
  - intros announced fileId. rewrite onFiles_lookup.
    + cbn. rewrite lookup_empty. reflexivity.
    + intros f. cbn. rewrite lookup_empty. split; [intros H; now apply not_elem_of_empty in H |].
      intros [x H]. discriminate.
  - intros env clock file data l this'. subst this'. unfold Kunai.sendFile.
    cbn [fst Kunai.files Kunai.set_files Kunai.set_chunks Kunai.set_chunkCache].
    rewrite lookup_insert_eq. cbn [Kunai.onFile Kunai.md_sender].
    unfold Kunai.address. cbn [Kunai.yumi Kunai.set_files Kunai.set_chunks Kunai.set_chunkCache].
    rewrite String.eqb_refl. reflexivity.
Qed.

End KunaiFiles.

(** ** Yari: direct messages and the listener of messages *)

Section YariReceive.
Context {P : Platform}.

Lemma send_ready_direct (y : Yari.Yari) (env : Env) (address message : json) :
  truthy message = true ->
  let r := Yari.send_ready y env (Some address) (Some message) in
  fst (fst r) = y
  /\ Yari.directed_sends (snd (fst r)) = []
  /\ (Yari.peers y !! ToString address = None -> inherited (ToString address) = false ->
      r = (y, [], Throw (PeerNotFound (ToString address))))
  /\ (forall peer secret enc,
        Yari.peers y !! ToString address = Some peer ->
        Yari.has_slice address = true ->
        SEA_secret (Some (Yari.epub peer)) (Yari.sea y) = Some secret ->
        SEA_encrypt (Some message) secret = Some enc ->
        r = (y, [Yari.WarnInvalidFormat (JArr [address; enc; JStr (msgId env)])], Ok tt)).
Proof.
  intros Ht r. subst r. unfold Yari.send_ready, property_of. cbn [truthy_opt].
  rewrite Ht. cbn [negb Yumi.ToString_opt].
  destruct (Yari.peers y !! ToString address) as [peer|] eqn:E1.
  - destruct (Yari.has_slice address) eqn:E0; cbn [negb].
    + destruct (SEA_secret (Some (Yari.epub peer)) (Yari.sea y)) as [secret|] eqn:E2.
      * destruct (SEA_encrypt (Some message) secret) as [enc|] eqn:E3.
        -- cbn. repeat split; try discriminate.
           intros peer' secret' enc' H1 _ H2 H3. injection H1 as <-.
           rewrite E2 in H2. injection H2 as <-. rewrite E3 in H3. injection H3 as <-.
           reflexivity.
        -- cbn. repeat split; try discriminate.
           intros peer' secret' enc' H1 _ H2 H3. injection H1 as <-.
           rewrite E2 in H2. injection H2 as <-. rewrite E3 in H3. discriminate.
      * cbn. repeat split; try discriminate.
        intros peer' secret' enc' H1 _ H2 H3. injection H1 as <-.
        rewrite E2 in H2. discriminate.
    + cbn. repeat split; discriminate.
  - destruct (inherited (ToString address)) eqn:E4.
    + destruct (Yari.has_slice address) eqn:E0; cbn [negb];
        [| cbn; repeat split; discriminate].
      destruct (SEA_secret None (Yari.sea y)) as [secret|];
        [| cbn; repeat split; discriminate].
      destruct (SEA_encrypt (Some message) secret) as [enc|];
        cbn; repeat split; discriminate.
    + cbn. repeat split; discriminate.
Qed.

(** X15. [send(address, message)] of the overlay, with a truthy message,
    never calls [yumi.send].  While the table of the overlay is empty the
    call waits for the first peer.  From then on it leaves the overlay and
    the channel as they are: for an address that is neither in the table
    nor the name of an inherited property it raises [Peer not found], and
    for a registered peer the listener of ['encoded'] refuses the
    three-element array, so that the call resolves without an error when
    the encryption succeeds. *)
Theorem direct_send_reaches_no_channel (y : Yari.Yari) (env : Env) (address message : json) :
  truthy message = true ->
  match Yari.send y env (Some address) (Some message) with
  | None => size (Yari.peers y) = 0%nat
  | Some r =>
      size (Yari.peers y) <> 0%nat
      /\ fst (fst r) = y
      /\ Yari.directed_sends (snd (fst r)) = []
      /\ (Yari.peers y !! ToString address = None ->
          inherited (ToString address) = false ->
          r = (y, [], Throw (PeerNotFound (ToString address))))
      /\ (forall peer secret enc,
            Yari.peers y !! ToString address = Some peer ->
            Yari.has_slice address = true ->
            SEA_secret (Some (Yari.epub peer)) (Yari.sea y) = Some secret ->
            SEA_encrypt (Some message) secret = Some enc ->
            r = (y, [Yari.WarnInvalidFormat (JArr [address; enc; JStr (msgId env)])],
                 Ok tt))
  end.
Proof.
  intros Ht. unfold Yari.send.
  destruct (Z.eqb_spec (Z.of_nat (size (Yari.peers y))) 0) as [E | E]; [lia |].
  split; [lia |]. exact (send_ready_direct y env address message Ht).
Qed.

(** X16. The overlay never emits [decrypted] for a message of its channel:
    the channel hands its listeners the parsed packet, an object, as third
    argument, the listener of the overlay takes it for the message
    identifier and calls [slice] on it, and the listener ends there, with
    the packet added to the set of processed messages. *)
Theorem channel_messages_never_decrypted
    (SEA_decrypt : json -> string -> option (option json)) (y : Yari.Yari)
    (processedMessages : list json) (fresh : string)
    (b : Yumi.Yumi) (id : string) (env : Env) (message : list byte)
    (a : string) (m pkt : json) :
  In (Yumi.EvMessage a m pkt) (snd (Yumi.onMessage b id env message)) ->
  Yari.on_message SEA_decrypt y processedMessages fresh a (Some m) (Some pkt)
  = (processedMessages ++ [pkt], [Yari.Rejected]).
Proof.
  intros Hin.
  destruct (message_event_inv b id env message a m pkt Hin)
    as (signedPkt & p & s & packet & pk & pkBytes
        & _ & _ & _ & _ & _ & _ & _ & _ & _ & _ & -> & _).
  reflexivity.
Qed.

End YariReceive.

(** ** Codecs outside Node *)

Section Codecs.
Context {P : Platform}.

Lemma fromHex_byte (b : byte) (rest : string) :
  Utils.fromHex_pairs
    (String (hex_digit (Byte.to_N b / 16)) (String (hex_digit (Byte.to_N b mod 16)) rest))
  = b :: Utils.fromHex_pairs rest.
Proof.
  cbn [Utils.fromHex_pairs]. f_equal. destruct b; vm_compute; reflexivity.
Qed.

(** X17. Outside Node, [fromHex] undoes [toHex]: for every byte array,
    decoding its hexadecimal form gives the array back. *)
Theorem fromHex_toHex (arr : list byte) : Utils.fromHex_browser (toHex arr) = arr.
Proof.
  unfold Utils.fromHex_browser. induction arr as [|b arr IH]; [reflexivity |].
  cbn [toHex foldr]. cbv zeta. rewrite fromHex_byte. f_equal. exact IH.
Qed.


Lemma byte_eqb_refl (b : byte) : Byte.eqb b b = true.
Proof. apply Byte.byte_dec_lb. reflexivity. Qed.

(** X18. Outside Node, [bs58checkDecode] undoes [bs58checkEncode] wherever
    [bs58] round-trips, and so the constructor recovers from a seed made by
    [encodeseed] the very bytes that were encoded. *)
Theorem bs58check_round_trip (data : list byte) :
  let checksum := take 4 (nacl_hash (nacl_hash data)) in
  (4 <= length (nacl_hash (nacl_hash data)))%nat ->
  bs58_decode (bs58_encode (data ++ checksum)) = Some (data ++ checksum) ->
  Utils.bs58checkDecode_browser (Utils.bs58checkEncode_browser data) = Utils.Payload data
  /\ (forall material, data = Utils.SEEDPREFIX ++ material ->
        Utils.seedBytes_browser (Utils.encodeseed_browser material) = Utils.Payload material).
Proof.
  intros checksum Hlen Hdec.
  assert (Hck : length checksum = 4%nat) by (unfold checksum; rewrite length_take; lia).
  assert (Hround : Utils.bs58checkDecode_browser (Utils.bs58checkEncode_browser data)
                   = Utils.Payload data).
  { unfold Utils.bs58checkEncode_browser, Utils.bs58checkDecode_browser. fold checksum.
    rewrite take_app_length' by (symmetry; exact Hck). rewrite Hdec.
    rewrite length_app, Hck.
    replace (length data + 4 - 4)%nat with (length data) by lia.
    rewrite take_app_length, drop_app_length. fold checksum.
    destruct checksum as [|a [|b [|c [|d [|]]]]]; try discriminate Hck.
    cbn. now rewrite !byte_eqb_refl. }
  split; [exact Hround |].
  intros material ->. unfold Utils.seedBytes_browser, Utils.encodeseed_browser.
  rewrite Hround. reflexivity.
Qed.

End Codecs.

(* ===================================================================== *)
(** * The properties on the demo platform                                 *)
(* ===================================================================== *)

Lemma sha512_length (m : list byte) : length (SHA512.sha512 m) = 64%nat.
Proof.
  unfold SHA512.sha512.
  destruct (foldl SHA512.compress SHA512.H0 _) as [[[[[[[a b] c] d] e] f] g] h].
  reflexivity.
Qed.

(** The digest of the three bytes [abc], as FIPS 180-4 gives it. *)
Example sha512_abc :
  toHex (SHA512.sha512 (Demo.bytes "abc"))
  = "ddaf35a193617abacc417349ae20413112e6fa4e89a97ea20a9eeee64b55d39a2192992a274fc1a836ba3c23a3feebbd454d4423643ce80e2a9ac94fa54ca49f".
Proof. vm_compute. reflexivity. Qed.

(** C1, on a transfer of two chunks: the step that emits the file. *)
Lemma C1_witness :
  In Demo.receive_last (snd (Kunai.receiver_run Demo.receiver0 Demo.receive_ops))
  /\ In (Kunai.EmitFileReceived "h.txt" 12 (Demo.bytes "hello world!") "7-ninja-tokyo")
        (snd Demo.receive_last)
  /\ base64_decode
       (join "" (map (Kunai.stored (Kunai.receivedChunks (fst Demo.receive_last)))
                     (seqZ 0 2)))
     = Some (Demo.bytes "hello world!").
Proof.
  assert (H1 : In (fst Demo.receive_last, snd Demo.receive_last)
                  (snd (Kunai.receiver_run Demo.receiver0 Demo.receive_ops))).
  { right. right. left. vm_compute. reflexivity. }
  assert (H2 : In (Kunai.EmitFileReceived "h.txt" 12 (Demo.bytes "hello world!")
                                          "7-ninja-tokyo")
                  (snd Demo.receive_last)).
  { left. vm_compute. reflexivity. }
  split; [exact H1 |]. split; [exact H2 |].
  exact (proj1 (proj2 (C1_file_received_complete
                         Demo.receiver0 Demo.receive_ops
                         (fst Demo.receive_last) (snd Demo.receive_last)
                         "h.txt" 12 (Demo.bytes "hello world!") "7-ninja-tokyo" H1 H2))).
Defined.

(** C2, on a record that Bob receives twice. *)
Lemma C2_witness :
  Forall (fun eo => now (fst eo) <> 0) Demo.duplicate_trace
  /\ (length (List.filter (Yumi.processed (Yumi.packet_hash (toBuffer Demo.hello)))
                          (snd (Yumi.run Demo.bob Demo.duplicate_trace))) <= 1)%nat.
Proof.
  assert (H : Forall (fun eo => now (fst eo) <> 0) Demo.duplicate_trace).
  { repeat constructor; simpl; lia. }
  split; [exact H |].
  exact (proj1 (C2_delivered_at_most_once Demo.bob Demo.duplicate_trace
                  (Yumi.packet_hash (toBuffer Demo.hello)) H)).
Defined.

(** The first receipt delivers the message, the second nothing. *)
Example duplicate_delivered_once :
  map (fun s => length (snd s)) (snd (Yumi.run Demo.bob Demo.duplicate_trace))
  = [3%nat; 0%nat].
Proof. vm_compute. reflexivity. Qed.

(** C3, the claim fails: the key [sendRaw] records for the packet [abc],
    in the graph store and in the seen set, has 96 hexadecimal digits. It
    is the SHA-512 of the packet without its first 16 bytes: 48 bytes, not
    16. *)
Lemma C3_counterexample :
  map fst (map_to_list (Yumi.messages
                          (Yumi.sendRaw Demo.alice (Demo.env_at 1000 "nonce001") "abc")))
  = ["12e6fa4e89a97ea20a9eeee64b55d39a2192992a274fc1a836ba3c23a3feebbd454d4423643ce80e2a9ac94fa54ca49f"]
  /\ map fst (map_to_list (Yumi.seen
                             (Yumi.sendRaw Demo.alice (Demo.env_at 1000 "nonce001") "abc")))
     = ["12e6fa4e89a97ea20a9eeee64b55d39a2192992a274fc1a836ba3c23a3feebbd454d4423643ce80e2a9ac94fa54ca49f"]
  /\ Yumi.packet_hash (Demo.bytes "abc")
     = "12e6fa4e89a97ea20a9eeee64b55d39a2192992a274fc1a836ba3c23a3feebbd454d4423643ce80e2a9ac94fa54ca49f"
  /\ length (drop 16 (SHA512.sha512 (Demo.bytes "abc"))) = 48%nat
  /\ toHex (take 16 (SHA512.sha512 (Demo.bytes "abc"))) = "ddaf35a193617abacc417349ae204131".
Proof. vm_compute. repeat split; reflexivity. Qed.

(** C3 as amended, on the packet [hello] from Alice to Bob. *)
Lemma C3_witness :
  (forall m, length (nacl_hash m) = 64%nat)
  /\ fromBase64 (toBase64 (toBuffer Demo.hello)) = toBuffer Demo.hello
  /\ toBase64 (toBuffer Demo.hello) <> ""
  /\ now (Demo.env_at 1000 "nonce001") <> 0
  /\ String.length (toHex (drop 16 (nacl_hash (toBuffer Demo.hello)))) = 96%nat.
Proof.
  assert (H1 : forall m, length (nacl_hash m) = 64%nat) by exact sha512_length.
  assert (H2 : fromBase64 (toBase64 (toBuffer Demo.hello)) = toBuffer Demo.hello)
    by (vm_compute; reflexivity).
  assert (H3 : toBase64 (toBuffer Demo.hello) <> "") by (vm_compute; discriminate).
  assert (H4 : now (Demo.env_at 1000 "nonce001") <> 0) by (simpl; lia).
  repeat (split; [assumption |]).
  exact (proj1 (proj2 (C3_hash_key Demo.alice Demo.bob (Demo.env_at 1000 "nonce001")
                         (Demo.env_at 1100 "nonce002") Demo.hello H1 H2 H3 H4))).
Defined.

(** C4, on twelve bytes cut into chunks of four characters. *)
Lemma C4_witness :
  0 < Kunai.chunkSize Demo.kunai4
  /\ exists totalChunks,
       (totalChunks - 1) * 4 < 16 <= totalChunks * 4
       /\ join "" (map (fun i => slice (toBase64 (Demo.bytes "hello world!"))
                                       (i * 4) ((i + 1) * 4))
                       (seqZ 0 totalChunks))
          = toBase64 (Demo.bytes "hello world!").
Proof.
  assert (H : 0 < Kunai.chunkSize Demo.kunai4) by (simpl; lia).
  split; [exact H |].
  destruct (C4_sendFile_chunking Demo.kunai4 (Demo.env_at 1000 "nonce012")
              Demo.upload_clock Demo.h_txt (Demo.bytes "hello world!") H)
    as (this' & totalChunks & entry & meta & _ & Hceil & _ & _ & _ & _ & _ & _ & _ & Hjoin).
  exists totalChunks. split; [exact Hceil | exact Hjoin].
Defined.

(** The chunks of that upload. *)
Example upload_four_chunks :
  map_to_list (Kunai.ce_chunks Demo.sent_entry)
  = [(3, "bGQh"); (2, "d29y"); (1, "bG8g"); (0, "aGVs")]
  /\ Kunai.md_totalChunks (Kunai.ce_metadata Demo.sent_entry) = 4.
Proof. vm_compute. split; reflexivity. Qed.

(** C5, on sweeps up to the last millisecond of the retention time. *)
Lemma C5_witness :
  Kunai.chunkCache Demo.kunai_sent !! "7-ninja-tokyo" = Some Demo.sent_entry
  /\ forallb (Kunai.within_retention "7-ninja-tokyo" (Kunai.ce_timestamp Demo.sent_entry))
             Demo.retention_trace = true
  /\ exists e', Kunai.chunkCache (Kunai.run Demo.kunai_sent Demo.retention_trace)
                  !! "7-ninja-tokyo" = Some e'
                /\ Kunai.ce_timestamp Demo.sent_entry <= Kunai.ce_timestamp e'
                /\ (forallb (fun eo => negb (Kunai.redraws "7-ninja-tokyo" eo))
                            Demo.retention_trace = true -> e' = Demo.sent_entry).
Proof.
  assert (H1 : Kunai.chunkCache Demo.kunai_sent !! "7-ninja-tokyo" = Some Demo.sent_entry)
    by (vm_compute; reflexivity).
  assert (H2 : forallb (Kunai.within_retention "7-ninja-tokyo"
                                               (Kunai.ce_timestamp Demo.sent_entry))
                       Demo.retention_trace = true)
    by (vm_compute; reflexivity).
  split; [exact H1 |]. split; [exact H2 |].
  exact (proj1 (C5_cache_retention Demo.kunai_sent Demo.retention_trace
                  "7-ninja-tokyo" Demo.sent_entry H1 H2)).
Defined.

(** C5, the claim fails: 1.1 s after the entry of [hello world!] was cached,
    without a confirmation and long before a sweep could evict it, a second
    upload draws the same transfer code and [sendFile] puts its entry in
    the place of the first; the chunk 3 of [hello world!] is no longer in
    the cache, and a request for it is answered with no chunk. *)
Lemma C5_counterexample :
  Kunai.chunkCache Demo.kunai_sent !! "7-ninja-tokyo" = Some Demo.sent_entry
  /\ Kunai.ce_timestamp Demo.sent_entry = 2000
  /\ Kunai.ce_chunks Demo.sent_entry !! 3 = Some "bGQh"
  /\ forallb (Kunai.within_retention "7-ninja-tokyo" 2000) Demo.redraw_trace = true
  /\ option_map Kunai.ce_timestamp
       (Kunai.chunkCache (Kunai.run Demo.kunai_sent Demo.redraw_trace) !! "7-ninja-tokyo")
     = Some 3100
  /\ option_map (fun e => Kunai.ce_chunks e !! 3)
       (Kunai.chunkCache (Kunai.run Demo.kunai_sent Demo.redraw_trace) !! "7-ninja-tokyo")
     = Some None
  /\ Kunai.request_chunks (Kunai.run Demo.kunai_sent Demo.redraw_trace) Demo.bob_address
       (JObj [("fileId", JStr "7-ninja-tokyo"); ("missingChunks", JArr [JNum 3])])
     = Some (JObj [("success", JBool true); ("fileId", JStr "7-ninja-tokyo");
                   ("chunks", JArr [])]).
Proof. vm_compute. repeat split; reflexivity. Qed.

(** One millisecond later the sweeper evicts the entry. *)
Example evicted_after_retention :
  Kunai.chunkCache
    (Kunai.cacheCleanup Demo.kunai_sent
       (Demo.env_at (2000 + Kunai.CACHE_RETENTION + 1) "nonce017")) !! "7-ninja-tokyo"
  = None.
Proof. vm_compute. reflexivity. Qed.

(** C6, on a request for the chunks 0, 9 and 3 of the file sent. *)
Lemma C6_witness :
  Kunai.reachable Demo.kunai_sent
  /\ Kunai.request_chunks Demo.kunai_sent Demo.bob_address
       (JObj [("fileId", JStr "7-ninja-tokyo");
              ("missingChunks", JArr (map JNum [0; 9; 3]))])
     = Some (JObj [("success", JBool true); ("fileId", JStr "7-ninja-tokyo");
                   ("chunks", JArr [JObj [("index", JNum 0); ("data", JStr "aGVs")];
                                    JObj [("index", JNum 3); ("data", JStr "bGQh")]])]).
Proof.
  assert (H : Kunai.reachable Demo.kunai_sent).
  { exists Demo.alice, (Some 4), Demo.upload_trace. reflexivity. }
  split; [exact H |].
  rewrite (C6_request_chunks Demo.kunai_sent Demo.bob_address "7-ninja-tokyo" [0; 9; 3] H).
  vm_compute. reflexivity.
Defined.

(** C7, the claim fails: Alice knows no peer; [send] to an address with the
    value 0 raises nothing and writes a packet, the broadcast of the
    address. *)
Lemma C7_counterexample :
  Yumi.peers Demo.alice !! "55725183c1025791f26e818da72cbe725e212e7b76" = None
  /\ snd (Yumi.send Demo.alice (Demo.env_at 1000 "nonce001")
                    (Some (JStr "55725183c1025791f26e818da72cbe725e212e7b76"))
                    (Some (JNum 0)))
     = Ok tt
  /\ size (Yumi.messages
             (fst (Yumi.send Demo.alice (Demo.env_at 1000 "nonce001")
                             (Some (JStr "55725183c1025791f26e818da72cbe725e212e7b76"))
                             (Some (JNum 0)))))
     = 1%nat
  /\ size (Yumi.messages Demo.alice) = 0%nat.
Proof. vm_compute. repeat split; reflexivity. Qed.

(** C7 as amended, on Alice before she has seen anyone: a call of Bob,
    and a call of the address [toString]. *)
Lemma C7_witness :
  Yumi.reachable Demo.alice
  /\ Yumi.rpc Demo.alice (Demo.env_at 1000 "nonce001") Demo.bob_address
              (Some (JStr "status")) (Yumi.ArgsValue (Some JNull)) (Some 7%nat)
     = (Demo.alice, Throw (NotSeenNoPublicKey Demo.bob_address))
  /\ Yumi.rpc Demo.alice (Demo.env_at 1000 "nonce001") "toString"
              (Some (JStr "status")) (Yumi.ArgsValue (Some JNull)) (Some 7%nat)
     = (Yumi.set_callbacks
          (insert (toHex (callnonce8 (Demo.env_at 1000 "nonce001"))) (Some 7%nat))
          Demo.alice,
        Throw (NotSeenNoEncryptionKey (Yumi.address Demo.alice None))).
Proof.
  assert (H : Yumi.reachable Demo.alice).
  { exists (Some "room"), None, (Demo.key "AAAA"), (Demo.key "AAAA"),
      (Demo.key "aaaa"), (Demo.key "aaaa"), []. reflexivity. }
  split; [exact H |].
  destruct (C7_unknown_peer Demo.alice (Demo.env_at 1000 "nonce001") H)
    as (_ & Hrpc & _ & _ & _ & _ & Hinherited).
  split.
  - apply Hrpc; vm_compute; reflexivity.
  - apply Hinherited; vm_compute; reflexivity.
Defined.

(** C8, on a packet that is [timeout + 1] ms old when Bob receives it. *)
Lemma C8_witness :
  Yumi.payload_of Demo.bob (toBuffer Demo.hello) = Some Demo.hello_payload
  /\ get "t" Demo.hello_payload
     = Some (JNum (now Demo.late - (Yumi.timeout Demo.bob + 1)))
  /\ Yumi.onMessage Demo.bob "room" Demo.late (toBuffer Demo.hello)
     = (Yumi.dropped Demo.bob Demo.late (toBuffer Demo.hello), []).
Proof.
  assert (H1 : Yumi.payload_of Demo.bob (toBuffer Demo.hello) = Some Demo.hello_payload)
    by (vm_compute; reflexivity).
  assert (H2 : get "t" Demo.hello_payload
               = Some (JNum (now Demo.late - (Yumi.timeout Demo.bob + 1))))
    by (vm_compute; reflexivity).
  split; [exact H1 |]. split; [exact H2 |].
  exact (proj1 (C8_bad_packet_discarded Demo.bob "room" Demo.late (toBuffer Demo.hello)
                  Demo.hello_payload H1 (or_intror (or_intror H2)))).
Defined.

(** One millisecond earlier the packet is dropped as well; two earlier it
    is delivered. *)
Example freshness_boundary :
  snd (Yumi.onMessage Demo.bob "room" (Demo.env_at (1000 + Yumi.PEERTIMEOUT) "nonce004")
                      (toBuffer Demo.hello)) = []
  /\ length (snd (Yumi.onMessage Demo.bob "room"
                                 (Demo.env_at (1000 + Yumi.PEERTIMEOUT - 1) "nonce004")
                                 (toBuffer Demo.hello))) = 3%nat.
Proof. vm_compute. split; reflexivity. Qed.

(** C9 at the failing input: one peer in the table of the overlay, whom
    the channel knows as well; the broadcast calls [yumi.send] not once and
    warns of an invalid format. *)
Lemma C9_failing_input :
  size (Yari.peers Demo.yari1) = 1%nat
  /\ is_Some (Yumi.peers (Yari.yumi Demo.yari1) !! Demo.bob_address)
  /\ exists y' actions,
       Yari.send Demo.yari1 (Demo.env_at 5000 "nonce020")
                 (Some (JObj [("text", JStr "hi")])) None
       = Some (y', actions, Ok tt)
       /\ Yari.directed_sends actions = []
       /\ actions = [Yari.WarnInvalidFormat
                       (JArr [JStr Demo.bob_address;
                              JObj [("ct", JStr (JSON_stringify (JObj [("text", JStr "hi")])));
                                    ("s", JStr "bob-epubalice-epriv")];
                              JStr "1000-alice-x1y2z3a"])].
Proof.
  split; [vm_compute; reflexivity |].
  split; [vm_compute; eauto |].
  eexists _, _. split; [vm_compute; reflexivity |].
  split; vm_compute; reflexivity.
Qed.



(** The first of the two responses calls the callback, the second is
    dropped. *)
Example response_served_once :
  Yumi.invocations Demo.call_nonce
    (Yumi.events_of (snd (Yumi.run Demo.alice_calls Demo.response_trace)))
  = [Yumi.CallbackCall (Some (JStr Demo.call_nonce)) 7%nat (JObj [("up", JBool true)])].
Proof. vm_compute. reflexivity. Qed.

(** A callback that raises stays pending: the second response calls it
    again. *)
Example raising_callback_called_twice :
  Yumi.invocations Demo.call_nonce
    (Yumi.events_of (snd (Yumi.run Demo.alice_calls Demo.raising_trace)))
  = [Yumi.CallbackCall (Some (JStr Demo.call_nonce)) 7%nat (JObj [("up", JBool true)]);
     Yumi.CallbackCall (Some (JStr Demo.call_nonce)) 7%nat (JObj [("up", JBool true)])].
Proof. vm_compute. reflexivity. Qed.

(** Alice has registered no callback; a response under the nonce
    [toString] is not dropped: [rpc-response] is emitted and the inherited
    function called. *)
Example inherited_nonce_answered :
  Yumi.callbacks Demo.alice = ∅
  /\ snd (Yumi.onMessage Demo.alice "room" (Demo.env_at 2400 "nonce010")
                         (toBuffer Demo.response_toString))
     = [Yumi.EvSeen Demo.bob_address; Yumi.EvConnections 1;
        Yumi.EvRpcResponse Demo.bob_address (Some (JStr "toString"))
                           (JObj [("up", JBool true)]);
        Yumi.PrototypeCall "toString"].
Proof. vm_compute. split; reflexivity. Qed.

(* ===================================================================== *)
(** * The further properties on the demo platform                         *)
(* ===================================================================== *)

Lemma in_nth (A : Type) (n : nat) (l : list A) (x : A) : nth_error l n = Some x -> In x l.
Proof. apply nth_error_In. Qed.

Lemma carried_hello : Yumi.carried Demo.alice (Demo.env_at 1000 "nonce001") Demo.hello_params.
Proof. cbv zeta; repeat (apply conj); vm_compute; reflexivity. Qed.

Lemma reachable_alice_knows_bob : Yumi.reachable Demo.alice_knows_bob.
Proof.
  exists (Some "room"), None, (Demo.key "AAAA"), (Demo.key "AAAA"),
    (Demo.key "aaaa"), (Demo.key "aaaa"), Demo.ping_trace.
  vm_compute. reflexivity.
Qed.


(** X2, on [hello] under a signature that is not Alice's. *)
Lemma bad_signature_dropped_witness :
  Yumi.signed_of Demo.bob (toBuffer Demo.forged)
  = Some [("s", JStr "00ff"); ("p", JStr Demo.hello_signed)]
  /\ JSON_parse Demo.hello_signed
     = Some (JObj (Yumi.payload Demo.alice (Demo.env_at 1000 "nonce001") Demo.hello_params))
  /\ bs58_decode (Yumi.pk Demo.alice) = Some (Demo.key "AAAA")
  /\ nacl_sign_detached_verify (toBuffer Demo.hello_signed) (fromHex "00ff")
                               (Demo.key "AAAA") <> Some true
  /\ Yumi.onMessage Demo.bob "room" (Demo.env_at 1100 "nonce002") (toBuffer Demo.forged)
     = (Yumi.dropped Demo.bob (Demo.env_at 1100 "nonce002") (toBuffer Demo.forged), []).
Proof.
  assert (H1 : Yumi.signed_of Demo.bob (toBuffer Demo.forged)
               = Some [("s", JStr "00ff"); ("p", JStr Demo.hello_signed)])
    by (vm_compute; reflexivity).
  assert (H2 : JSON_parse Demo.hello_signed
               = Some (JObj (Yumi.payload Demo.alice (Demo.env_at 1000 "nonce001")
                                          Demo.hello_params)))
    by (vm_compute; reflexivity).
  assert (H3 : bs58_decode (Yumi.pk Demo.alice) = Some (Demo.key "AAAA"))
    by (vm_compute; reflexivity).
  assert (H4 : nacl_sign_detached_verify (toBuffer Demo.hello_signed) (fromHex "00ff")
                                         (Demo.key "AAAA") <> Some true)
    by (vm_compute; discriminate).
  repeat (split; [assumption |]).
  exact (proj1 (bad_signature_dropped Demo.bob "room" (Demo.env_at 1100 "nonce002")
                  (toBuffer Demo.forged) _ _ _ _ _ _ H1 eq_refl eq_refl H2 eq_refl H3 H4)).
Defined.

(** X3, on Alice's [hello] and Bob. *)
Lemma broadcast_delivered_witness :
  Yumi.carried Demo.alice (Demo.env_at 1000 "nonce001") Demo.hello_params
  /\ JSON_parse (JSON_stringify Demo.hello_value) = Some Demo.hello_value
  /\ truthy Demo.hello_value = true
  /\ Yumi.identifier Demo.alice = Yumi.identifier Demo.bob
  /\ now (Demo.env_at 1100 "nonce002")
     < now (Demo.env_at 1000 "nonce001") + Yumi.timeout Demo.bob
  /\ truthy_num (Yumi.seen Demo.bob !! Yumi.packet_hash (toBuffer Demo.hello)) = false
  /\ Yumi.messages_of
       (snd (Yumi.onMessage Demo.bob (Yumi.identifier Demo.bob) (Demo.env_at 1100 "nonce002")
                            (toBuffer Demo.hello)))
     = [Yumi.EvMessage (Yumi.address Demo.bob (Some (Yumi.pk Demo.alice))) Demo.hello_value
                       (JObj (Yumi.payload Demo.alice (Demo.env_at 1000 "nonce001")
                                           Demo.hello_params))].
Proof.
  assert (H1 := carried_hello).
  assert (H2 : JSON_parse (JSON_stringify Demo.hello_value) = Some Demo.hello_value)
    by (vm_compute; reflexivity).
  assert (H3 : truthy Demo.hello_value = true) by reflexivity.
  assert (H4 : Yumi.identifier Demo.alice = Yumi.identifier Demo.bob) by reflexivity.
  assert (H5 : now (Demo.env_at 1100 "nonce002")
               < now (Demo.env_at 1000 "nonce001") + Yumi.timeout Demo.bob)
    by (vm_compute; reflexivity).
  assert (H6 : truthy_num (Yumi.seen Demo.bob !! Yumi.packet_hash (toBuffer Demo.hello))
               = false) by (vm_compute; reflexivity).
  repeat (split; [assumption |]).
  exact (proj1 (proj2 (broadcast_delivered Demo.alice Demo.bob (Demo.env_at 1000 "nonce001")
                         (Demo.env_at 1100 "nonce002") Demo.hello_value
                         H1 H2 H3 H4 H5 H6))).
Defined.

(** X4, on Alice, who has seen Bob, and a value for him alone. *)
Lemma directed_delivered_witness :
  Yumi.reachable Demo.alice_knows_bob
  /\ Yumi.peers Demo.alice_knows_bob !! Demo.bob_address = Some Demo.bob_entry
  /\ Yumi.sealed Demo.alice_knows_bob Demo.bob (Demo.env_at 2200 "nonce007")
                 (Yumi.makePacket Demo.alice_knows_bob (Demo.env_at 2200 "nonce007")
                                  Demo.hello_params)
                 (Yumi.ek Demo.bob)
  /\ Yumi.carried Demo.alice_knows_bob (Demo.env_at 2200 "nonce007") Demo.hello_params
  /\ exists wire,
       Yumi.send Demo.alice_knows_bob (Demo.env_at 2200 "nonce007")
                 (Some (JStr Demo.bob_address)) (Some Demo.hello_value)
       = (Yumi.sendRaw Demo.alice_knows_bob (Demo.env_at 2200 "nonce007") wire, Ok tt)
       /\ Yumi.messages_of
            (snd (Yumi.onMessage Demo.bob (Yumi.identifier Demo.bob)
                                 (Demo.env_at 2300 "nonce008") (toBuffer wire)))
          = [Yumi.EvMessage (Yumi.address Demo.bob (Some (Yumi.pk Demo.alice_knows_bob)))
                            Demo.hello_value
                            (JObj (Yumi.payload Demo.alice_knows_bob
                                                (Demo.env_at 2200 "nonce007")
                                                Demo.hello_params))].
Proof.
  assert (H1 := reachable_alice_knows_bob).
  assert (H2 : Yumi.peers Demo.alice_knows_bob !! Demo.bob_address = Some Demo.bob_entry)
    by (vm_compute; reflexivity).
  assert (H3 : Yumi.sealed Demo.alice_knows_bob Demo.bob (Demo.env_at 2200 "nonce007")
                           (Yumi.makePacket Demo.alice_knows_bob
                                            (Demo.env_at 2200 "nonce007") Demo.hello_params)
                           (Yumi.ek Demo.bob)).
  { eexists _, _, _. split; [vm_compute; reflexivity |].
    split; [vm_compute; reflexivity |]. cbv zeta; repeat (apply conj); vm_compute; reflexivity. }
  assert (H4 : Yumi.carried Demo.alice_knows_bob (Demo.env_at 2200 "nonce007")
                            Demo.hello_params)
    by (cbv zeta; repeat (apply conj); vm_compute; reflexivity).
  repeat (split; [assumption |]).
  assert (H5 : Demo.bob_address <> "") by (vm_compute; discriminate).
  assert (H6 : Yumi.peer_ek Demo.bob_entry = Some (JStr (Yumi.ek Demo.bob)))
    by (vm_compute; reflexivity).
  assert (H7 : JSON_parse (JSON_stringify Demo.hello_value) = Some Demo.hello_value)
    by (vm_compute; reflexivity).
  assert (H8 : truthy Demo.hello_value = true) by (vm_compute; reflexivity).
  assert (H9 : Yumi.identifier Demo.alice_knows_bob = Yumi.identifier Demo.bob)
    by (vm_compute; reflexivity).
  assert (H10 : now (Demo.env_at 2300 "nonce008")
                < now (Demo.env_at 2200 "nonce007") + Yumi.timeout Demo.bob)
    by (vm_compute; reflexivity).
  destruct (directed_delivered Demo.alice_knows_bob Demo.bob (Demo.env_at 2200 "nonce007")
              (Demo.env_at 2300 "nonce008") Demo.bob_address (Yumi.ek Demo.bob)
              Demo.bob_entry Demo.hello_value H1 H5 H2 H6 H3 H4 H7 H8 H9 H10)
    as (wire & Henc & Hsend & Hrecv).
  vm_compute in Henc. injection Henc as <-.
  eexists. split; [exact Hsend |].
  apply Hrecv. vm_compute. reflexivity.
Defined.

(** X5, on Bob's leave and Alice, who has seen him. *)
Lemma leave_delivered_witness :
  Yumi.carried Demo.bob (Demo.env_at 3000 "nonce030") [("y", Some (JStr "x"))]
  /\ Yumi.peers Demo.alice_knows_bob !! Demo.bob_address = Some Demo.bob_entry
  /\ Yumi.address Demo.alice_knows_bob (Some (Yumi.pk Demo.bob)) = Demo.bob_address
  /\ Yumi.peers
       (fst (Yumi.onMessage Demo.alice_knows_bob (Yumi.identifier Demo.alice_knows_bob)
               (Demo.env_at 3100 "nonce031")
               (toBuffer (Yumi.makePacket Demo.bob (Demo.env_at 3000 "nonce030")
                                          [("y", Some (JStr "x"))]))))
       !! Demo.bob_address
     = None.
Proof.
  assert (H1 : Yumi.carried Demo.bob (Demo.env_at 3000 "nonce030") [("y", Some (JStr "x"))])
    by (cbv zeta; repeat (apply conj); vm_compute; reflexivity).
  assert (H2 : Yumi.peers Demo.alice_knows_bob !! Demo.bob_address = Some Demo.bob_entry)
    by (vm_compute; reflexivity).
  assert (H3 : Yumi.address Demo.alice_knows_bob (Some (Yumi.pk Demo.bob)) = Demo.bob_address)
    by (vm_compute; reflexivity).
  repeat (split; [assumption |]).
  rewrite <- H3.
  refine (proj1 (proj2 (leave_delivered Demo.bob Demo.alice_knows_bob
                          (Demo.env_at 3000 "nonce030") (Demo.env_at 3100 "nonce031")
                          H1 _ _ _))); vm_compute; reflexivity.
Defined.

(** X6, on Alice after Bob's ping. *)
Lemma own_address_never_a_peer_witness :
  Yumi.reachable Demo.alice_knows_bob
  /\ Yumi.peers Demo.alice_knows_bob !! Yumi.address Demo.alice_knows_bob None = None.
Proof.
  split; [exact reachable_alice_knows_bob |].
  exact (own_address_never_a_peer Demo.alice_knows_bob reachable_alice_knows_bob).
Defined.

(** X9, on Alice's call of [status] on Bob. *)
Lemma rpc_nonce_object_unanswered_witness :
  Yumi.reachable Demo.alice_knows_bob
  /\ Yumi.peers Demo.alice_knows_bob !! Demo.bob_address = Some Demo.bob_entry
  /\ Yumi.callbacks Demo.alice_calls !! Demo.call_nonce = Some (Some 7%nat)
  /\ Yumi.dispatch Demo.alice_calls "room" (Demo.env_at 2400 "nonce010")
       [("y", JStr "rr"); ("rn", json_of_Uint8Array (Demo.bytes "abcdefgh"));
        ("rr", JStr "true")]
       (Yumi.pk Demo.bob)
     = (Demo.alice_calls, []).
Proof.
  assert (H1 := reachable_alice_knows_bob).
  assert (H2 : Yumi.peers Demo.alice_knows_bob !! Demo.bob_address = Some Demo.bob_entry)
    by (vm_compute; reflexivity).
  destruct (rpc_nonce_object_unanswered Demo.alice_knows_bob (Demo.env_at 2200 "nonce007")
              Demo.bob_address Demo.bob_entry (Some (JStr "status")) (Some JNull)
              (Some 7%nat) H1 H2) as (Hcb & _ & _ & Hdrop).
  repeat (split; [assumption |]).
  apply (Hdrop "room" (Demo.env_at 2400 "nonce010")); reflexivity.
Defined.

(** X10, on a record that names Bob's signing key and a box key of
    Mallory's. *)
Lemma presence_replaces_box_key_witness :
  Yumi.peers Demo.alice_knows_bob !! Demo.bob_address = Some Demo.bob_entry
  /\ Yumi.address Demo.alice_knows_bob (Some (Yumi.pr_pk Demo.mallory_presence))
     = Demo.bob_address
  /\ Yumi.peers (fst (Yumi.presenceListener Demo.alice_knows_bob (Demo.env_at 3200 "nonce032")
                                            (Some Demo.mallory_presence)))
       !! Demo.bob_address
     = Some {| Yumi.peer_pk := Yumi.pk Demo.bob;
               Yumi.peer_ek := Some (JStr "6d616c6c6f7279");
               Yumi.peer_last := 3200 |}.
Proof.
  assert (H1 : Yumi.peers Demo.alice_knows_bob !! Demo.bob_address = Some Demo.bob_entry)
    by (vm_compute; reflexivity).
  assert (H2 : Yumi.address Demo.alice_knows_bob (Some (Yumi.pr_pk Demo.mallory_presence))
               = Demo.bob_address) by (vm_compute; reflexivity).
  repeat (split; [assumption |]).
  rewrite <- H2.
  refine (proj1 (presence_replaces_box_key Demo.alice_knows_bob (Demo.env_at 3200 "nonce032")
                   (Demo.env_at 3300 "nonce033") Demo.mallory_presence Demo.hello_value
                   _ _ _ _ _ _));
    vm_compute; first [reflexivity | discriminate].
Defined.

(** X11, on the upload of [hello world!] and its chunks in reverse
    order. *)
Lemma file_transfer_round_trip_witness :
  0 < Kunai.chunkSize Demo.kunai4
  /\ Kunai.chunks Demo.kunai4 !! transferCode (Demo.env_at 1000 "nonce012") = None
  /\ toBase64 (Demo.bytes "hello world!") <> ""
  /\ base64_decode (toBase64 (Demo.bytes "hello world!")) = Some (Demo.bytes "hello world!")
  /\ Permutation (map fst Demo.delivery) Demo.written
  /\ NoDup (map snd Demo.delivery)
  /\ exists r',
       List.last (snd (Kunai.receiver_run
                         (Kunai.detect Demo.sent_metadata "7-ninja-tokyo")
                         (map (fun x => Kunai.Chunk (Kunai.as_received (fst x)) (snd x))
                              Demo.delivery ++ [Kunai.SweepTimer])))
                 (Kunai.detect Demo.sent_metadata "7-ninja-tokyo", [])
       = (r', [Kunai.EmitFileReceived "h.txt" 12 (Demo.bytes "hello world!")
                                      "7-ninja-tokyo"]).
Proof.
  assert (H1 : 0 < Kunai.chunkSize Demo.kunai4) by (vm_compute; reflexivity).
  assert (H2 : Kunai.chunks Demo.kunai4 !! transferCode (Demo.env_at 1000 "nonce012") = None)
    by (vm_compute; reflexivity).
  assert (H3 : toBase64 (Demo.bytes "hello world!") <> "") by (vm_compute; discriminate).
  assert (H4 : base64_decode (toBase64 (Demo.bytes "hello world!"))
               = Some (Demo.bytes "hello world!")) by (vm_compute; reflexivity).
  assert (H5 : Permutation (map fst Demo.delivery) Demo.written).
  { replace (map fst Demo.delivery) with (rev Demo.written) by (vm_compute; reflexivity).
    apply Permutation_sym, Permutation_rev. }
  assert (H6 : NoDup (map snd Demo.delivery)).
  { apply (bool_decide_unpack _). vm_compute. exact I. }
  repeat (split; [assumption |]).
  destruct (file_transfer_round_trip Demo.kunai4 (Demo.env_at 1000 "nonce012")
              Demo.upload_clock Demo.h_txt (Demo.bytes "hello world!") H1 H2 H3 H4)
    as (meta & written & Hmeta & Hwritten & Hall).
  assert (Em : meta = Demo.sent_metadata).
  { vm_compute in Hmeta. injection Hmeta as <-. vm_compute. reflexivity. }
  assert (Ew : written = Demo.written).
  { vm_compute in Hwritten. injection Hwritten as <-. vm_compute. reflexivity. }
  subst meta written.
  exact (Hall Demo.delivery H5 H6).
Defined.

(** X12, on the receiver of the two-chunk transfer. *)
Lemma file_received_at_most_once_witness :
  Kunai.scheduled Demo.receiver0 Kunai.armed Demo.receive_ops = true
  /\ (length (Kunai.file_events
                (Kunai.actions_of (snd (Kunai.receiver_run Demo.receiver0 Demo.receive_ops))))
      <= 1)%nat.
Proof.
  assert (H : Kunai.scheduled Demo.receiver0 Kunai.armed Demo.receive_ops = true)
    by (vm_compute; reflexivity).
  split; [exact H |].
  exact (file_received_at_most_once Demo.h_txt_metadata "7-ninja-tokyo" Demo.receive_ops H).
Defined.

(** X15, on the overlay of Alice and a direct message to Bob, whose keys
    it holds. *)
Lemma direct_send_reaches_no_channel_witness :
  truthy (JStr "hi") = true
  /\ exists r,
       Yari.send Demo.yari1 (Demo.env_at 5000 "nonce020")
                 (Some (JStr Demo.bob_address)) (Some (JStr "hi")) = Some r
       /\ fst (fst r) = Demo.yari1
       /\ Yari.directed_sends (snd (fst r)) = [].
Proof.
  assert (H : truthy (JStr "hi") = true) by reflexivity.
  split; [exact H |].
  pose proof (direct_send_reaches_no_channel Demo.yari1 (Demo.env_at 5000 "nonce020")
                (JStr Demo.bob_address) (JStr "hi") H) as T.
  revert T.
  destruct (Yari.send Demo.yari1 (Demo.env_at 5000 "nonce020")
                      (Some (JStr Demo.bob_address)) (Some (JStr "hi"))) as [r|].
  - intros (_ & T1 & T2 & _). exists r. split; [reflexivity |]. split; assumption.
  - intros T. vm_compute in T. discriminate.
Defined.

(** X16, on the event Bob emits for [hello] and an overlay on top of
    him. *)
Lemma channel_messages_never_decrypted_witness :
  In (Yumi.EvMessage (Yumi.address Demo.bob (Some (Yumi.pk Demo.alice))) Demo.hello_value
                     (JObj Demo.hello_payload))
     (snd (Yumi.onMessage Demo.bob "room" (Demo.env_at 1100 "nonce002")
                          (toBuffer Demo.hello)))
  /\ Yari.on_message (fun message secret => Some (Some message)) Demo.yari1 [] "1100-x"
       (Yumi.address Demo.bob (Some (Yumi.pk Demo.alice))) (Some Demo.hello_value)
       (Some (JObj Demo.hello_payload))
     = ([JObj Demo.hello_payload], [Yari.Rejected]).
Proof.
  assert (H : In (Yumi.EvMessage (Yumi.address Demo.bob (Some (Yumi.pk Demo.alice)))
                                 Demo.hello_value (JObj Demo.hello_payload))
                 (snd (Yumi.onMessage Demo.bob "room" (Demo.env_at 1100 "nonce002")
                                      (toBuffer Demo.hello)))).
  { apply (in_nth _ 2). vm_compute. reflexivity. }
  split; [exact H |].
  exact (channel_messages_never_decrypted (fun message secret => Some (Some message))
           Demo.yari1 [] "1100-x" Demo.bob "room" (Demo.env_at 1100 "nonce002")
           (toBuffer Demo.hello) _ _ _ H).
Defined.

(** X18, on a seed of four bytes. *)
Lemma bs58check_round_trip_witness :
  (4 <= length (nacl_hash (nacl_hash (Utils.SEEDPREFIX ++ Demo.seed_material))))%nat
  /\ Utils.encodeseed_browser Demo.seed_material = "490a73656564f66f8f43"
  /\ Utils.seedBytes_browser (Utils.encodeseed_browser Demo.seed_material)
     = Utils.Payload Demo.seed_material.
Proof.
  assert (H1 : (4 <= length (nacl_hash (nacl_hash (Utils.SEEDPREFIX ++ Demo.seed_material))))%nat)
    by (vm_compute; lia).
  split; [exact H1 |]. split; [vm_compute; reflexivity |].
  refine (proj2 (bs58check_round_trip (Utils.SEEDPREFIX ++ Demo.seed_material) H1 _)
                Demo.seed_material eq_refl).
  vm_compute. reflexivity.
Defined.
